(** * WarpX: rigid injection, species properties, macroscopic field accessor
      and the proton-boron cross section -- a shallow embedding

    The development follows these sources:
    - [Particles/SpeciesPhysicalProperties.H]   (module [species])
    - [Particles/RigidInjectedParticleContainer.cpp] (module [RigidInjected])
    - [FieldSolver/.../MacroscopicProperties.H] and [FieldAccessorFunctors.H]
      (module [Macroscopic])
    - [Particles/Collision/BinaryCollision/ProtonBoronFusionCrossSection.H]
      (module [Fusion])

    Numbers of type [amrex::Real] / [amrex::ParticleReal] are read as real
    numbers [R]: rounding, infinities and signed zeros are outside the model.
    The one place where the source produces a NaN on purpose
    ([species::get_charge], [species::get_mass]) has a value type of its own.

    [amrex::Abort] ends the process; an access outside an allocation is
    undefined behaviour.  Both are outcomes of a computation, next to the
    normal return. *)

From Stdlib Require Import Reals Lra Lia String List ZArith Bool.
From stdpp Require Import base list.

Local Open Scope R_scope.

(** ** Outcomes of a call *)

Inductive outcome (A : Type) : Type :=
| Normal (a : A)            (* the call returns *)
| Aborted (msg : string)    (* amrex::Abort(msg) *)
| OutOfBounds.              (* read or write past the end of a vector *)

Arguments Normal {A} a.
Arguments Aborted {A} msg.
Arguments OutOfBounds {A}.

Definition bind {A B : Type} (c : outcome A) (k : A -> outcome B) : outcome B :=
  match c with
  | Normal a => k a
  | Aborted msg => Aborted msg
  | OutOfBounds => OutOfBounds
  end.

Declare Scope outcome_scope.
Delimit Scope outcome_scope with outcome.
Notation "'let*' x ':=' c 'in' k" := (bind c (fun x => k))
  (at level 10, x name, c at level 100, k at level 200) : outcome_scope.
Notation "'let*' ' pat ':=' c 'in' k" :=
  (bind c (fun x => match x with pat => k end))
  (at level 10, pat pattern, c at level 100, k at level 200) : outcome_scope.
Local Open Scope outcome_scope.

(** [v[i]] on a vector: past the end there is nothing to read. *)
Definition read {A : Type} (v : list A) (i : nat) : outcome A :=
  match v !! i with
  | Some a => Normal a
  | None => OutOfBounds
  end.

(** [v[i] = a] on a vector. *)
Definition write {A : Type} (v : list A) (i : nat) (a : A) : outcome (list A) :=
  if Nat.ltb i (length v) then Normal (<[i:=a]> v) else OutOfBounds.

(** [amrex::ParallelFor(n, body)]: the body runs once for every index
    [0 <= i < n].  The kernels of this development touch slot [i] only, so the
    order of the iterations is immaterial; they are run in increasing order. *)
Fixpoint ParallelFor_from {S : Type} (body : nat -> S -> outcome S)
         (i n : nat) (s : S) : outcome S :=
  match n with
  | O => Normal s
  | Datatypes.S n' => let* s' := body i s in
      ParallelFor_from body (Datatypes.S i) n' s'
  end.

Definition ParallelFor {S : Type} (n : nat) (body : nat -> S -> outcome S)
           (s : S) : outcome S :=
  ParallelFor_from body 0 n s.

(** ** Species: [SpeciesPhysicalProperties.H] *)

Module species.

Inductive PhysicalSpecies : Type :=
| unspecified | electron | positron | photon | hydrogen | helium | boron
| carbon | nitrogen | oxygen | copper.

(** The value returned by the property getters: a number, or the quiet NaN of
    [std::numeric_limits<amrex::Real>::quiet_NaN()]. *)
Inductive RealValue : Type :=
| finite (r : R)
| quiet_NaN.

Definition from_string (species : string) : outcome PhysicalSpecies :=
  if (species =? "unspecified")%string then Normal unspecified
  else if (species =? "electron")%string then Normal electron
  else if (species =? "positron")%string then Normal positron
  else if (species =? "photon")%string then Normal photon
  else if (species =? "hydrogen")%string then Normal hydrogen
  else if (species =? "proton")%string then Normal hydrogen
  else if (species =? "helium")%string then Normal helium
  else if (species =? "alpha")%string then Normal helium
  else if (species =? "boron")%string then Normal boron
  else if (species =? "carbon")%string then Normal carbon
  else if (species =? "nitrogen")%string then Normal nitrogen
  else if (species =? "oxygen")%string then Normal oxygen
  else if (species =? "copper")%string then Normal copper
  else Aborted "unknown PhysicalSpecies".

Section Getters.
(** [PhysConst::q_e], [PhysConst::m_e], [PhysConst::m_p] of
    [Utils/WarpXConst.H]. *)
Variables q_e m_e m_p : R.

(** The [default:] branch of the [switch] is taken by no enumerator. *)
Definition get_charge (ps : PhysicalSpecies) : outcome RealValue :=
  match ps with
  | unspecified => Normal quiet_NaN
  | electron => Normal (finite (- q_e))
  | positron => Normal (finite q_e)
  | photon => Normal (finite 0)
  | hydrogen => Normal (finite q_e)
  | helium => Normal (finite (q_e * 2.0))
  | boron => Normal (finite (q_e * 5.0))
  | carbon => Normal (finite (q_e * 6.0))
  | nitrogen => Normal (finite (q_e * 7.0))
  | oxygen => Normal (finite (q_e * 8.0))
  | copper => Normal (finite (q_e * 29.0))
  end.

Definition get_mass (ps : PhysicalSpecies) : outcome RealValue :=
  match ps with
  | unspecified => Normal quiet_NaN
  | electron => Normal (finite m_e)
  | positron => Normal (finite m_e)
  | photon => Normal (finite 0)
  | hydrogen => Normal (finite m_p)
  | helium => Normal (finite (m_p * 3.97369))
  | boron => Normal (finite (m_p * 10.7319))
  | carbon => Normal (finite (m_e * 22032.0))
  | nitrogen => Normal (finite (m_e * 25716.9))
  | oxygen => Normal (finite (m_p * 15.8834))
  | copper => Normal (finite (m_p * 63.0864))
  end.
End Getters.

Definition get_name (ps : PhysicalSpecies) : outcome string :=
  match ps with
  | unspecified => Normal "unspecified"%string
  | electron => Normal "electron"%string
  | positron => Normal "positron"%string
  | photon => Normal "photon"%string
  | hydrogen => Normal "hydrogen"%string
  | helium => Normal "helium"%string
  | boron => Normal "boron"%string
  | carbon => Normal "carbon"%string
  | nitrogen => Normal "nitrogen"%string
  | oxygen => Normal "oxygen"%string
  | copper => Normal "copper"%string
  end.

(** The names that [get_name] can produce, in the order of the enumerators. *)
Definition canonical_names : list string :=
  ["unspecified"; "electron"; "positron"; "photon"; "hydrogen"; "helium";
   "boron"; "carbon"; "nitrogen"; "oxygen"; "copper"]%string.

(** Every string some branch of [from_string] compares against. *)
Definition accepted_names : list string :=
  canonical_names ++ ["proton"; "alpha"]%string.

(** *** Facts about the species table *)

Lemma from_string_canonical (ps : PhysicalSpecies) :
  (let* name := get_name ps in from_string name) = Normal ps.
Proof. destruct ps; reflexivity. Qed.

Lemma from_string_unknown (s : string) :
  ~ In s accepted_names -> from_string s = Aborted "unknown PhysicalSpecies".
Proof.
  intros Hs. unfold from_string.
  repeat match goal with
         | |- context [String.eqb s ?t] =>
             destruct (String.eqb_spec s t) as [-> | _];
             [ exfalso; apply Hs; simpl; auto 20 | ]
         end.
  reflexivity.
Qed.

Lemma get_name_from_string_canonical (s : string) :
  In s canonical_names ->
  (let* ps := from_string s in get_name ps) = Normal s.
Proof.
  simpl. intros H.
  repeat (destruct H as [<- | H]; [ reflexivity | ]).
  contradiction.
Qed.

(** C10.  ["proton"] is read as the species of ["hydrogen"] and ["alpha"] as
    the species of ["helium"]; [get_name (from_string s)] gives [s] back for
    each of the eleven canonical names, ["hydrogen"] for ["proton"] and
    ["helium"] for ["alpha"]; every string outside the accepted set makes
    [from_string] abort. *)
Theorem from_string_aliases_and_roundtrip :
  from_string "proton" = Normal hydrogen /\
  from_string "proton" = from_string "hydrogen" /\
  from_string "alpha" = Normal helium /\
  from_string "alpha" = from_string "helium" /\
  (forall s : string, In s canonical_names ->
     (let* ps := from_string s in get_name ps) = Normal s) /\
  (let* ps := from_string "proton" in get_name ps) = Normal "hydrogen"%string /\
  (let* ps := from_string "alpha" in get_name ps) = Normal "helium"%string /\
  (forall s : string, ~ In s accepted_names ->
     from_string s = Aborted "unknown PhysicalSpecies").
Proof.
  repeat split; try reflexivity.
  - exact get_name_from_string_canonical.
  - exact from_string_unknown.
Qed.

Lemma from_string_aliases_and_roundtrip_witness :
  (let* ps := from_string "boron" in get_name ps) = Normal "boron"%string /\
  from_string "neutron" = Aborted "unknown PhysicalSpecies".
Proof.
  destruct from_string_aliases_and_roundtrip
    as (_ & _ & _ & _ & Hcanon & _ & _ & Hunknown).
  split.
  - apply Hcanon. simpl. auto 20.
  - apply Hunknown. simpl. intros H.
    repeat (destruct H as [H | H]; [ discriminate H | ]). exact H.
Defined.

(** *** More on the species table *)

(** X1.  Reading back the name of a species gives the species:
    [from_string (get_name ps)] returns [ps] for each of the eleven
    enumerators, so no two species share a name. *)
Theorem get_name_then_from_string :
  (forall ps : PhysicalSpecies,
     (let* name := get_name ps in from_string name) = Normal ps) /\
  (forall ps1 ps2 : PhysicalSpecies, get_name ps1 = get_name ps2 -> ps1 = ps2).
Proof.
  split.
  - intros ps. destruct ps; reflexivity.
  - intros ps1 ps2 Heq.
    assert (H1 : (let* name := get_name ps1 in from_string name) = Normal ps1)
      by (destruct ps1; reflexivity).
    assert (H2 : (let* name := get_name ps2 in from_string name) = Normal ps2)
      by (destruct ps2; reflexivity).
    rewrite Heq in H1. rewrite H1 in H2. injection H2 as ->. reflexivity.
Qed.

Lemma get_name_then_from_string_witness :
  electron = electron.
Proof.
  destruct get_name_then_from_string as [_ Hinj].
  apply Hinj. reflexivity.
Defined.

(** X2.  [from_string] returns exactly on the thirteen accepted names, and
    what it returns is the species of that name, or hydrogen for ["proton"]
    and helium for ["alpha"]. *)
Theorem from_string_returns_iff_accepted (s : string) :
  ((exists ps, from_string s = Normal ps) <-> In s accepted_names) /\
  (forall ps : PhysicalSpecies,
     from_string s = Normal ps ->
     get_name ps = Normal s
     \/ (s = "proton"%string /\ ps = hydrogen)
     \/ (s = "alpha"%string /\ ps = helium)).
Proof.
  split; [ split | ].
  - intros [ps Hps]. destruct (in_dec string_dec s accepted_names) as [Hin | Hout];
      [ exact Hin | ].
    rewrite (from_string_unknown s Hout) in Hps. discriminate Hps.
  - simpl. intros H.
    repeat (destruct H as [<- | H]; [ eexists; reflexivity | ]).
    contradiction.
  - intros ps. unfold from_string.
    repeat match goal with
           | |- context [String.eqb s ?t] =>
               destruct (String.eqb_spec s t) as [-> | _];
               [ intros Heq; injection Heq as <-; auto | ]
           end.
    intros Heq. discriminate Heq.
Qed.

Lemma from_string_returns_iff_accepted_witness :
  (exists ps, from_string "alpha" = Normal ps) /\
  ~ (exists ps, from_string "muon" = Normal ps).
Proof.
  destruct (from_string_returns_iff_accepted "alpha") as [[_ Hback] _].
  destruct (from_string_returns_iff_accepted "muon") as [[Hfwd _] _].
  split.
  - apply Hback. simpl. auto 20.
  - intros Hex. apply Hfwd in Hex. simpl in Hex.
    repeat (destruct Hex as [Hex | Hex]; [ discriminate Hex | ]). exact Hex.
Defined.

(** X3.  With positive [q_e], [m_e] and [m_p], the values of the getters tell
    the special species apart: the charge (the mass) is a NaN exactly for
    [unspecified] and is zero exactly for [photon], and the charge is
    negative exactly for [electron]. *)
Theorem charge_and_mass_classify (q_e m_e m_p : R) (ps : PhysicalSpecies) :
  0 < q_e -> 0 < m_e -> 0 < m_p ->
  (get_charge q_e ps = Normal quiet_NaN <-> ps = unspecified) /\
  (get_mass m_e m_p ps = Normal quiet_NaN <-> ps = unspecified) /\
  (get_charge q_e ps = Normal (finite 0) <-> ps = photon) /\
  (get_mass m_e m_p ps = Normal (finite 0) <-> ps = photon) /\
  ((exists r, r < 0 /\ get_charge q_e ps = Normal (finite r)) <-> ps = electron).
Proof.
  intros Hq Hme Hmp.
  repeat split; intros H;
    try (destruct ps; first [ reflexivity | discriminate H
                            | injection H as H; exfalso; lra ]);
    try (subst ps; reflexivity).
  - destruct H as (r & Hr & H).
    destruct ps; first [ reflexivity | discriminate H
                       | injection H as H; exfalso; lra ].
  - subst ps. exists (- q_e). split; [ lra | reflexivity ].
Qed.

Lemma charge_and_mass_classify_witness :
  get_charge 1.602176634e-19 photon = Normal (finite 0) /\
  exists r, r < 0 /\ get_charge 1.602176634e-19 electron = Normal (finite r).
Proof.
  destruct (charge_and_mass_classify
              1.602176634e-19 9.1093837015e-31 1.67262192369e-27 photon)
    as (_ & _ & [_ Hphoton] & _); [ lra | lra | lra | ].
  destruct (charge_and_mass_classify
              1.602176634e-19 9.1093837015e-31 1.67262192369e-27 electron)
    as (_ & _ & _ & _ & [_ Helectron]); [ lra | lra | lra | ].
  split; [ apply Hphoton; reflexivity | apply Helectron; reflexivity ].
Defined.

End species.

(** ** Comparisons of [amrex::Real] values *)

#[global] Instance Rlt_decision (a b : R) : Decision (a < b) := Rlt_dec a b.
#[global] Instance Rle_decision (a b : R) : Decision (a <= b) := Rle_dec a b.
#[global] Instance Rgt_decision (a b : R) : Decision (a > b) := Rgt_dec a b.
#[global] Instance Rge_decision (a b : R) : Decision (a >= b) := Rge_dec a b.
#[global] Instance Req_decision : EqDecision R := Req_dec_T.

(** ** Rigid injection: [RigidInjectedParticleContainer.cpp] *)

Module RigidInjected.

(** One particle of a tile.  AMReX keeps the position in the array of structs
    and the momentum (and the optional ionization level) in arrays of the same
    length [numParticles()]; slot [i] of each of them is a field of entry
    [i] here. *)
Record Particle : Type := {
  part_x : R; part_y : R; part_z : R;
  part_ux : R; part_uy : R; part_uz : R;
  part_ion_lev : Z
}.

Abbreviation Tile := (list Particle).

(** Particles of a container: for every level, its tiles. *)
Abbreviation Particles := (list (list (list Particle))).

Definition numParticles (tile : Tile) : nat := length tile.

Definition Real3 : Type := (R * R * R)%type.

Definition position (p : Particle) : Real3 := (part_x p, part_y p, part_z p).
Definition momentum (p : Particle) : Real3 := (part_ux p, part_uy p, part_uz p).

Definition with_position (p : Particle) (xyz : Real3) : Particle :=
  let '(xp, yp, zp) := xyz in
  {| part_x := xp; part_y := yp; part_z := zp;
     part_ux := part_ux p; part_uy := part_uy p; part_uz := part_uz p;
     part_ion_lev := part_ion_lev p |}.

Definition with_ux (p : Particle) (v : R) : Particle :=
  {| part_x := part_x p; part_y := part_y p; part_z := part_z p;
     part_ux := v; part_uy := part_uy p; part_uz := part_uz p;
     part_ion_lev := part_ion_lev p |}.

Definition with_uy (p : Particle) (v : R) : Particle :=
  {| part_x := part_x p; part_y := part_y p; part_z := part_z p;
     part_ux := part_ux p; part_uy := v; part_uz := part_uz p;
     part_ion_lev := part_ion_lev p |}.

Definition with_uz (p : Particle) (v : R) : Particle :=
  {| part_x := part_x p; part_y := part_y p; part_z := part_z p;
     part_ux := part_ux p; part_uy := part_uy p; part_uz := v;
     part_ion_lev := part_ion_lev p |}.

(** [GetParticlePosition(pti)] and [SetParticlePosition(pti)]: both are built
    without an offset, so index [i] is slot [i] of the tile. *)
Definition GetPosition (tile : Tile) (i : nat) : outcome Real3 :=
  let* p := read tile i in Normal (position p).

Definition SetPosition (tile : Tile) (i : nat) (xyz : Real3) : outcome Tile :=
  let* p := read tile i in write tile i (with_position p xyz).

(** Reads and writes through the momentum pointers, [uxp.dataPtr()[k]]. *)
Definition get_ux (tile : Tile) (k : nat) : outcome R :=
  let* p := read tile k in Normal (part_ux p).
Definition get_uy (tile : Tile) (k : nat) : outcome R :=
  let* p := read tile k in Normal (part_uy p).
Definition get_uz (tile : Tile) (k : nat) : outcome R :=
  let* p := read tile k in Normal (part_uz p).

Definition set_ux (tile : Tile) (k : nat) (v : R) : outcome Tile :=
  let* p := read tile k in write tile k (with_ux p v).
Definition set_uy (tile : Tile) (k : nat) (v : R) : outcome Tile :=
  let* p := read tile k in write tile k (with_uy p v).
Definition set_uz (tile : Tile) (k : nat) (v : R) : outcome Tile :=
  let* p := read tile k in write tile k (with_uz p v).

(** The local save vectors of [PushPX]. *)
Record SaveBuffers : Type := {
  xp_save : list R; yp_save : list R; zp_save : list R;
  uxp_save : list R; uyp_save : list R; uzp_save : list R
}.

(** The vectors as declared, before any [resize]. *)
Definition empty_saves : SaveBuffers :=
  {| xp_save := []; yp_save := []; zp_save := [];
     uxp_save := []; uyp_save := []; uzp_save := [] |}.

(** [v.resize(np)] on an empty vector.  The new slots have no defined value
    in the source; no kernel below reads a slot before it has written it. *)
Definition resize (np : nat) : list R := replicate np 0.

Definition resized_saves (np : nat) : SaveBuffers :=
  {| xp_save := resize np; yp_save := resize np; zp_save := resize np;
     uxp_save := resize np; uyp_save := resize np; uzp_save := resize np |}.

(** The arguments the source gives to the constructor [ScaleFields(...)]. *)
Record ScaleFields : Type := {
  m_do_scale : bool;
  m_dt : R;
  m_z_plane_previous : R;
  m_vz_ave_boosted : R;
  m_v_boost : R
}.

(** The members of the container that the functions below read or write. *)
Record Container : Type := {
  zinject_plane : R;
  rigid_advance : bool;
  vzbeam_ave_boosted : R;
  zinject_plane_levels : list R;
  zinject_plane_lev : R;
  zinject_plane_lev_previous : R;
  done_injecting_lev : bool;
  (* members of the base classes *)
  do_not_push : bool;
  charge : R;
  mass : R;
  do_classical_radiation_reaction : bool;
  do_field_ionization : bool
}.

(** The four assignments at the head of [Evolve]. *)
Definition set_injection_plane (self : Container) (previous : R)
           (levels : list R) (current : R) (done : bool) : Container :=
  {| zinject_plane := zinject_plane self;
     rigid_advance := rigid_advance self;
     vzbeam_ave_boosted := vzbeam_ave_boosted self;
     zinject_plane_levels := levels;
     zinject_plane_lev := current;
     zinject_plane_lev_previous := previous;
     done_injecting_lev := done;
     do_not_push := do_not_push self;
     charge := charge self;
     mass := mass self;
     do_classical_radiation_reaction := do_classical_radiation_reaction self;
     do_field_ionization := do_field_ionization self |}.

(** [Geom(lev)]: the physical bounds of the domain, per direction. *)
Record Geometry : Type := {
  ProbLo : nat -> R;
  ProbHi : nat -> R
}.

Section Code.

Set Default Proof Using "Type".

(** *** What the translation unit takes from elsewhere *)

(** [PhysConst::c] and the static members [WarpX::beta_boost],
    [WarpX::moving_window_v]. *)
Variables c beta_boost moving_window_v : R.

(** [AMREX_SPACEDIM]. *)
Variable AMREX_SPACEDIM : nat.

(** [WarpX::particle_pusher_algo] and the enumerators of
    [ParticlePusherAlgo] it is compared with. *)
Variable particle_pusher_algo : Z.
Variables Boris Vay HigueraCary : Z.

(** Grid data: the field [FArrayBox]es given to [PushPX], the [MultiFab]s
    given to [Evolve] and [PushP], and the remaining opaque arguments. *)
Variables FArrayBox IntVect DtType MultiFabs : Type.

(** The arguments of [PushPX] other than the tile and the (unnamed, unused)
    [ScaleFields] argument. *)
Record PushPXCall : Type := {
  exfab : FArrayBox; eyfab : FArrayBox; ezfab : FArrayBox;
  bxfab : FArrayBox; byfab : FArrayBox; bzfab : FArrayBox;
  ngE : IntVect; e_is_nodal : Z;
  offset : nat; np_to_push : nat;
  lev : nat; gather_lev : nat;
  dt : R;
  a_dt_type : DtType
}.

(** [PhysicalParticleContainer::PushPX], the push of the base class. *)
Variable PhysicalParticleContainer_PushPX :
  PushPXCall -> ScaleFields -> Tile -> outcome Tile.

(** [PhysicalParticleContainer::Evolve], the step of the base class: it works
    on the particles and on the grids it is given (currents, densities); the
    injection-plane members belong to the derived class. *)
Variable PhysicalParticleContainer_Evolve :
  Container -> nat -> MultiFabs -> R -> R -> DtType -> bool ->
  Particles -> outcome (Particles * MultiFabs).

(** The gather of [PushP]: [doGatherShapeN] with the arrays, index types,
    cell size and corner of tile [ti] at level [lev]; it adds the gathered
    field to the [E] and [B] it is given. *)
Variable doGatherShapeN :
  MultiFabs -> nat -> nat -> Real3 -> Real3 * Real3 -> Real3 * Real3.

(** [GetExternalEField(pti)], [GetExternalBField(pti)]. *)
Variables getExternalE getExternalB : Tile -> nat -> Real3 -> Real3.

(** The momentum pushers of [Particles/Pusher/]: momentum, [E], [B], charge,
    mass and time step in, momentum out. *)
Variables UpdateMomentumBoris UpdateMomentumVay UpdateMomentumHigueraCary
          UpdateMomentumBorisWithRadiationReaction :
  Real3 -> Real3 -> Real3 -> R -> R -> R -> Real3.

(** *** [PushPX] *)

(** First kernel: copy position and momentum into the save vectors.  The six
    save pointers and the three momentum pointers are offset by [offset]; the
    position functor is not. *)
Definition PushPX_save (offset : nat) (tile : Tile) (i : nat)
           (sv : SaveBuffers) : outcome SaveBuffers :=
  let* '(xp, yp, zp) := GetPosition tile i in
  let* xs := write (xp_save sv) (offset + i) xp in
  let* ys := write (yp_save sv) (offset + i) yp in
  let* zs := write (zp_save sv) (offset + i) zp in
  let* uxi := get_ux tile (offset + i) in
  let* uxs := write (uxp_save sv) (offset + i) uxi in
  let* uyi := get_uy tile (offset + i) in
  let* uys := write (uyp_save sv) (offset + i) uyi in
  let* uzi := get_uz tile (offset + i) in
  let* uzs := write (uzp_save sv) (offset + i) uzi in
  Normal {| xp_save := xs; yp_save := ys; zp_save := zs;
            uxp_save := uxs; uyp_save := uys; uzp_save := uzs |}.

(** Second kernel: undo the push for the particles not injected yet. *)
Definition PushPX_restore (self : Container) (offset : nat) (dt : R)
           (sv : SaveBuffers) (i : nat) (tile : Tile) : outcome Tile :=
  let z_plane_lev := zinject_plane_lev self in
  let vz_ave_boosted := vzbeam_ave_boosted self in
  let rigid := rigid_advance self in
  let inv_csq := 1 / (c * c) in
  let* '(xp, yp, zp) := GetPosition tile i in
  if decide (zp <= z_plane_lev) then
    let* sux := read (uxp_save sv) (offset + i) in
    let* tile := set_ux tile (offset + i) sux in
    let* suy := read (uyp_save sv) (offset + i) in
    let* tile := set_uy tile (offset + i) suy in
    let* suz := read (uzp_save sv) (offset + i) in
    let* tile := set_uz tile (offset + i) suz in
    let* xp := read (xp_save sv) (offset + i) in
    let* yp := read (yp_save sv) (offset + i) in
    let* zp :=
      if rigid then
        let* sz := read (zp_save sv) (offset + i) in
        Normal (sz + dt * vz_ave_boosted)
      else
        let* uxi := get_ux tile (offset + i) in
        let* uyi := get_uy tile (offset + i) in
        let* uzi := get_uz tile (offset + i) in
        let gi := 1 / sqrt (1 + (uxi * uxi + uyi * uyi + uzi * uzi) * inv_csq) in
        let* sz := read (zp_save sv) (offset + i) in
        Normal (sz + dt * uzi * gi) in
    SetPosition tile i (xp, yp, zp)
  else Normal tile.

(** [PushPX] returns nothing; what it leaves behind is the tile and, for the
    record, its local save vectors as they are when it returns. *)
Definition PushPX (self : Container) (call : PushPXCall) (tile : Tile)
  : outcome (Tile * SaveBuffers) :=
  let* saves :=
    if negb (done_injecting_lev self) then
      let np := numParticles tile in
      ParallelFor np (PushPX_save (offset call) tile) (resized_saves np)
    else Normal empty_saves in
  let do_scale := negb (done_injecting_lev self) in
  let v_boost := beta_boost * c in
  let* pushed :=
    PhysicalParticleContainer_PushPX call
      {| m_do_scale := do_scale; m_dt := dt call;
         m_z_plane_previous := zinject_plane_lev_previous self;
         m_vz_ave_boosted := vzbeam_ave_boosted self;
         m_v_boost := v_boost |}
      tile in
  let* restored :=
    if negb (done_injecting_lev self) then
      ParallelFor (numParticles pushed)
                  (PushPX_restore self (offset call) (dt call) saves) pushed
    else Normal pushed in
  Normal (restored, saves).

(** *** [Evolve] *)

(** The value assigned to [done_injecting_lev]. *)
Definition plane_left_domain (z_plane plo_z phi_z : R) : bool :=
  (bool_decide (z_plane < plo_z)
   && bool_decide (moving_window_v + beta_boost * c >= 0))
  || (bool_decide (z_plane > phi_z)
      && bool_decide (moving_window_v + beta_boost * c <= 0)).

Definition Evolve (self : Container) (Geom : nat -> Geometry) (lev : nat)
           (grids : MultiFabs) (t dt : R) (a_dt_type : DtType)
           (skip_deposition : bool) (particles : Particles)
  : outcome (Container * (Particles * MultiFabs)) :=
  (* Update location of injection plane in the boosted frame *)
  let* previous := read (zinject_plane_levels self) lev in
  let* levels :=
    write (zinject_plane_levels self) lev (previous - dt * beta_boost * c) in
  let* current := read levels lev in
  (* Set the done injecting flag when the inject plane moves out of the
     simulation domain. *)
  let plo := ProbLo (Geom lev) in
  let phi := ProbHi (Geom lev) in
  let zdir := (AMREX_SPACEDIM - 1)%nat in
  let* plane := read levels lev in
  let done := plane_left_domain plane (plo zdir) (phi zdir) in
  let self' := set_injection_plane self previous levels current done in
  let* after :=
    PhysicalParticleContainer_Evolve self' lev grids t dt a_dt_type
                                     skip_deposition particles in
  Normal (self', after).

(** One call of the time loop to [Evolve]: the geometry is read anew at each
    call, and the time step is an argument of the call. *)
Record EvolveCall : Type := {
  call_Geom : nat -> Geometry;
  call_t : R;
  call_dt : R;
  call_dt_type : DtType;
  call_skip_deposition : bool
}.

(** A sequence of calls to [Evolve] for one level; the result lists the
    container as it is after each call. *)
Fixpoint Evolve_calls (lev : nat) (calls : list EvolveCall)
         (self : Container) (particles : Particles) (grids : MultiFabs)
  : outcome (list Container) :=
  match calls with
  | [] => Normal []
  | call :: rest =>
      let* '(self', (particles', grids')) :=
        Evolve self (call_Geom call) lev grids (call_t call) (call_dt call)
               (call_dt_type call) (call_skip_deposition call) particles in
      let* later := Evolve_calls lev rest self' particles' grids' in
      Normal (self' :: later)
  end.

(** *** [PushP] *)

(** The local save vectors of [PushP], [uxp_save(np)] and its two siblings. *)
Record MomentumSaves : Type := {
  ux_save : list R; uy_save : list R; uz_save : list R
}.

(** The branch on the pusher inside the first kernel. *)
Definition UpdateMomentum (do_crr : bool) (pusher_algo : Z)
           (u E B : Real3) (qp m dt : R) : outcome Real3 :=
  if do_crr then
    Normal (UpdateMomentumBorisWithRadiationReaction u E B qp m dt)
  else if (pusher_algo =? Boris)%Z then
    Normal (UpdateMomentumBoris u E B qp m dt)
  else if (pusher_algo =? Vay)%Z then
    Normal (UpdateMomentumVay u E B qp m dt)
  else if (pusher_algo =? HigueraCary)%Z then
    Normal (UpdateMomentumHigueraCary u E B qp m dt)
  else Aborted "Unknown particle pusher".

(** First kernel of [PushP]: save the momentum, gather, push the momentum. *)
Definition PushP_push (self : Container) (fields : MultiFabs)
           (lev ti : nat) (dt : R) (tile0 : Tile) (ip : nat)
           (st : Tile * MomentumSaves) : outcome (Tile * MomentumSaves) :=
  let '(tile, sv) := st in
  let* uxi := get_ux tile ip in
  let* uxs := write (ux_save sv) ip uxi in
  let* uyi := get_uy tile ip in
  let* uys := write (uy_save sv) ip uyi in
  let* uzi := get_uz tile ip in
  let* uzs := write (uz_save sv) ip uzi in
  let* pos := GetPosition tile ip in
  let '(Ep, Bp) := doGatherShapeN fields lev ti pos ((0, 0, 0), (0, 0, 0)) in
  let Ep := getExternalE tile0 ip Ep in
  let Bp := getExternalB tile0 ip Bp in
  let q := charge self in
  let m := mass self in
  let* qp :=
    if do_field_ionization self then
      let* p := read tile ip in Normal (q * IZR (part_ion_lev p))
    else Normal q in
  let* '(ux', uy', uz') :=
    UpdateMomentum (do_classical_radiation_reaction self) particle_pusher_algo
                   (uxi, uyi, uzi) Ep Bp qp m dt in
  let* tile := set_ux tile ip ux' in
  let* tile := set_uy tile ip uy' in
  let* tile := set_uz tile ip uz' in
  Normal (tile, {| ux_save := uxs; uy_save := uys; uz_save := uzs |}).

(** Second kernel of [PushP]: undo the push for particles not injected yet. *)
Definition PushP_restore (zz : R) (sv : MomentumSaves) (i : nat)
           (tile : Tile) : outcome Tile :=
  let* '(xp, yp, zp) := GetPosition tile i in
  if decide (zp <= zz) then
    let* sux := read (ux_save sv) i in
    let* tile := set_ux tile i sux in
    let* suy := read (uy_save sv) i in
    let* tile := set_uy tile i suy in
    let* suz := read (uz_save sv) i in
    set_uz tile i suz
  else Normal tile.

(** The body of the loop over the tiles of the level. *)
Definition PushP_tile (self : Container) (fields : MultiFabs)
           (lev : nat) (dt : R) (ti : nat) (tile : Tile) : outcome Tile :=
  let np := numParticles tile in
  let saves :=
    {| ux_save := resize np; uy_save := resize np; uz_save := resize np |} in
  let* '(pushed, saves) :=
    ParallelFor np (PushP_push self fields lev ti dt tile) (tile, saves) in
  let* zz := read (zinject_plane_levels self) lev in
  ParallelFor (numParticles pushed) (PushP_restore zz saves) pushed.

(** The loop of the [WarpXParIter] over the tiles of level [lev]. *)
Fixpoint for_each_tile (body : nat -> Tile -> outcome Tile) (ti : nat)
         (tiles : list Tile) : outcome (list Tile) :=
  match tiles with
  | [] => Normal []
  | tile :: rest =>
      let* tile' := body ti tile in
      let* rest' := for_each_tile body (S ti) rest in
      Normal (tile' :: rest')
  end.

Definition PushP (self : Container) (lev : nat) (dt : R) (fields : MultiFabs)
           (particles : Particles) : outcome Particles :=
  if do_not_push self then Normal particles
  else
    let* tiles := read particles lev in
    let* tiles' := for_each_tile (PushP_tile self fields lev dt) 0 tiles in
    write particles lev tiles'.

(** *** Reading the kernels: vectors and loops *)

(** One step of a kernel: the binds of returned values, the projections of the
    save vectors and the pointer offsets are computed; list operations are
    left as they are. *)
Ltac kernel_step :=
  cbn [bind position momentum Nat.add
       xp_save yp_save zp_save uxp_save uyp_save uzp_save].

Lemma read_Some {A : Type} (v : list A) (i : nat) (a : A) :
  v !! i = Some a -> read v i = Normal a.
Proof. intros H. unfold read. rewrite H. reflexivity. Qed.

Lemma read_Normal {A : Type} (v : list A) (i : nat) (a : A) :
  read v i = Normal a -> v !! i = Some a.
Proof. unfold read. destruct (v !! i); intros H; congruence. Qed.

Lemma write_lt {A : Type} (v : list A) (i : nat) (a : A) :
  (i < length v)%nat -> write v i a = Normal (<[i:=a]> v).
Proof.
  intros H. unfold write.
  destruct (Nat.ltb_spec i (length v)) as [Hlt | Hge]; [ reflexivity | lia ].
Qed.

Lemma write_Normal {A : Type} (v v' : list A) (i : nat) (a : A) :
  write v i a = Normal v' -> (i < length v)%nat /\ v' = <[i:=a]> v.
Proof.
  unfold write. destruct (Nat.ltb_spec i (length v)) as [Hlt | Hge]; intros H.
  - split; [ assumption | congruence ].
  - discriminate H.
Qed.

Lemma bind_Normal {A B : Type} (m : outcome A) (k : A -> outcome B) (b : B) :
  bind m k = Normal b -> exists a, m = Normal a /\ k a = Normal b.
Proof. destruct m; simpl; intros H; try discriminate H. eauto. Qed.

(** A loop invariant that is kept by every iteration holds at the end, and the
    loop returns. *)
Lemma ParallelFor_from_inv {S : Type} (Inv : nat -> S -> Prop)
      (body : nat -> S -> outcome S) (n : nat) :
  forall (i : nat) (s : S),
    Inv i s ->
    (forall k s0, (i <= k < i + n)%nat -> Inv k s0 ->
                  exists s1, body k s0 = Normal s1 /\ Inv (Datatypes.S k) s1) ->
    exists s', ParallelFor_from body i n s = Normal s' /\ Inv (i + n)%nat s'.
Proof.
  induction n as [| n IH]; intros i s Hinv Hstep; simpl.
  - exists s. split; [ reflexivity | ]. replace (i + 0)%nat with i by lia.
    exact Hinv.
  - destruct (Hstep i s) as (s1 & Hb & Hinv1); [ lia | exact Hinv | ].
    rewrite Hb. simpl.
    destruct (IH (Datatypes.S i) s1 Hinv1) as (s' & Hrun & Hend).
    + intros k s0 Hk. apply Hstep. lia.
    + exists s'. split; [ exact Hrun | ].
      replace (i + Datatypes.S n)%nat with (Datatypes.S i + n)%nat by lia.
      exact Hend.
Qed.

(** The accessors on a slot that exists. *)
Lemma GetPosition_Some (tile : Tile) (i : nat) (p : Particle) :
  tile !! i = Some p -> GetPosition tile i = Normal (position p).
Proof. intros H. unfold GetPosition. rewrite (read_Some _ _ _ H). reflexivity. Qed.

Lemma SetPosition_Some (tile : Tile) (i : nat) (p : Particle) (xyz : Real3) :
  tile !! i = Some p ->
  SetPosition tile i xyz = Normal (<[i:=with_position p xyz]> tile).
Proof.
  intros H. unfold SetPosition. rewrite (read_Some _ _ _ H). simpl.
  apply write_lt. eapply lookup_lt_Some; eauto.
Qed.

Lemma get_ux_Some (tile : Tile) (k : nat) (p : Particle) :
  tile !! k = Some p -> get_ux tile k = Normal (part_ux p).
Proof. intros H. unfold get_ux. rewrite (read_Some _ _ _ H). reflexivity. Qed.

Lemma get_uy_Some (tile : Tile) (k : nat) (p : Particle) :
  tile !! k = Some p -> get_uy tile k = Normal (part_uy p).
Proof. intros H. unfold get_uy. rewrite (read_Some _ _ _ H). reflexivity. Qed.

Lemma get_uz_Some (tile : Tile) (k : nat) (p : Particle) :
  tile !! k = Some p -> get_uz tile k = Normal (part_uz p).
Proof. intros H. unfold get_uz. rewrite (read_Some _ _ _ H). reflexivity. Qed.

Lemma set_ux_Some (tile : Tile) (k : nat) (p : Particle) (v : R) :
  tile !! k = Some p -> set_ux tile k v = Normal (<[k:=with_ux p v]> tile).
Proof.
  intros H. unfold set_ux. rewrite (read_Some _ _ _ H). simpl.
  apply write_lt. eapply lookup_lt_Some; eauto.
Qed.

Lemma set_uy_Some (tile : Tile) (k : nat) (p : Particle) (v : R) :
  tile !! k = Some p -> set_uy tile k v = Normal (<[k:=with_uy p v]> tile).
Proof.
  intros H. unfold set_uy. rewrite (read_Some _ _ _ H). simpl.
  apply write_lt. eapply lookup_lt_Some; eauto.
Qed.

Lemma set_uz_Some (tile : Tile) (k : nat) (p : Particle) (v : R) :
  tile !! k = Some p -> set_uz tile k v = Normal (<[k:=with_uz p v]> tile).
Proof.
  intros H. unfold set_uz. rewrite (read_Some _ _ _ H). simpl.
  apply write_lt. eapply lookup_lt_Some; eauto.
Qed.

Lemma lookup_insert_same (tile : Tile) (k : nat) (p q : Particle) :
  tile !! k = Some p -> <[k:=q]> tile !! k = Some q.
Proof. intros H. apply list_lookup_insert_eq. eapply lookup_lt_Some; eauto. Qed.

(** *** The save kernel of [PushPX] when the whole tile is pushed *)

(** The save vectors once every slot has been written (no offset). *)
Definition saves_of (tile : Tile) : SaveBuffers :=
  {| xp_save := part_x <$> tile; yp_save := part_y <$> tile;
     zp_save := part_z <$> tile;
     uxp_save := part_ux <$> tile; uyp_save := part_uy <$> tile;
     uzp_save := part_uz <$> tile |}.

(** A save vector after the first [k] iterations. *)
Definition filled (f : Particle -> R) (k : nat) (tile : Tile) : list R :=
  (f <$> take k tile) ++ resize (length tile - k).

Lemma filled_0 (f : Particle -> R) (tile : Tile) :
  filled f 0 tile = resize (length tile).
Proof.
  unfold filled. rewrite take_0. simpl. f_equal. lia.
Qed.

Lemma filled_all (f : Particle -> R) (tile : Tile) :
  filled f (length tile) tile = f <$> tile.
Proof.
  unfold filled. rewrite firstn_all. rewrite Nat.sub_diag. simpl.
  apply app_nil_r.
Qed.

Lemma write_filled (f : Particle -> R) (tile : Tile) (k : nat) (p : Particle) :
  tile !! k = Some p ->
  write (filled f k tile) k (f p) = Normal (filled f (Datatypes.S k) tile).
Proof.
  intros Hk. pose proof (lookup_lt_Some _ _ _ Hk) as Hlt.
  assert (Hlen : length (f <$> take k tile) = k).
  { rewrite length_fmap, length_take. lia. }
  rewrite write_lt.
  - f_equal. unfold filled.
    rewrite (take_S_r tile k p Hk), fmap_app, <- app_assoc. simpl.
    replace (length tile - k)%nat with (Datatypes.S (length tile - Datatypes.S k))
      by lia.
    rewrite insert_app_r_alt by lia.
    rewrite Hlen, Nat.sub_diag. reflexivity.
  - unfold filled. rewrite length_app, Hlen. unfold resize.
    rewrite length_replicate. lia.
Qed.

Lemma PushPX_save_whole_tile (tile : Tile) :
  ParallelFor (numParticles tile) (PushPX_save 0 tile)
              (resized_saves (numParticles tile)) = Normal (saves_of tile).
Proof.
  pose (Inv := fun (k : nat) (sv : SaveBuffers) =>
                 sv = {| xp_save := filled part_x k tile;
                         yp_save := filled part_y k tile;
                         zp_save := filled part_z k tile;
                         uxp_save := filled part_ux k tile;
                         uyp_save := filled part_uy k tile;
                         uzp_save := filled part_uz k tile |}).
  destruct (ParallelFor_from_inv Inv (PushPX_save 0 tile) (numParticles tile)
                                 0 (resized_saves (numParticles tile)))
    as (sv & Hrun & Hend).
  - unfold Inv, resized_saves, numParticles. rewrite !filled_0. reflexivity.
  - intros k s0 Hk ->. unfold numParticles in Hk.
    destruct (lookup_lt_is_Some_2 tile k) as [p Hp]; [ lia | ].
    exists {| xp_save := filled part_x (Datatypes.S k) tile;
              yp_save := filled part_y (Datatypes.S k) tile;
              zp_save := filled part_z (Datatypes.S k) tile;
              uxp_save := filled part_ux (Datatypes.S k) tile;
              uyp_save := filled part_uy (Datatypes.S k) tile;
              uzp_save := filled part_uz (Datatypes.S k) tile |}.
    split; [ | reflexivity ].
    unfold PushPX_save. rewrite (GetPosition_Some _ _ _ Hp). kernel_step.
    rewrite !(write_filled _ _ _ _ Hp). kernel_step.
    rewrite (get_ux_Some _ _ _ Hp), (get_uy_Some _ _ _ Hp),
      (get_uz_Some _ _ _ Hp). kernel_step.
    rewrite !(write_filled _ _ _ _ Hp). reflexivity.
  - unfold ParallelFor. rewrite Hrun. f_equal. rewrite Hend.
    unfold numParticles. simpl. rewrite !filled_all. reflexivity.
Qed.

(** *** The restore kernel of [PushPX] when the whole tile is pushed *)

(** What the restore kernel leaves in a slot, from the particle saved before
    the push and the particle as the push of the base class left it. *)
Definition undo_push (self : Container) (dt : R) (saved pushed : Particle)
  : Particle :=
  if decide (part_z pushed <= zinject_plane_lev self) then
    {| part_x := part_x saved;
       part_y := part_y saved;
       part_z :=
         if rigid_advance self then
           part_z saved + dt * vzbeam_ave_boosted self
         else
           part_z saved
           + dt * part_uz saved
             * (1 / sqrt (1 + (part_ux saved * part_ux saved
                               + part_uy saved * part_uy saved
                               + part_uz saved * part_uz saved)
                              * (1 / (c * c))));
       part_ux := part_ux saved;
       part_uy := part_uy saved;
       part_uz := part_uz saved;
       part_ion_lev := part_ion_lev pushed |}
  else pushed.

Lemma PushPX_restore_step (self : Container) (dt : R) (tile t : Tile)
      (k : nat) (p0 p1 : Particle) :
  tile !! k = Some p0 ->
  t !! k = Some p1 ->
  PushPX_restore self 0 dt (saves_of tile) k t
  = Normal (<[k:=undo_push self dt p0 p1]> t).
Proof.
  intros H0 H1. unfold PushPX_restore, undo_push, saves_of.
  rewrite (GetPosition_Some _ _ _ H1). kernel_step.
  destruct (decide (part_z p1 <= zinject_plane_lev self)) as [Hle | Hgt].
  - assert (Hs : forall f : Particle -> R, read (f <$> tile) k = Normal (f p0)).
    { intros f. apply read_Some. rewrite list_lookup_fmap, H0. reflexivity. }
    rewrite !Hs. kernel_step.
    rewrite (set_ux_Some _ _ _ _ H1). kernel_step.
    pose proof (lookup_insert_same t k p1 (with_ux p1 (part_ux p0)) H1) as H2.
    rewrite (set_uy_Some _ _ _ _ H2). kernel_step.
    pose proof (lookup_insert_same _ k _
                  (with_uy (with_ux p1 (part_ux p0)) (part_uy p0)) H2) as H3.
    rewrite (set_uz_Some _ _ _ _ H3). kernel_step.
    pose proof (lookup_insert_same _ k _
                  (with_uz (with_uy (with_ux p1 (part_ux p0)) (part_uy p0))
                           (part_uz p0)) H3) as H4.
    destruct (rigid_advance self); kernel_step.
    + rewrite (SetPosition_Some _ _ _ _ H4).
      rewrite !list_insert_insert_eq. reflexivity.
    + rewrite (get_ux_Some _ _ _ H4), (get_uy_Some _ _ _ H4),
        (get_uz_Some _ _ _ H4). kernel_step.
      rewrite (SetPosition_Some _ _ _ _ H4).
      rewrite !list_insert_insert_eq. reflexivity.
  - rewrite (list_insert_id _ _ _ H1). reflexivity.
Qed.

Lemma insert_zip_with_step (g : Particle -> Particle -> Particle)
      (tile pushed : Tile) (k : nat) (p0 p1 : Particle) :
  tile !! k = Some p0 ->
  pushed !! k = Some p1 ->
  <[k:=g p0 p1]> (zip_with g (take k tile) (take k pushed) ++ drop k pushed)
  = zip_with g (take (Datatypes.S k) tile) (take (Datatypes.S k) pushed)
    ++ drop (Datatypes.S k) pushed.
Proof.
  intros H0 H1.
  pose proof (lookup_lt_Some _ _ _ H0) as Hl0.
  pose proof (lookup_lt_Some _ _ _ H1) as Hl1.
  assert (Hlen : length (zip_with g (take k tile) (take k pushed)) = k).
  { rewrite length_zip_with, !length_take. lia. }
  rewrite insert_app_r_alt by lia. rewrite Hlen, Nat.sub_diag.
  rewrite (drop_S _ _ _ H1). simpl.
  rewrite (take_S_r _ _ _ H0), (take_S_r _ _ _ H1).
  rewrite zip_with_app by (rewrite !length_take; lia).
  simpl. rewrite <- app_assoc. reflexivity.
Qed.

Lemma PushPX_restore_whole_tile (self : Container) (dt : R)
      (tile pushed : Tile) :
  length pushed = length tile ->
  ParallelFor (numParticles pushed)
              (PushPX_restore self 0 dt (saves_of tile)) pushed
  = Normal (zip_with (undo_push self dt) tile pushed).
Proof.
  intros Hlen.
  pose (Inv := fun (k : nat) (t : Tile) =>
                 t = zip_with (undo_push self dt) (take k tile) (take k pushed)
                     ++ drop k pushed).
  destruct (ParallelFor_from_inv Inv (PushPX_restore self 0 dt (saves_of tile))
                                 (numParticles pushed) 0 pushed)
    as (t & Hrun & Hend).
  - unfold Inv. rewrite !take_0, drop_0. reflexivity.
  - intros k t0 Hk ->. unfold numParticles in Hk.
    destruct (lookup_lt_is_Some_2 tile k) as [p0 H0]; [ lia | ].
    destruct (lookup_lt_is_Some_2 pushed k) as [p1 H1]; [ lia | ].
    eexists. split.
    + apply (PushPX_restore_step self dt tile _ k p0 p1 H0).
      assert (Hz : length (zip_with (undo_push self dt) (take k tile)
                                    (take k pushed)) = k).
      { rewrite length_zip_with, !length_take. lia. }
      rewrite lookup_app_r by lia.
      rewrite Hz, Nat.sub_diag, lookup_drop, Nat.add_0_r. exact H1.
    + unfold Inv. apply insert_zip_with_step; assumption.
  - unfold ParallelFor. rewrite Hrun. f_equal. rewrite Hend.
    unfold numParticles. rewrite Nat.add_0_l.
    rewrite (take_ge tile), (take_ge pushed), drop_ge by lia.
    apply app_nil_r.
Qed.

(** *** [PushPX] as a whole *)

(** The [ScaleFields] object that [PushPX] hands to the base class. *)
Definition scale_fields_of (self : Container) (call : PushPXCall) : ScaleFields :=
  {| m_do_scale := negb (done_injecting_lev self);
     m_dt := dt call;
     m_z_plane_previous := zinject_plane_lev_previous self;
     m_vz_ave_boosted := vzbeam_ave_boosted self;
     m_v_boost := beta_boost * c |}.

Lemma PushPX_injecting_whole_tile (self : Container) (call : PushPXCall)
      (tile pushed : Tile) :
  done_injecting_lev self = false ->
  offset call = 0%nat ->
  PhysicalParticleContainer_PushPX call (scale_fields_of self call) tile
  = Normal pushed ->
  length pushed = length tile ->
  PushPX self call tile
  = Normal (zip_with (undo_push self (dt call)) tile pushed, saves_of tile).
Proof.
  intros Hdone Hoff Hpush Hlen. unfold PushPX.
  unfold scale_fields_of in Hpush. rewrite Hdone in *. rewrite Hoff.
  cbn [negb] in *. rewrite PushPX_save_whole_tile. cbn [bind].
  rewrite Hpush. cbn [bind].
  rewrite (PushPX_restore_whole_tile self (dt call) tile pushed Hlen).
  reflexivity.
Qed.

Lemma PushPX_done (self : Container) (call : PushPXCall) (tile : Tile) :
  done_injecting_lev self = true ->
  PushPX self call tile
  = (let* pushed :=
       PhysicalParticleContainer_PushPX call (scale_fields_of self call) tile in
     Normal (pushed, empty_saves)).
Proof.
  intros Hdone. unfold PushPX, scale_fields_of. rewrite Hdone. cbn [negb bind].
  destruct (PhysicalParticleContainer_PushPX _ _ _); reflexivity.
Qed.

(** C1 (as amended).  While the controller is injecting
    ([done_injecting_lev] is false) and the whole tile is pushed ([offset] is
    zero), [PushPX] returns, and for every slot of the tile: a particle whose
    pushed [z] is at or below [zinject_plane_lev] gets the saved momentum and
    the saved [x] and [y]; its [z] is the saved [z] plus [dt] times
    [vzbeam_ave_boosted] when [rigid_advance] is set, and otherwise the saved
    [z] plus [dt] times its own saved velocity [uz / gamma]; a particle whose
    pushed [z] is above the plane is left as the base-class push made it. *)
Theorem PushPX_injecting_per_particle (self : Container) (call : PushPXCall)
        (tile pushed : Tile) :
  done_injecting_lev self = false ->
  offset call = 0%nat ->
  PhysicalParticleContainer_PushPX call (scale_fields_of self call) tile
  = Normal pushed ->
  length pushed = length tile ->
  exists (restored : Tile) (saves : SaveBuffers),
    PushPX self call tile = Normal (restored, saves) /\
    length restored = length tile /\
    forall (i : nat) (saved p : Particle),
      tile !! i = Some saved ->
      pushed !! i = Some p ->
      exists q : Particle,
        restored !! i = Some q /\
        (part_z p <= zinject_plane_lev self ->
         momentum q = momentum saved /\
         part_x q = part_x saved /\
         part_y q = part_y saved /\
         part_z q =
           (if rigid_advance self then
              part_z saved + dt call * vzbeam_ave_boosted self
            else
              part_z saved
              + dt call * part_uz saved
                * (1 / sqrt (1 + (part_ux saved * part_ux saved
                                  + part_uy saved * part_uy saved
                                  + part_uz saved * part_uz saved)
                                 * (1 / (c * c)))))) /\
        (part_z p > zinject_plane_lev self -> q = p).
Proof.
  intros Hdone Hoff Hpush Hlen.
  exists (zip_with (undo_push self (dt call)) tile pushed), (saves_of tile).
  split; [ apply PushPX_injecting_whole_tile; assumption | ].
  split; [ rewrite length_zip_with; lia | ].
  intros i saved p Hs Hp. exists (undo_push self (dt call) saved p).
  split.
  - rewrite lookup_zip_with, Hs, Hp. reflexivity.
  - unfold undo_push.
    destruct (decide (part_z p <= zinject_plane_lev self)) as [Hle | Hgt].
    + split; [ intros _ | intros Habove; lra ].
      unfold momentum. cbn. repeat split; reflexivity.
    + split; [ intros Hle; contradiction | reflexivity ].
Qed.

(** C4.  When [done_injecting_lev] is set, [PushPX] is the push of the base
    class with [do_scale] false and nothing else: the save vectors are still
    empty when it returns and the tile is the one the base class produced
    (and if the base class aborts, so does [PushPX]). *)
Theorem PushPX_done_is_base_push (self : Container) (call : PushPXCall)
        (tile : Tile) :
  done_injecting_lev self = true ->
  m_do_scale (scale_fields_of self call) = false /\
  PushPX self call tile
  = (let* pushed :=
       PhysicalParticleContainer_PushPX call
         {| m_do_scale := false; m_dt := dt call;
            m_z_plane_previous := zinject_plane_lev_previous self;
            m_vz_ave_boosted := vzbeam_ave_boosted self;
            m_v_boost := beta_boost * c |} tile in
     Normal (pushed, empty_saves)) /\
  forall (out : Tile) (saves : SaveBuffers),
    PushPX self call tile = Normal (out, saves) ->
    saves = empty_saves /\
    PhysicalParticleContainer_PushPX call (scale_fields_of self call) tile
    = Normal out.
Proof.
  intros Hdone.
  assert (Hsf : scale_fields_of self call
                = {| m_do_scale := false; m_dt := dt call;
                     m_z_plane_previous := zinject_plane_lev_previous self;
                     m_vz_ave_boosted := vzbeam_ave_boosted self;
                     m_v_boost := beta_boost * c |}).
  { unfold scale_fields_of. rewrite Hdone. reflexivity. }
  split; [ rewrite Hsf; reflexivity | ].
  split; [ rewrite <- Hsf; apply PushPX_done; exact Hdone | ].
  intros out saves Hrun. rewrite (PushPX_done _ _ _ Hdone) in Hrun.
  destruct (PhysicalParticleContainer_PushPX call (scale_fields_of self call) tile)
    as [pushed | msg | ]; cbn [bind] in Hrun; try discriminate Hrun.
  injection Hrun as <- <-. split; reflexivity.
Qed.

(** *** [Evolve]: the injection plane and the flag *)

(** The container as [Evolve] leaves it, from the plane position [z] it found
    for the level. *)
Definition after_plane_update (self : Container) (Geom : nat -> Geometry)
           (lev : nat) (dt z : R) : Container :=
  let z' := z - dt * beta_boost * c in
  set_injection_plane self z (<[lev:=z']> (zinject_plane_levels self)) z'
    (plane_left_domain z'
       (ProbLo (Geom lev) (AMREX_SPACEDIM - 1)%nat)
       (ProbHi (Geom lev) (AMREX_SPACEDIM - 1)%nat)).

Lemma plane_left_domain_true_iff (z plo_z phi_z : R) :
  plane_left_domain z plo_z phi_z = true <->
  (z < plo_z /\ moving_window_v + beta_boost * c >= 0) \/
  (z > phi_z /\ moving_window_v + beta_boost * c <= 0).
Proof.
  unfold plane_left_domain.
  rewrite orb_true_iff, !andb_true_iff, !bool_decide_eq_true. reflexivity.
Qed.

Lemma plane_left_domain_inside (z plo_z phi_z : R) :
  plo_z <= z <= phi_z -> plane_left_domain z plo_z phi_z = false.
Proof.
  intros [Hlo Hhi]. apply not_true_is_false. intros H.
  apply plane_left_domain_true_iff in H. lra.
Qed.

Lemma Evolve_unfold (self : Container) (Geom : nat -> Geometry) (lev : nat)
      (grids : MultiFabs) (t dt : R) (a_dt_type : DtType)
      (skip_deposition : bool) (particles : Particles) (z : R) :
  zinject_plane_levels self !! lev = Some z ->
  Evolve self Geom lev grids t dt a_dt_type skip_deposition particles
  = (let* after :=
       PhysicalParticleContainer_Evolve (after_plane_update self Geom lev dt z)
         lev grids t dt a_dt_type skip_deposition particles in
     Normal (after_plane_update self Geom lev dt z, after)).
Proof.
  intros Hz. unfold Evolve, after_plane_update.
  pose proof (lookup_lt_Some _ _ _ Hz) as Hlt.
  rewrite (read_Some _ _ _ Hz). cbn [bind].
  rewrite (write_lt _ _ _ Hlt). cbn [bind].
  rewrite (read_Some _ lev (z - dt * beta_boost * c))
    by (apply list_lookup_insert_eq; exact Hlt).
  cbn [bind]. reflexivity.
Qed.

Lemma Evolve_Normal (self self' : Container) (Geom : nat -> Geometry)
      (lev : nat) (grids : MultiFabs) (t dt : R) (a_dt_type : DtType)
      (skip_deposition : bool) (particles : Particles)
      (after : Particles * MultiFabs) :
  Evolve self Geom lev grids t dt a_dt_type skip_deposition particles
  = Normal (self', after) ->
  exists z, zinject_plane_levels self !! lev = Some z /\
            self' = after_plane_update self Geom lev dt z.
Proof.
  intros Hrun. destruct (zinject_plane_levels self !! lev) as [z |] eqn:Hz.
  - exists z. split; [ reflexivity | ].
    rewrite (Evolve_unfold _ _ _ _ _ _ _ _ _ _ Hz) in Hrun.
    apply bind_Normal in Hrun. destruct Hrun as (a & _ & Heq). congruence.
  - unfold Evolve, read in Hrun. rewrite Hz in Hrun. discriminate Hrun.
Qed.

(** C2.  A call to [Evolve] for a valid level first saves the plane position
    of the level in [zinject_plane_lev_previous] and moves the plane by
    exactly [- dt * beta_boost * c] (other levels keep theirs); the flag it
    then sets is true exactly when the new position is below the lower
    [z] bound with [moving_window_v + beta_boost * c >= 0] or above the upper
    [z] bound with [moving_window_v + beta_boost * c <= 0]; in particular it
    is false as long as the plane is within the bounds.  The base class is
    then called on the container so updated. *)
Theorem Evolve_advances_plane_and_sets_flag
        (self : Container) (Geom : nat -> Geometry) (lev : nat)
        (grids : MultiFabs) (t dt : R) (a_dt_type : DtType)
        (skip_deposition : bool) (particles : Particles) (z : R) :
  zinject_plane_levels self !! lev = Some z ->
  exists self' : Container,
    Evolve self Geom lev grids t dt a_dt_type skip_deposition particles
    = (let* after :=
         PhysicalParticleContainer_Evolve self' lev grids t dt a_dt_type
                                          skip_deposition particles in
       Normal (self', after)) /\
    zinject_plane_lev_previous self' = z /\
    zinject_plane_levels self' !! lev = Some (z - dt * beta_boost * c) /\
    zinject_plane_lev self' = z - dt * beta_boost * c /\
    (forall l : nat, l <> lev ->
       zinject_plane_levels self' !! l = zinject_plane_levels self !! l) /\
    (let plo_z := ProbLo (Geom lev) (AMREX_SPACEDIM - 1)%nat in
     let phi_z := ProbHi (Geom lev) (AMREX_SPACEDIM - 1)%nat in
     let z' := z - dt * beta_boost * c in
     (done_injecting_lev self' = true <->
      (z' < plo_z /\ moving_window_v + beta_boost * c >= 0) \/
      (z' > phi_z /\ moving_window_v + beta_boost * c <= 0)) /\
     (plo_z <= z' <= phi_z -> done_injecting_lev self' = false)).
Proof.
  intros Hz. exists (after_plane_update self Geom lev dt z).
  split; [ apply Evolve_unfold; exact Hz | ].
  unfold after_plane_update, set_injection_plane.
  cbn [zinject_plane_lev_previous zinject_plane_levels zinject_plane_lev
       done_injecting_lev].
  split; [ reflexivity | ].
  split; [ apply list_lookup_insert_eq; eapply lookup_lt_Some; eauto | ].
  split; [ reflexivity | ].
  split; [ intros l Hl; apply list_lookup_insert_ne; congruence | ].
  split; [ apply plane_left_domain_true_iff | apply plane_left_domain_inside ].
Qed.

(** *** Sequences of calls to [Evolve] *)

(** From one call to the next, the bound on the side where the plane leaves
    moves away from the plane at least as far as the plane itself moves: the
    lower bound when [moving_window_v + beta_boost * c >= 0], the upper bound
    when [moving_window_v + beta_boost * c <= 0]. *)
Definition exit_side_recedes (lev : nat) (prev next : EvolveCall) : Prop :=
  let zdir := (AMREX_SPACEDIM - 1)%nat in
  (moving_window_v + beta_boost * c >= 0 ->
   ProbLo (call_Geom next lev) zdir - ProbLo (call_Geom prev lev) zdir
   >= - (call_dt next * beta_boost * c)) /\
  (moving_window_v + beta_boost * c <= 0 ->
   ProbHi (call_Geom next lev) zdir - ProbHi (call_Geom prev lev) zdir
   <= - (call_dt next * beta_boost * c)).

Fixpoint recedes_after (lev : nat) (prev : EvolveCall)
         (calls : list EvolveCall) : Prop :=
  match calls with
  | [] => True
  | next :: rest => exit_side_recedes lev prev next /\ recedes_after lev next rest
  end.

Definition recedes_throughout (lev : nat) (calls : list EvolveCall) : Prop :=
  match calls with
  | [] => True
  | first :: rest => recedes_after lev first rest
  end.

(** The flag of a container agrees with the plane of level [lev] and the
    bounds of the call that set it. *)
Definition flag_set_by (lev : nat) (call : EvolveCall) (self : Container)
  : Prop :=
  exists z : R,
    zinject_plane_levels self !! lev = Some z /\
    done_injecting_lev self
    = plane_left_domain z
        (ProbLo (call_Geom call lev) (AMREX_SPACEDIM - 1)%nat)
        (ProbHi (call_Geom call lev) (AMREX_SPACEDIM - 1)%nat).

Lemma after_plane_update_flag_set_by (self : Container) (lev : nat)
      (call : EvolveCall) (z : R) :
  zinject_plane_levels self !! lev = Some z ->
  flag_set_by lev call
    (after_plane_update self (call_Geom call) lev (call_dt call) z).
Proof.
  intros Hz. exists (z - call_dt call * beta_boost * c). split.
  - unfold after_plane_update, set_injection_plane.
    cbn [zinject_plane_levels].
    apply list_lookup_insert_eq. eapply lookup_lt_Some; eauto.
  - reflexivity.
Qed.

Lemma stays_below (z plo_z plo_z' d : R) :
  z < plo_z -> plo_z' - plo_z >= - d -> z - d < plo_z'.
Proof. intros. lra. Qed.

Lemma stays_above (z phi_z phi_z' d : R) :
  z > phi_z -> phi_z' - phi_z <= - d -> z - d > phi_z'.
Proof. intros. lra. Qed.

Lemma flag_stays_set (lev : nat) (prev next : EvolveCall) (self : Container)
      (z : R) :
  flag_set_by lev prev self ->
  done_injecting_lev self = true ->
  exit_side_recedes lev prev next ->
  zinject_plane_levels self !! lev = Some z ->
  done_injecting_lev
    (after_plane_update self (call_Geom next) lev (call_dt next) z) = true.
Proof.
  intros (z0 & Hz0 & Hflag) Hdone [Hlo Hhi] Hz.
  assert (z0 = z) as -> by congruence.
  rewrite Hdone in Hflag. symmetry in Hflag.
  apply plane_left_domain_true_iff in Hflag.
  unfold after_plane_update, set_injection_plane. cbn [done_injecting_lev].
  apply plane_left_domain_true_iff.
  destruct Hflag as [[Hbelow Hsign] | [Habove Hsign]].
  - left. specialize (Hlo Hsign).
    split; [ eapply stays_below; eassumption | exact Hsign ].
  - right. specialize (Hhi Hsign).
    split; [ eapply stays_above; eassumption | exact Hsign ].
Qed.

Lemma Evolve_calls_stay_done (lev : nat) (calls : list EvolveCall) :
  forall (prev : EvolveCall) (self : Container) (particles : Particles)
         (grids : MultiFabs) (trace : list Container),
    flag_set_by lev prev self ->
    done_injecting_lev self = true ->
    recedes_after lev prev calls ->
    Evolve_calls lev calls self particles grids = Normal trace ->
    Forall (fun self' => done_injecting_lev self' = true) trace.
Proof.
  induction calls as [| call rest IH];
    intros prev self particles grids trace Hset Hdone Hrec Hrun.
  - cbn in Hrun. injection Hrun as <-. constructor.
  - destruct Hrec as [Hstep Hrest]. cbn [Evolve_calls] in Hrun.
    apply bind_Normal in Hrun.
    destruct Hrun as ([self' [particles' grids']] & Hev & Hrun).
    apply bind_Normal in Hrun. destruct Hrun as (later & Hlater & Heq).
    injection Heq as <-.
    destruct (Evolve_Normal _ _ _ _ _ _ _ _ _ _ _ Hev) as (z & Hz & ->).
    pose proof (flag_stays_set lev prev call self z Hset Hdone Hstep Hz) as Hd.
    constructor; [ exact Hd | ].
    eapply IH; [ | exact Hd | exact Hrest | exact Hlater ].
    apply after_plane_update_flag_set_by. exact Hz.
Qed.

(** C3 (as amended).  [Evolve] computes the flag anew at every call.  In a
    sequence of calls for one level in which, from each call to the next, the
    bound on the exit side recedes from the plane ([recedes_throughout]), the
    flag, once set after some call, is set after every later call. *)
Theorem done_injecting_stays_set_while_bounds_recede
        (lev : nat) (calls : list EvolveCall) :
  forall (self : Container) (particles : Particles) (grids : MultiFabs)
         (trace : list Container),
    recedes_throughout lev calls ->
    Evolve_calls lev calls self particles grids = Normal trace ->
    forall (i j : nat) (ci cj : Container),
      (i <= j)%nat ->
      trace !! i = Some ci ->
      trace !! j = Some cj ->
      done_injecting_lev ci = true ->
      done_injecting_lev cj = true.
Proof.
  induction calls as [| call rest IH];
    intros self particles grids trace Hrec Hrun i j ci cj Hij Hi Hj Hdone.
  - cbn in Hrun. injection Hrun as <-. rewrite lookup_nil in Hi. discriminate Hi.
  - cbn [Evolve_calls] in Hrun. apply bind_Normal in Hrun.
    destruct Hrun as ([self' [particles' grids']] & Hev & Hrun).
    apply bind_Normal in Hrun. destruct Hrun as (later & Hlater & Heq).
    injection Heq as <-.
    destruct i as [| i].
    + cbn in Hi. injection Hi as <-.
      destruct j as [| j]; [ cbn in Hj; congruence | ]. cbn in Hj.
      destruct (Evolve_Normal _ _ _ _ _ _ _ _ _ _ _ Hev) as (z & Hz & ->).
      pose proof (Evolve_calls_stay_done lev rest call _ particles' grids' later
                    (after_plane_update_flag_set_by self lev call z Hz)
                    Hdone Hrec Hlater) as Hall.
      rewrite Forall_lookup in Hall. exact (Hall j cj Hj).
    + destruct j as [| j]; [ lia | ]. cbn in Hi, Hj.
      assert (Hrec' : recedes_throughout lev rest).
      { destruct rest as [| next rest']; [ exact I | ].
        destruct Hrec as [_ Hr]. exact Hr. }
      apply (IH self' particles' grids' later Hrec' Hlater i j ci cj);
        [ lia | exact Hi | exact Hj | exact Hdone ].
Qed.

(** *** [PushP]: the momentum kernel *)

Definition with_momentum (p : Particle) (u : Real3) : Particle :=
  let '(u1, u2, u3) := u in with_uz (with_uy (with_ux p u1) u2) u3.

(** The pusher configuration is one of the four the kernel knows. *)
Definition known_pusher (self : Container) : Prop :=
  do_classical_radiation_reaction self = true
  \/ particle_pusher_algo = Boris
  \/ particle_pusher_algo = Vay
  \/ particle_pusher_algo = HigueraCary.

(** The pusher that the branch of the kernel selects. *)
Definition selected_pusher (self : Container)
  : Real3 -> Real3 -> Real3 -> R -> R -> R -> Real3 :=
  if do_classical_radiation_reaction self then
    UpdateMomentumBorisWithRadiationReaction
  else if (particle_pusher_algo =? Boris)%Z then UpdateMomentumBoris
  else if (particle_pusher_algo =? Vay)%Z then UpdateMomentumVay
  else UpdateMomentumHigueraCary.

(** Field and charge that the kernel hands to the pusher for particle [ip]. *)
Definition fields_at (fields : MultiFabs) (lev ti : nat) (tile0 : Tile)
           (ip : nat) (p : Particle) : Real3 * Real3 :=
  let '(Ep, Bp) :=
    doGatherShapeN fields lev ti (position p) ((0, 0, 0), (0, 0, 0)) in
  (getExternalE tile0 ip Ep, getExternalB tile0 ip Bp).

Definition charge_of (self : Container) (p : Particle) : R :=
  if do_field_ionization self then charge self * IZR (part_ion_lev p)
  else charge self.

(** Particle [ip] after the first kernel, for a known pusher. *)
Definition kicked (self : Container) (fields : MultiFabs) (lev ti : nat)
           (dt : R) (tile0 : Tile) (ip : nat) (p : Particle) : Particle :=
  let '(Ep, Bp) := fields_at fields lev ti tile0 ip p in
  with_momentum p
    (selected_pusher self (momentum p) Ep Bp (charge_of self p) (mass self) dt).

(** Particle [ip] after both kernels. *)
Definition pushed_or_kept (self : Container) (fields : MultiFabs)
           (lev ti : nat) (dt zz : R) (tile0 : Tile) (ip : nat)
           (p : Particle) : Particle :=
  if decide (part_z p <= zz) then p
  else kicked self fields lev ti dt tile0 ip p.

Lemma UpdateMomentum_known (self : Container) (u E B : Real3) (qp m dt : R) :
  known_pusher self ->
  UpdateMomentum (do_classical_radiation_reaction self) particle_pusher_algo
                 u E B qp m dt
  = Normal (selected_pusher self u E B qp m dt).
Proof.
  intros Hk. unfold UpdateMomentum, selected_pusher.
  destruct (do_classical_radiation_reaction self) eqn:Hcrr; [ reflexivity | ].
  destruct (Z.eqb_spec particle_pusher_algo Boris); [ reflexivity | ].
  destruct (Z.eqb_spec particle_pusher_algo Vay); [ reflexivity | ].
  destruct (Z.eqb_spec particle_pusher_algo HigueraCary); [ reflexivity | ].
  destruct Hk as [Hk | [Hk | [Hk | Hk]]];
    [ rewrite Hk in Hcrr; discriminate Hcrr | contradiction .. ].
Qed.

Lemma UpdateMomentum_unknown (self : Container) (u E B : Real3) (qp m dt : R) :
  ~ known_pusher self ->
  UpdateMomentum (do_classical_radiation_reaction self) particle_pusher_algo
                 u E B qp m dt
  = Aborted "Unknown particle pusher".
Proof.
  intros Hk. unfold UpdateMomentum, known_pusher in *.
  destruct (do_classical_radiation_reaction self) eqn:Hcrr;
    [ exfalso; apply Hk; left; reflexivity | ].
  destruct (Z.eqb_spec particle_pusher_algo Boris) as [HB | _];
    [ exfalso; apply Hk; right; left; exact HB | ].
  destruct (Z.eqb_spec particle_pusher_algo Vay) as [HV | _];
    [ exfalso; apply Hk; right; right; left; exact HV | ].
  destruct (Z.eqb_spec particle_pusher_algo HigueraCary) as [HH | _];
    [ exfalso; apply Hk; right; right; right; exact HH | ].
  reflexivity.
Qed.

(** The momentum saves of [PushP] after the first [k] iterations. *)
Definition momentum_saves (k : nat) (tile : Tile) : MomentumSaves :=
  {| ux_save := filled part_ux k tile;
     uy_save := filled part_uy k tile;
     uz_save := filled part_uz k tile |}.

(** One iteration of the first kernel, up to the branch on the pusher. *)
Lemma PushP_push_step (self : Container) (fields : MultiFabs) (lev ti : nat)
      (dt : R) (tile0 tile t : Tile) (k : nat) (p : Particle) :
  tile !! k = Some p ->
  t !! k = Some p ->
  PushP_push self fields lev ti dt tile0 k (t, momentum_saves k tile)
  = (let '(Ep, Bp) := fields_at fields lev ti tile0 k p in
     let* u :=
       UpdateMomentum (do_classical_radiation_reaction self)
                      particle_pusher_algo (momentum p) Ep Bp
                      (charge_of self p) (mass self) dt in
     Normal (<[k:=with_momentum p u]> t,
             momentum_saves (Datatypes.S k) tile)).
Proof.
  intros Htile Ht. unfold PushP_push, momentum_saves, fields_at, charge_of.
  cbn [ux_save uy_save uz_save].
  rewrite (get_ux_Some _ _ _ Ht), (get_uy_Some _ _ _ Ht),
    (get_uz_Some _ _ _ Ht). cbn [bind].
  rewrite !(write_filled _ _ _ _ Htile). cbn [bind].
  rewrite (GetPosition_Some _ _ _ Ht). cbn [bind].
  destruct (doGatherShapeN fields lev ti (position p) (0, 0, 0, (0, 0, 0)))
    as [Ep Bp].
  rewrite (read_Some _ _ _ Ht).
  replace (if do_field_ionization self
           then let* p0 := Normal p in Normal (charge self * IZR (part_ion_lev p0))
           else Normal (charge self))
    with (Normal (if do_field_ionization self
                  then charge self * IZR (part_ion_lev p) else charge self))
    by (destruct (do_field_ionization self); reflexivity).
  cbn [bind]. unfold momentum.
  destruct (UpdateMomentum _ _ _ _ _ _ _ _) as [[[u1 u2] u3] | msg | ];
    cbn [bind]; try reflexivity.
  rewrite (set_ux_Some _ _ _ _ Ht). cbn [bind].
  pose proof (lookup_insert_same t k p (with_ux p u1) Ht) as H2.
  rewrite (set_uy_Some _ _ _ _ H2). cbn [bind].
  pose proof (lookup_insert_same _ k _ (with_uy (with_ux p u1) u2) H2) as H3.
  rewrite (set_uz_Some _ _ _ _ H3). cbn [bind].
  rewrite !list_insert_insert_eq. reflexivity.
Qed.

Lemma insert_imap_step (h : nat -> Particle -> Particle) (tile rest : Tile)
      (k : nat) (p x : Particle) :
  tile !! k = Some p ->
  rest !! k = Some x ->
  <[k:=h k p]> (imap h (take k tile) ++ drop k rest)
  = imap h (take (Datatypes.S k) tile) ++ drop (Datatypes.S k) rest.
Proof.
  intros Hp Hx. pose proof (lookup_lt_Some _ _ _ Hp) as Hlt.
  assert (Hlen : length (imap h (take k tile)) = k).
  { rewrite length_imap, length_take. lia. }
  rewrite insert_app_r_alt by lia. rewrite Hlen, Nat.sub_diag.
  rewrite (drop_S _ _ _ Hx). cbn [insert list_insert].
  rewrite (take_S_r _ _ _ Hp), imap_app. cbn [imap].
  rewrite length_take. replace (k `min` length tile + 0)%nat with k by lia.
  rewrite <- app_assoc. reflexivity.
Qed.

Lemma lookup_done_todo (h : nat -> Particle -> Particle) (tile rest : Tile)
      (k : nat) :
  (k <= length tile)%nat ->
  (imap h (take k tile) ++ drop k rest) !! k = rest !! k.
Proof.
  intros Hk.
  assert (Hlen : length (imap h (take k tile)) = k).
  { rewrite length_imap, length_take. lia. }
  rewrite lookup_app_r by lia.
  rewrite Hlen, Nat.sub_diag, lookup_drop, Nat.add_0_r. reflexivity.
Qed.

Lemma PushP_push_loop (self : Container) (fields : MultiFabs) (lev ti : nat)
      (dt : R) (tile : Tile) :
  known_pusher self ->
  ParallelFor (numParticles tile) (PushP_push self fields lev ti dt tile)
              (tile, momentum_saves 0 tile)
  = Normal (imap (kicked self fields lev ti dt tile) tile,
            momentum_saves (numParticles tile) tile).
Proof.
  intros Hknown.
  pose (Inv := fun (k : nat) (st : Tile * MomentumSaves) =>
                 st = (imap (kicked self fields lev ti dt tile) (take k tile)
                       ++ drop k tile,
                       momentum_saves k tile)).
  destruct (ParallelFor_from_inv Inv (PushP_push self fields lev ti dt tile)
                                 (numParticles tile) 0
                                 (tile, momentum_saves 0 tile))
    as (st & Hrun & Hend).
  - unfold Inv. rewrite take_0, drop_0. reflexivity.
  - intros k st0 Hk ->. unfold numParticles in Hk.
    destruct (lookup_lt_is_Some_2 tile k) as [p Hp]; [ lia | ].
    exists (<[k:=kicked self fields lev ti dt tile k p]>
              (imap (kicked self fields lev ti dt tile) (take k tile)
               ++ drop k tile),
            momentum_saves (Datatypes.S k) tile).
    split.
    + rewrite (PushP_push_step self fields lev ti dt tile tile _ k p Hp)
        by (rewrite lookup_done_todo by lia; exact Hp).
      unfold kicked.
      destruct (fields_at fields lev ti tile k p) as [Ep Bp].
      rewrite (UpdateMomentum_known self _ _ _ _ _ _ Hknown). cbn [bind].
      reflexivity.
    + unfold Inv. f_equal. apply (insert_imap_step _ tile tile k p p Hp Hp).
  - unfold ParallelFor. rewrite Hrun. f_equal. rewrite Hend.
    unfold numParticles. rewrite Nat.add_0_l.
    rewrite take_ge, drop_ge by lia. rewrite app_nil_r. reflexivity.
Qed.

Lemma with_momentum_restored (p : Particle) (u : Real3) :
  with_uz (with_uy (with_ux (with_momentum p u) (part_ux p)) (part_uy p))
          (part_uz p) = p.
Proof. destruct p, u as [[u1 u2] u3]. reflexivity. Qed.

Lemma position_kicked (self : Container) (fields : MultiFabs) (lev ti : nat)
      (dt : R) (tile0 : Tile) (ip : nat) (p : Particle) :
  position (kicked self fields lev ti dt tile0 ip p) = position p.
Proof.
  unfold kicked. destruct (fields_at fields lev ti tile0 ip p) as [Ep Bp].
  destruct (selected_pusher self _ _ _ _ _ _) as [[u1 u2] u3]. reflexivity.
Qed.

Lemma PushP_restore_step (self : Container) (fields : MultiFabs)
      (lev ti : nat) (dt zz : R) (tile t : Tile) (k : nat) (p : Particle) :
  tile !! k = Some p ->
  t !! k = Some (kicked self fields lev ti dt tile k p) ->
  PushP_restore zz (momentum_saves (numParticles tile) tile) k t
  = Normal (<[k:=pushed_or_kept self fields lev ti dt zz tile k p]> t).
Proof.
  intros Hp Ht. unfold PushP_restore, pushed_or_kept, momentum_saves.
  unfold numParticles. rewrite !filled_all. cbn [ux_save uy_save uz_save].
  rewrite (GetPosition_Some _ _ _ Ht), position_kicked. kernel_step.
  destruct (decide (part_z p <= zz)) as [Hle | Hgt].
  - assert (Hs : forall f : Particle -> R, read (f <$> tile) k = Normal (f p)).
    { intros f. apply read_Some. rewrite list_lookup_fmap, Hp. reflexivity. }
    rewrite !Hs. kernel_step.
    rewrite (set_ux_Some _ _ _ _ Ht). kernel_step.
    pose proof (lookup_insert_same t k _
                  (with_ux (kicked self fields lev ti dt tile k p) (part_ux p))
                  Ht) as H2.
    rewrite (set_uy_Some _ _ _ _ H2). kernel_step.
    pose proof (lookup_insert_same _ k _
                  (with_uy (with_ux (kicked self fields lev ti dt tile k p)
                                    (part_ux p)) (part_uy p)) H2) as H3.
    rewrite (set_uz_Some _ _ _ _ H3).
    rewrite !list_insert_insert_eq. do 2 f_equal.
    unfold kicked. destruct (fields_at fields lev ti tile k p) as [Ep Bp].
    apply with_momentum_restored.
  - rewrite (list_insert_id _ _ _ Ht). reflexivity.
Qed.

Lemma PushP_restore_loop (self : Container) (fields : MultiFabs)
      (lev ti : nat) (dt zz : R) (tile : Tile) :
  ParallelFor (numParticles (imap (kicked self fields lev ti dt tile) tile))
              (PushP_restore zz (momentum_saves (numParticles tile) tile))
              (imap (kicked self fields lev ti dt tile) tile)
  = Normal (imap (pushed_or_kept self fields lev ti dt zz tile) tile).
Proof.
  set (pushed := imap (kicked self fields lev ti dt tile) tile).
  assert (Hlen : length pushed = length tile) by apply length_imap.
  pose (Inv := fun (k : nat) (t : Tile) =>
                 t = imap (pushed_or_kept self fields lev ti dt zz tile)
                          (take k tile) ++ drop k pushed).
  destruct (ParallelFor_from_inv Inv
              (PushP_restore zz (momentum_saves (numParticles tile) tile))
              (numParticles pushed) 0 pushed) as (t & Hrun & Hend).
  - unfold Inv. rewrite take_0, drop_0. reflexivity.
  - intros k t0 Hk ->. unfold numParticles in Hk.
    destruct (lookup_lt_is_Some_2 tile k) as [p Hp]; [ lia | ].
    assert (Hpushed : pushed !! k
                      = Some (kicked self fields lev ti dt tile k p)).
    { unfold pushed. rewrite list_lookup_imap, Hp. reflexivity. }
    eexists. split.
    + apply (PushP_restore_step self fields lev ti dt zz tile _ k p Hp).
      rewrite lookup_done_todo by lia. exact Hpushed.
    + unfold Inv. apply (insert_imap_step _ tile pushed k p _ Hp Hpushed).
  - unfold ParallelFor. rewrite Hrun. f_equal. rewrite Hend.
    unfold numParticles. rewrite Nat.add_0_l.
    rewrite take_ge, drop_ge by lia. apply app_nil_r.
Qed.

(** *** [PushP]: tiles and levels *)

Lemma known_pusher_dec (self : Container) :
  {known_pusher self} + {~ known_pusher self}.
Proof.
  unfold known_pusher.
  destruct (do_classical_radiation_reaction self);
    [ left; left; reflexivity | ].
  destruct (Z.eq_dec particle_pusher_algo Boris) as [HB | HB];
    [ left; right; left; exact HB | ].
  destruct (Z.eq_dec particle_pusher_algo Vay) as [HV | HV];
    [ left; right; right; left; exact HV | ].
  destruct (Z.eq_dec particle_pusher_algo HigueraCary) as [HH | HH];
    [ left; right; right; right; exact HH | ].
  right. intros [H | [H | [H | H]]];
    [ discriminate H | contradiction .. ].
Qed.

Lemma initial_momentum_saves (tile : Tile) :
  {| ux_save := resize (numParticles tile);
     uy_save := resize (numParticles tile);
     uz_save := resize (numParticles tile) |} = momentum_saves 0 tile.
Proof. unfold momentum_saves, numParticles. rewrite !filled_0. reflexivity. Qed.

Lemma PushP_tile_known (self : Container) (fields : MultiFabs) (lev : nat)
      (dt : R) (ti : nat) (tile : Tile) :
  known_pusher self ->
  PushP_tile self fields lev dt ti tile
  = (let* zz := read (zinject_plane_levels self) lev in
     Normal (imap (pushed_or_kept self fields lev ti dt zz tile) tile)).
Proof.
  intros Hknown. unfold PushP_tile. rewrite initial_momentum_saves.
  rewrite (PushP_push_loop self fields lev ti dt tile Hknown). cbn [bind].
  destruct (read (zinject_plane_levels self) lev) as [zz | msg | ];
    cbn [bind]; try reflexivity.
  apply PushP_restore_loop.
Qed.

(** With a pusher the kernel does not know, the first particle of a tile
    already ends the process. *)
Lemma PushP_tile_unknown (self : Container) (fields : MultiFabs) (lev : nat)
      (dt : R) (ti : nat) (p : Particle) (rest : Tile) :
  ~ known_pusher self ->
  PushP_tile self fields lev dt ti (p :: rest)
  = Aborted "Unknown particle pusher".
Proof.
  intros Hunknown. unfold PushP_tile. rewrite initial_momentum_saves.
  unfold ParallelFor, numParticles. cbn [length ParallelFor_from].
  rewrite (PushP_push_step self fields lev ti dt (p :: rest) (p :: rest)
                           (p :: rest) 0 p eq_refl eq_refl).
  destruct (fields_at fields lev ti (p :: rest) 0 p) as [Ep Bp].
  rewrite (UpdateMomentum_unknown self _ _ _ _ _ _ Hunknown). reflexivity.
Qed.

Lemma position_pushed_or_kept (self : Container) (fields : MultiFabs)
      (lev ti : nat) (dt zz : R) (tile0 : Tile) (ip : nat) (p : Particle) :
  position (pushed_or_kept self fields lev ti dt zz tile0 ip p) = position p.
Proof.
  unfold pushed_or_kept. destruct (decide (part_z p <= zz)); [ reflexivity | ].
  apply position_kicked.
Qed.

Lemma PushP_tile_positions (self : Container) (fields : MultiFabs) (lev : nat)
      (dt : R) (ti : nat) (tile tile' : Tile) :
  PushP_tile self fields lev dt ti tile = Normal tile' ->
  position <$> tile' = position <$> tile.
Proof.
  intros Hrun. destruct (known_pusher_dec self) as [Hknown | Hunknown].
  - rewrite (PushP_tile_known _ _ _ _ _ _ Hknown) in Hrun.
    apply bind_Normal in Hrun. destruct Hrun as (zz & _ & Heq).
    injection Heq as <-. apply list_eq. intros i.
    rewrite !list_lookup_fmap, list_lookup_imap.
    destruct (tile !! i) as [p |]; [ | reflexivity ]. cbn.
    rewrite position_pushed_or_kept. reflexivity.
  - destruct tile as [| p rest].
    + unfold PushP_tile, ParallelFor, numParticles in Hrun.
      cbn [length ParallelFor_from bind] in Hrun.
      apply bind_Normal in Hrun. destruct Hrun as (zz & _ & Heq).
      cbn in Heq. injection Heq as <-. reflexivity.
    + rewrite (PushP_tile_unknown _ _ _ _ _ _ _ Hunknown) in Hrun.
      discriminate Hrun.
Qed.

Lemma for_each_tile_Forall2 (P : Tile -> Tile -> Prop)
      (body : nat -> Tile -> outcome Tile) :
  (forall ti tile tile', body ti tile = Normal tile' -> P tile tile') ->
  forall (tiles tiles' : list Tile) (ti : nat),
    for_each_tile body ti tiles = Normal tiles' -> Forall2 P tiles tiles'.
Proof.
  intros Hbody. induction tiles as [| tile rest IH]; intros tiles' ti Hrun.
  - cbn in Hrun. injection Hrun as <-. constructor.
  - cbn [for_each_tile] in Hrun. apply bind_Normal in Hrun.
    destruct Hrun as (tile' & Hb & Hrun). apply bind_Normal in Hrun.
    destruct Hrun as (rest' & Hr & Heq). injection Heq as <-.
    constructor; [ eapply Hbody; eauto | eapply IH; eauto ].
Qed.

Lemma for_each_tile_id (body : nat -> Tile -> outcome Tile) :
  (forall ti tile, body ti tile = Normal tile) ->
  forall (tiles : list Tile) (ti : nat),
    for_each_tile body ti tiles = Normal tiles.
Proof.
  intros Hbody. induction tiles as [| tile rest IH]; intros ti.
  - reflexivity.
  - cbn [for_each_tile]. rewrite Hbody. cbn [bind]. rewrite IH. reflexivity.
Qed.

(** All positions of a container, level by level and tile by tile. *)
Definition tile_positions (tile : Tile) : list Real3 := position <$> tile.

Definition positions (particles : Particles) : list (list (list Real3)) :=
  (fun tiles : list Tile => tile_positions <$> tiles) <$> particles.

Lemma PushP_positions (self : Container) (lev : nat) (dt : R)
      (fields : MultiFabs) (particles particles' : Particles) :
  PushP self lev dt fields particles = Normal particles' ->
  positions particles' = positions particles.
Proof.
  unfold PushP. destruct (do_not_push self).
  - intros Heq. injection Heq as <-. reflexivity.
  - intros Hrun. apply bind_Normal in Hrun.
    destruct Hrun as (tiles & Hread & Hrun). apply bind_Normal in Hrun.
    destruct Hrun as (tiles' & Hloop & Hwrite).
    apply read_Normal in Hread. apply write_Normal in Hwrite.
    destruct Hwrite as [_ ->]. unfold positions.
    rewrite list_fmap_insert.
    apply list_insert_id. rewrite list_lookup_fmap, Hread. cbn [fmap option_fmap option_map]. f_equal.
    pose proof (for_each_tile_Forall2
                  (fun t t' => tile_positions t' = tile_positions t) _
                  (PushP_tile_positions self fields lev dt)
                  tiles tiles' 0%nat Hloop) as Hall.
    clear Hloop Hread. induction Hall as [| t t' ts ts' Ht _ IH].
    + reflexivity.
    + rewrite !fmap_cons, Ht, IH. reflexivity.
Qed.

Lemma for_each_tile_imap (body : nat -> Tile -> outcome Tile)
      (F : nat -> Tile -> Tile) :
  (forall ti tile, body ti tile = Normal (F ti tile)) ->
  forall (tiles : list Tile) (ti : nat),
    for_each_tile body ti tiles
    = Normal (imap (fun j => F (ti + j)%nat) tiles).
Proof.
  intros Hbody. induction tiles as [| tile rest IH]; intros ti.
  - reflexivity.
  - cbn [for_each_tile imap]. rewrite Hbody. cbn [bind]. rewrite IH.
    cbn [bind]. rewrite Nat.add_0_r. do 2 f_equal.
    apply imap_ext. intros j t _. cbn. f_equal. lia.
Qed.

(** [PushP] as a whole, for a known pusher. *)
Lemma PushP_known (self : Container) (lev : nat) (dt : R) (fields : MultiFabs)
      (particles : Particles) (tiles : list Tile) (zz : R) :
  known_pusher self ->
  do_not_push self = false ->
  particles !! lev = Some tiles ->
  zinject_plane_levels self !! lev = Some zz ->
  PushP self lev dt fields particles
  = Normal (<[lev:=imap (fun ti tile =>
                           imap (pushed_or_kept self fields lev ti dt zz tile)
                                tile) tiles]> particles).
Proof.
  intros Hknown Hpush Htiles Hzz. unfold PushP. rewrite Hpush.
  rewrite (read_Some _ _ _ Htiles). cbn [bind].
  rewrite (for_each_tile_imap _
             (fun ti tile =>
                imap (pushed_or_kept self fields lev ti dt zz tile) tile)).
  - cbn [bind]. apply write_lt. eapply lookup_lt_Some; eauto.
  - intros ti tile. rewrite (PushP_tile_known _ _ _ _ _ _ Hknown).
    rewrite (read_Some _ _ _ Hzz). reflexivity.
Qed.

Lemma PushP_tile_keeps_behind_plane (self : Container) (fields : MultiFabs)
      (lev : nat) (dt : R) (ti : nat) (tile tile' : Tile) (zz : R) :
  PushP_tile self fields lev dt ti tile = Normal tile' ->
  zinject_plane_levels self !! lev = Some zz ->
  forall (i : nat) (p : Particle),
    tile !! i = Some p -> part_z p <= zz -> tile' !! i = Some p.
Proof.
  intros Hrun Hzz i p Hp Hle.
  destruct (known_pusher_dec self) as [Hknown | Hunknown].
  - rewrite (PushP_tile_known _ _ _ _ _ _ Hknown) in Hrun.
    rewrite (read_Some _ _ _ Hzz) in Hrun. cbn [bind] in Hrun.
    injection Hrun as <-. rewrite list_lookup_imap, Hp. cbn.
    unfold pushed_or_kept.
    destruct (decide (part_z p <= zz)); [ reflexivity | contradiction ].
  - destruct tile as [| p0 rest]; [ rewrite lookup_nil in Hp; discriminate Hp | ].
    rewrite (PushP_tile_unknown _ _ _ _ _ _ _ Hunknown) in Hrun.
    discriminate Hrun.
Qed.

(** C9.  [PushP] writes momenta only.  Whenever it returns, every position
    of every particle of every tile of every level is what it was before the
    call; and a particle at or below the injection plane of the level comes
    out of the tile loop exactly as it went in, momentum included. *)
Theorem PushP_never_moves_a_particle
        (self : Container) (lev : nat) (dt : R) (fields : MultiFabs) :
  (forall particles particles' : Particles,
     PushP self lev dt fields particles = Normal particles' ->
     positions particles' = positions particles) /\
  (forall (ti : nat) (tile tile' : Tile) (zz : R),
     PushP_tile self fields lev dt ti tile = Normal tile' ->
     zinject_plane_levels self !! lev = Some zz ->
     tile_positions tile' = tile_positions tile /\
     forall (i : nat) (p : Particle),
       tile !! i = Some p -> part_z p <= zz -> tile' !! i = Some p).
Proof.
  split.
  - intros particles particles'. apply PushP_positions.
  - intros ti tile tile' zz Hrun Hzz. split.
    + eapply PushP_tile_positions; eauto.
    + eapply PushP_tile_keeps_behind_plane; eauto.
Qed.

(** *** A push with [dt = 0] *)

(** Modelled from the spec: the momentum pushers [UpdateMomentumBoris],
    [UpdateMomentumVay], [UpdateMomentumHigueraCary] and
    [UpdateMomentumBorisWithRadiationReaction] of [Particles/Pusher/] are
    not among the sources.  The specification asks that "invoking the push
    with dt = 0 must leave all particle momenta and positions unchanged"; a
    pusher has only the momentum to change. *)
Definition pusher_identity_at_zero_dt
           (update : Real3 -> Real3 -> Real3 -> R -> R -> R -> Real3) : Prop :=
  forall (u E B : Real3) (q m : R), update u E B q m 0 = u.

(** Modelled from the spec: [PhysicalParticleContainer::PushPX] is not among
    the sources either; the same sentence of the specification, for the push
    of a tile by the base class. *)
Definition base_push_identity_at_zero_dt : Prop :=
  forall (call : PushPXCall) (sf : ScaleFields) (tile : Tile),
    dt call = 0 ->
    PhysicalParticleContainer_PushPX call sf tile = Normal tile.

Lemma with_momentum_id (p : Particle) : with_momentum p (momentum p) = p.
Proof. destruct p. reflexivity. Qed.

Lemma undo_push_zero_dt (self : Container) (p : Particle) :
  undo_push self 0 p p = p.
Proof.
  unfold undo_push.
  destruct (decide (part_z p <= zinject_plane_lev self)); [ | reflexivity ].
  destruct p as [x y z ux uy uz ion]. cbn.
  destruct (rigid_advance self); f_equal; ring.
Qed.

Lemma zip_with_diag_id (g : Particle -> Particle -> Particle) (tile : Tile) :
  (forall p, g p p = p) -> zip_with g tile tile = tile.
Proof.
  intros Hg. induction tile as [| p rest IH]; [ reflexivity | ].
  cbn. rewrite Hg, IH. reflexivity.
Qed.

Lemma imap_id (h : nat -> Particle -> Particle) (tile : Tile) :
  (forall i p, h i p = p) -> imap h tile = tile.
Proof.
  intros Hh. apply list_eq. intros i. rewrite list_lookup_imap.
  destruct (tile !! i) as [p |]; [ cbn; rewrite Hh | ]; reflexivity.
Qed.

Section ZeroTimeStep.

Hypothesis Boris_zero : pusher_identity_at_zero_dt UpdateMomentumBoris.
Hypothesis Vay_zero : pusher_identity_at_zero_dt UpdateMomentumVay.
Hypothesis HigueraCary_zero :
  pusher_identity_at_zero_dt UpdateMomentumHigueraCary.
Hypothesis BorisWithRadiationReaction_zero :
  pusher_identity_at_zero_dt UpdateMomentumBorisWithRadiationReaction.
Hypothesis base_push_zero : base_push_identity_at_zero_dt.

Lemma kicked_zero_dt (self : Container) (fields : MultiFabs) (lev ti : nat)
      (tile0 : Tile) (ip : nat) (p : Particle) :
  kicked self fields lev ti 0 tile0 ip p = p.
Proof using Boris_zero Vay_zero HigueraCary_zero
            BorisWithRadiationReaction_zero.
  unfold kicked. destruct (fields_at fields lev ti tile0 ip p) as [Ep Bp].
  assert (Hsel : selected_pusher self (momentum p) Ep Bp (charge_of self p)
                                 (mass self) 0 = momentum p).
  { unfold selected_pusher.
    destruct (do_classical_radiation_reaction self);
      [ apply BorisWithRadiationReaction_zero | ].
    destruct (particle_pusher_algo =? Boris)%Z; [ apply Boris_zero | ].
    destruct (particle_pusher_algo =? Vay)%Z; [ apply Vay_zero | ].
    apply HigueraCary_zero. }
  rewrite Hsel. apply with_momentum_id.
Qed.

Lemma PushPX_zero_dt (self : Container) (call : PushPXCall) (tile : Tile) :
  dt call = 0 ->
  done_injecting_lev self = true \/ offset call = 0%nat ->
  exists saves : SaveBuffers, PushPX self call tile = Normal (tile, saves).
Proof using base_push_zero.
  intros Hdt Hcase.
  pose proof (base_push_zero call (scale_fields_of self call) tile Hdt) as Hb.
  destruct (done_injecting_lev self) eqn:Hdone.
  - exists empty_saves. rewrite (PushPX_done _ _ _ Hdone), Hb. reflexivity.
  - destruct Hcase as [Hcase | Hoff]; [ discriminate Hcase | ].
    exists (saves_of tile).
    rewrite (PushPX_injecting_whole_tile self call tile tile Hdone Hoff Hb eq_refl).
    rewrite Hdt, zip_with_diag_id; [ reflexivity | ].
    apply undo_push_zero_dt.
Qed.

Lemma PushP_zero_dt (self : Container) (lev : nat) (fields : MultiFabs)
      (particles : Particles) :
  known_pusher self ->
  is_Some (particles !! lev) ->
  is_Some (zinject_plane_levels self !! lev) ->
  PushP self lev 0 fields particles = Normal particles.
Proof using Boris_zero Vay_zero HigueraCary_zero
            BorisWithRadiationReaction_zero.
  intros Hknown [tiles Htiles] [zz Hzz]. unfold PushP.
  destruct (do_not_push self); [ reflexivity | ].
  rewrite (read_Some _ _ _ Htiles). cbn [bind].
  rewrite for_each_tile_id.
  - cbn [bind]. rewrite write_lt by (eapply lookup_lt_Some; eauto).
    rewrite (list_insert_id _ _ _ Htiles). reflexivity.
  - intros ti tile. rewrite (PushP_tile_known _ _ _ _ _ _ Hknown).
    rewrite (read_Some _ _ _ Hzz). cbn [bind]. f_equal.
    apply imap_id. intros i p. unfold pushed_or_kept.
    destruct (decide (part_z p <= zz)); [ reflexivity | ].
    apply kicked_zero_dt.
Qed.

End ZeroTimeStep.

(** The zero time step where the indices stay in range.  Provided each of
    the four momentum pushers and the push of the base class leave their
    argument unchanged at [dt = 0], so do the two pushes of this container:
    [PushPX] with [dt = 0] returns the tile it was given (in the done state,
    and while injecting when the whole tile is pushed), the [dt] factors of
    the restore kernel cancelling both the rigid and the ballistic advance of
    [z]; and [PushP] with [dt = 0] returns the particles it was given, for
    every known pusher configuration.  A push of a part of a tile while
    injecting is not covered: see
    [PushPX_zero_dt_on_part_of_tile_overruns_saves]. *)
Theorem push_with_zero_dt_changes_nothing :
  pusher_identity_at_zero_dt UpdateMomentumBoris ->
  pusher_identity_at_zero_dt UpdateMomentumVay ->
  pusher_identity_at_zero_dt UpdateMomentumHigueraCary ->
  pusher_identity_at_zero_dt UpdateMomentumBorisWithRadiationReaction ->
  base_push_identity_at_zero_dt ->
  (forall (self : Container) (call : PushPXCall) (tile : Tile),
     dt call = 0 ->
     done_injecting_lev self = true \/ offset call = 0%nat ->
     exists saves : SaveBuffers, PushPX self call tile = Normal (tile, saves)) /\
  (forall (self : Container) (lev : nat) (fields : MultiFabs)
          (particles : Particles),
     known_pusher self ->
     is_Some (particles !! lev) ->
     is_Some (zinject_plane_levels self !! lev) ->
     PushP self lev 0 fields particles = Normal particles).
Proof.
  intros HB HV HH HR Hbase. split.
  - intros self call tile. apply PushPX_zero_dt. exact Hbase.
  - intros self lev fields particles. apply PushP_zero_dt; assumption.
Qed.

(** C6 (as amended).  A pusher configuration that is none of Boris with
    radiation reaction, Boris, Vay and Higuera-Cary is fatal at its first
    use: the per-particle momentum update aborts, and so does [PushP] on any
    tile that holds a particle.  An unspecified species is not fatal:
    [get_charge] and [get_mass] return a quiet NaN for it, and they return
    normally for every species. *)
Theorem unknown_pusher_is_fatal_unspecified_species_is_not :
  (forall (self : Container) (u E B : Real3) (qp m dt : R),
     ~ known_pusher self ->
     UpdateMomentum (do_classical_radiation_reaction self)
                    particle_pusher_algo u E B qp m dt
     = Aborted "Unknown particle pusher") /\
  (forall (self : Container) (fields : MultiFabs) (lev : nat) (dt : R)
          (ti : nat) (p : Particle) (rest : Tile),
     ~ known_pusher self ->
     PushP_tile self fields lev dt ti (p :: rest)
     = Aborted "Unknown particle pusher") /\
  (forall q_e m_e m_p : R,
     species.get_charge q_e species.unspecified = Normal species.quiet_NaN /\
     species.get_mass m_e m_p species.unspecified = Normal species.quiet_NaN) /\
  (forall (q_e m_e m_p : R) (ps : species.PhysicalSpecies),
     exists v w : species.RealValue,
       species.get_charge q_e ps = Normal v /\
       species.get_mass m_e m_p ps = Normal w).
Proof.
  split; [ intros; apply UpdateMomentum_unknown; assumption | ].
  split; [ intros; apply PushP_tile_unknown; assumption | ].
  split; [ intros; split; reflexivity | ].
  intros q_e m_e m_p ps. destruct ps; eexists; eexists; split; reflexivity.
Qed.

(** *** [PushPX] with an offset: the save vectors *)

(** A loop whose iteration [k] fails returns that failure, when the
    iterations before it return and keep an invariant. *)
Lemma ParallelFor_from_stops {S : Type} (Inv : nat -> S -> Prop)
      (body : nat -> S -> outcome S) (k : nat) (failure : outcome S) :
  (forall a, failure <> Normal a) ->
  forall (n i : nat) (s : S),
    Inv i s ->
    (i <= k < i + n)%nat ->
    (forall j s0, (i <= j < k)%nat -> Inv j s0 ->
                  exists s1, body j s0 = Normal s1 /\ Inv (Datatypes.S j) s1) ->
    (forall s0, Inv k s0 -> body k s0 = failure) ->
    ParallelFor_from body i n s = failure.
Proof.
  intros Hfail. induction n as [| n IH]; intros i s Hinv Hk Hbefore Hat.
  - lia.
  - cbn [ParallelFor_from]. destruct (Nat.eq_dec i k) as [-> | Hne].
    + rewrite (Hat s Hinv). destruct failure; [ | reflexivity .. ].
      exfalso. eapply Hfail. reflexivity.
    + destruct (Hbefore i s) as (s1 & Hb & Hinv1); [ lia | exact Hinv | ].
      rewrite Hb. cbn [bind]. apply IH.
      * exact Hinv1.
      * lia.
      * intros j s0 Hj. apply Hbefore. lia.
      * exact Hat.
Qed.

(** All six save vectors have [np] slots. *)
Definition saves_sized (np : nat) (sv : SaveBuffers) : Prop :=
  length (xp_save sv) = np /\ length (yp_save sv) = np /\
  length (zp_save sv) = np /\ length (uxp_save sv) = np /\
  length (uyp_save sv) = np /\ length (uzp_save sv) = np.

Lemma PushPX_save_in_range (off : nat) (tile : Tile) (j : nat)
      (sv : SaveBuffers) :
  (off + j < length tile)%nat ->
  saves_sized (length tile) sv ->
  exists sv', PushPX_save off tile j sv = Normal sv' /\
              saves_sized (length tile) sv'.
Proof.
  intros Hj (Hx & Hy & Hz & Hux & Huy & Huz).
  destruct (lookup_lt_is_Some_2 tile j) as [p Hp]; [ lia | ].
  destruct (lookup_lt_is_Some_2 tile (off + j)) as [q Hq]; [ lia | ].
  unfold PushPX_save. rewrite (GetPosition_Some _ _ _ Hp). kernel_step.
  rewrite !write_lt by lia. kernel_step.
  rewrite (get_ux_Some _ _ _ Hq), (get_uy_Some _ _ _ Hq),
    (get_uz_Some _ _ _ Hq). kernel_step.
  rewrite !write_lt by lia. kernel_step.
  eexists. split; [ reflexivity | ].
  unfold saves_sized. cbn [xp_save yp_save zp_save uxp_save uyp_save uzp_save].
  rewrite !length_insert. repeat split; assumption.
Qed.

Lemma PushPX_save_past_end (off : nat) (tile : Tile) (k : nat)
      (sv : SaveBuffers) :
  (k < length tile)%nat ->
  (length tile <= off + k)%nat ->
  saves_sized (length tile) sv ->
  PushPX_save off tile k sv = OutOfBounds.
Proof.
  intros Hk Hpast (Hx & _).
  destruct (lookup_lt_is_Some_2 tile k) as [p Hp]; [ lia | ].
  unfold PushPX_save. rewrite (GetPosition_Some _ _ _ Hp). kernel_step.
  unfold write at 1.
  destruct (Nat.ltb_spec (off + k) (length (xp_save sv))) as [Hlt | _];
    [ lia | reflexivity ].
Qed.

Lemma PushPX_save_with_offset (off : nat) (tile : Tile) :
  (0 < off)%nat ->
  tile <> [] ->
  ParallelFor (numParticles tile) (PushPX_save off tile)
              (resized_saves (numParticles tile)) = OutOfBounds.
Proof.
  intros Hoff Htile. unfold ParallelFor, numParticles.
  assert (Hnp : (0 < length tile)%nat).
  { destruct tile; [ contradiction | cbn; lia ]. }
  apply (ParallelFor_from_stops
           (fun _ sv => saves_sized (length tile) sv)
           (PushPX_save off tile) (length tile - off)%nat).
  - intros a H. discriminate H.
  - unfold saves_sized, resized_saves, resize.
    cbn [xp_save yp_save zp_save uxp_save uyp_save uzp_save].
    rewrite !length_replicate. repeat split; reflexivity.
  - lia.
  - intros j s0 Hj Hs. apply PushPX_save_in_range; [ lia | exact Hs ].
  - intros s0 Hs. apply PushPX_save_past_end; [ lia | lia | exact Hs ].
Qed.

(** X4.  While injecting, [PushPX] keeps within its save vectors only when
    the whole tile is pushed: with an offset that is not zero and a tile that
    is not empty, the save kernel -- which runs over all [numParticles()]
    indices and writes slot [offset + i] -- writes past the end of the
    vectors, whatever the base class would do.  With an empty tile no kernel
    iteration runs and [PushPX] returns what the base class returns. *)
Theorem PushPX_injecting_save_bounds (self : Container) (call : PushPXCall)
        (tile : Tile) :
  done_injecting_lev self = false ->
  ((0 < offset call)%nat -> tile <> [] ->
   PushPX self call tile = OutOfBounds) /\
  (forall pushed : Tile,
     tile = [] ->
     PhysicalParticleContainer_PushPX call (scale_fields_of self call) tile
     = Normal pushed ->
     length pushed = 0%nat ->
     PushPX self call tile = Normal (pushed, resized_saves 0)).
Proof.
  intros Hdone. split.
  - intros Hoff Htile. unfold PushPX. rewrite Hdone. cbn [negb].
    rewrite (PushPX_save_with_offset _ _ Hoff Htile). reflexivity.
  - intros pushed -> Hpush Hlen. unfold PushPX.
    unfold scale_fields_of in Hpush. rewrite Hdone in *. cbn [negb] in *.
    unfold ParallelFor at 1. cbn [numParticles length ParallelFor_from bind].
    rewrite Hpush. cbn [bind]. unfold ParallelFor, numParticles.
    rewrite Hlen. reflexivity.
Qed.

(** X5.  A failure of the push of the base class is the outcome of
    [PushPX]: when [PhysicalParticleContainer::PushPX] aborts (for one, on a
    pusher it does not know), [PushPX] aborts with the same message and
    restores nothing, in the done state and, for a whole-tile call, while
    injecting. *)
Theorem PushPX_passes_on_abort (self : Container) (call : PushPXCall)
        (tile : Tile) (msg : string) :
  PhysicalParticleContainer_PushPX call (scale_fields_of self call) tile
  = Aborted msg ->
  done_injecting_lev self = true \/ offset call = 0%nat ->
  PushPX self call tile = Aborted msg.
Proof.
  intros Hpush Hcase. destruct (done_injecting_lev self) eqn:Hdone.
  - rewrite (PushPX_done _ _ _ Hdone), Hpush. reflexivity.
  - destruct Hcase as [Hcase | Hoff]; [ discriminate Hcase | ].
    unfold PushPX. unfold scale_fields_of in Hpush.
    rewrite Hdone in *. rewrite Hoff. cbn [negb] in *.
    rewrite PushPX_save_whole_tile. cbn [bind]. rewrite Hpush. reflexivity.
Qed.

(** X6.  Rigid advance moves the particles behind the plane as one body:
    while injecting with [rigid_advance] set, any two particles that the
    whole-tile push leaves at or below the plane come out of [PushPX] with
    the difference of their [z] that they went in with, each shifted by
    [dt * vzbeam_ave_boosted]. *)
Theorem PushPX_rigid_advance_keeps_spacing (self : Container)
        (call : PushPXCall) (tile pushed restored : Tile)
        (saves : SaveBuffers) :
  done_injecting_lev self = false ->
  rigid_advance self = true ->
  offset call = 0%nat ->
  PhysicalParticleContainer_PushPX call (scale_fields_of self call) tile
  = Normal pushed ->
  length pushed = length tile ->
  PushPX self call tile = Normal (restored, saves) ->
  forall (i j : nat) (si sj pi pj : Particle),
    tile !! i = Some si -> tile !! j = Some sj ->
    pushed !! i = Some pi -> pushed !! j = Some pj ->
    part_z pi <= zinject_plane_lev self ->
    part_z pj <= zinject_plane_lev self ->
    exists qi qj : Particle,
      restored !! i = Some qi /\ restored !! j = Some qj /\
      part_z qi = part_z si + dt call * vzbeam_ave_boosted self /\
      part_z qi - part_z qj = part_z si - part_z sj.
Proof.
  intros Hdone Hrigid Hoff Hpush Hlen Hrun i j si sj pi pj Hsi Hsj Hpi Hpj
         Hbi Hbj.
  rewrite (PushPX_injecting_whole_tile self call tile pushed
             Hdone Hoff Hpush Hlen) in Hrun.
  injection Hrun as <- <-.
  exists (undo_push self (dt call) si pi), (undo_push self (dt call) sj pj).
  split; [ rewrite lookup_zip_with, Hsi, Hpi; reflexivity | ].
  split; [ rewrite lookup_zip_with, Hsj, Hpj; reflexivity | ].
  unfold undo_push. rewrite Hrigid.
  destruct (decide (part_z pi <= zinject_plane_lev self)); [ | contradiction ].
  destruct (decide (part_z pj <= zinject_plane_lev self)); [ | contradiction ].
  cbn [part_z]. split; [ reflexivity | ring ].
Qed.

(** *** [Evolve]: many calls, and the calls that do not return *)

(** The time steps of a sequence of calls, added up. *)
Definition elapsed (calls : list EvolveCall) : R :=
  foldr (fun call total => call_dt call + total) 0 calls.

(** X7.  Over a sequence of calls to [Evolve] for one level the plane of the
    level moves by the sum of the time steps times [- beta_boost * c]: after
    call number [n] its position is the initial one minus
    [elapsed * beta_boost * c], [zinject_plane_lev] holds the same value, and
    the planes of all other levels are where they were at the start. *)
Theorem Evolve_calls_plane_position (lev : nat) (calls : list EvolveCall) :
  forall (self : Container) (particles : Particles) (grids : MultiFabs)
         (trace : list Container) (z0 : R),
    zinject_plane_levels self !! lev = Some z0 ->
    Evolve_calls lev calls self particles grids = Normal trace ->
    length trace = length calls /\
    forall (n : nat) (cn : Container),
      trace !! n = Some cn ->
      zinject_plane_levels cn !! lev
      = Some (z0 - elapsed (take (Datatypes.S n) calls) * beta_boost * c) /\
      zinject_plane_lev cn
      = z0 - elapsed (take (Datatypes.S n) calls) * beta_boost * c /\
      forall l : nat, l <> lev ->
        zinject_plane_levels cn !! l = zinject_plane_levels self !! l.
Proof.
  induction calls as [| call rest IH];
    intros self particles grids trace z0 Hz0 Hrun.
  - cbn in Hrun. injection Hrun as <-. split; [ reflexivity | ].
    intros n cn Hn. rewrite lookup_nil in Hn. discriminate Hn.
  - cbn [Evolve_calls] in Hrun. apply bind_Normal in Hrun.
    destruct Hrun as ([self' [particles' grids']] & Hev & Hrun).
    apply bind_Normal in Hrun. destruct Hrun as (later & Hlater & Heq).
    injection Heq as <-.
    destruct (Evolve_Normal _ _ _ _ _ _ _ _ _ _ _ Hev) as (z & Hz & Hself').
    assert (z = z0) as -> by congruence.
    assert (Hlt : (lev < length (zinject_plane_levels self))%nat)
      by (eapply lookup_lt_Some; eauto).
    assert (Hz1 : zinject_plane_levels self' !! lev
                  = Some (z0 - call_dt call * beta_boost * c)).
    { rewrite Hself'. unfold after_plane_update, set_injection_plane.
      cbn [zinject_plane_levels]. apply list_lookup_insert_eq. exact Hlt. }
    assert (Hcur : zinject_plane_lev self'
                   = z0 - call_dt call * beta_boost * c).
    { rewrite Hself'. reflexivity. }
    assert (Hother : forall l, l <> lev ->
              zinject_plane_levels self' !! l = zinject_plane_levels self !! l).
    { intros l Hl. rewrite Hself'.
      unfold after_plane_update, set_injection_plane.
      cbn [zinject_plane_levels]. apply list_lookup_insert_ne. congruence. }
    destruct (IH self' particles' grids' later _ Hz1 Hlater) as [Hlen Hrest].
    split; [ cbn [length]; rewrite Hlen; reflexivity | ].
    intros n cn Hn. destruct n as [| n].
    + cbn in Hn. injection Hn as <-.
      change (elapsed (take 1 (call :: rest))) with (call_dt call + 0).
      replace (z0 - (call_dt call + 0) * beta_boost * c)
        with (z0 - call_dt call * beta_boost * c) by ring.
      split; [ exact Hz1 | ]. split; [ exact Hcur | exact Hother ].
    + cbn in Hn. destruct (Hrest n cn Hn) as (Hp & Hc & Ho).
      change (elapsed (take (Datatypes.S (Datatypes.S n)) (call :: rest)))
        with (call_dt call + elapsed (take (Datatypes.S n) rest)).
      replace (z0 - (call_dt call + elapsed (take (Datatypes.S n) rest))
                    * beta_boost * c)
        with (z0 - call_dt call * beta_boost * c
              - elapsed (take (Datatypes.S n) rest) * beta_boost * c) by ring.
      split; [ exact Hp | ]. split; [ exact Hc | ].
      intros l Hl. rewrite (Ho l Hl). apply Hother. exact Hl.
Qed.

(** X8.  The outcomes of [Evolve]: for a level that has no entry in
    [zinject_plane_levels] the first read is out of bounds and the base
    class is not reached; for a level that has one, the outcome is that of
    the base class called on the updated container -- an abort of the base
    class is an abort of [Evolve], and [Evolve] returns only if the base
    class does. *)
Theorem Evolve_outcomes (self : Container) (Geom : nat -> Geometry)
        (lev : nat) (grids : MultiFabs) (t dt : R) (a_dt_type : DtType)
        (skip_deposition : bool) (particles : Particles) :
  (zinject_plane_levels self !! lev = None ->
   Evolve self Geom lev grids t dt a_dt_type skip_deposition particles
   = OutOfBounds) /\
  (forall (z : R) (msg : string),
     zinject_plane_levels self !! lev = Some z ->
     PhysicalParticleContainer_Evolve (after_plane_update self Geom lev dt z)
       lev grids t dt a_dt_type skip_deposition particles = Aborted msg ->
     Evolve self Geom lev grids t dt a_dt_type skip_deposition particles
     = Aborted msg) /\
  (forall (self' : Container) (after : Particles * MultiFabs),
     Evolve self Geom lev grids t dt a_dt_type skip_deposition particles
     = Normal (self', after) ->
     exists z : R,
       zinject_plane_levels self !! lev = Some z /\
       self' = after_plane_update self Geom lev dt z /\
       PhysicalParticleContainer_Evolve self' lev grids t dt a_dt_type
                                        skip_deposition particles
       = Normal after).
Proof.
  split; [ | split ].
  - intros Hnone. unfold Evolve, read. rewrite Hnone. reflexivity.
  - intros z msg Hz Hbase.
    rewrite (Evolve_unfold _ _ _ _ _ _ _ _ _ _ Hz), Hbase. reflexivity.
  - intros self' after Hrun.
    destruct (Evolve_Normal _ _ _ _ _ _ _ _ _ _ _ Hrun) as (z & Hz & ->).
    exists z. split; [ exact Hz | ]. split; [ reflexivity | ].
    rewrite (Evolve_unfold _ _ _ _ _ _ _ _ _ _ Hz) in Hrun.
    apply bind_Normal in Hrun. destruct Hrun as (a & Ha & Heq).
    injection Heq as <-. exact Ha.
Qed.

(** *** [PushP]: what is pushed, what is left alone, when it stops *)

Lemma PushP_tile_empty (self : Container) (fields : MultiFabs) (lev : nat)
      (dt : R) (ti : nat) :
  PushP_tile self fields lev dt ti []
  = (let* zz := read (zinject_plane_levels self) lev in Normal []).
Proof.
  unfold PushP_tile, ParallelFor, numParticles.
  cbn [length ParallelFor_from bind].
  destruct (read (zinject_plane_levels self) lev); reflexivity.
Qed.

Lemma for_each_tile_aborts (body : nat -> Tile -> outcome Tile)
      (msg : string) :
  (forall ti, body ti [] = Normal []) ->
  (forall ti p rest, body ti (p :: rest) = Aborted msg) ->
  forall (tiles : list Tile) (ti : nat),
    Exists (fun tile => tile <> []) tiles ->
    for_each_tile body ti tiles = Aborted msg.
Proof.
  intros Hempty Hfull. induction tiles as [| tile rest IH]; intros ti Hex.
  - inversion Hex.
  - cbn [for_each_tile]. destruct tile as [| p tile].
    + rewrite Hempty. cbn [bind]. rewrite IH; [ reflexivity | ].
      inversion Hex as [? ? Hhead | ? ? Htail]; [ contradiction | exact Htail ].
    + rewrite Hfull. reflexivity.
Qed.

(** X9.  With a pusher it does not know, [PushP] stops at the first particle
    it meets: for a valid level it aborts with "Unknown particle pusher" as
    soon as one tile of the level holds a particle, and returns the
    particles unchanged when all tiles of the level are empty; with
    [do_not_push] set it returns the particles unchanged without looking at
    the pusher or the level at all. *)
Theorem PushP_unknown_pusher (self : Container) (lev : nat) (dt : R)
        (fields : MultiFabs) (particles : Particles) :
  (do_not_push self = true ->
   PushP self lev dt fields particles = Normal particles) /\
  (forall (tiles : list Tile),
     ~ known_pusher self ->
     do_not_push self = false ->
     particles !! lev = Some tiles ->
     is_Some (zinject_plane_levels self !! lev) ->
     (Exists (fun tile => tile <> []) tiles ->
      PushP self lev dt fields particles
      = Aborted "Unknown particle pusher") /\
     (Forall (fun tile => tile = []) tiles ->
      PushP self lev dt fields particles = Normal particles)).
Proof.
  split.
  - intros Hskip. unfold PushP. rewrite Hskip. reflexivity.
  - intros tiles Hunknown Hpush Htiles [zz Hzz].
    assert (Hempty : forall ti,
              PushP_tile self fields lev dt ti [] = Normal []).
    { intros ti. rewrite PushP_tile_empty, (read_Some _ _ _ Hzz).
      reflexivity. }
    split.
    + intros Hex. unfold PushP. rewrite Hpush.
      rewrite (read_Some _ _ _ Htiles). cbn [bind].
      rewrite (for_each_tile_aborts _ "Unknown particle pusher" Hempty).
      * reflexivity.
      * intros ti p rest. apply PushP_tile_unknown. exact Hunknown.
      * exact Hex.
    + intros Hall. unfold PushP. rewrite Hpush.
      rewrite (read_Some _ _ _ Htiles). cbn [bind].
      assert (Hloop : forall ti,
                for_each_tile (PushP_tile self fields lev dt) ti tiles
                = Normal tiles).
      { clear Htiles. induction Hall as [| tile rest -> _ IH]; intros ti.
        - reflexivity.
        - cbn [for_each_tile]. rewrite Hempty. cbn [bind]. rewrite IH.
          reflexivity. }
      rewrite Hloop. cbn [bind].
      rewrite write_lt by (eapply lookup_lt_Some; eauto).
      rewrite (list_insert_id _ _ _ Htiles). reflexivity.
Qed.

Lemma momentum_with_momentum (p : Particle) (u : Real3) :
  momentum (with_momentum p u) = u.
Proof. destruct u as [[u1 u2] u3]. reflexivity. Qed.

Lemma ion_lev_with_momentum (p : Particle) (u : Real3) :
  part_ion_lev (with_momentum p u) = part_ion_lev p.
Proof. destruct u as [[u1 u2] u3]. reflexivity. Qed.

Lemma position_with_momentum (p : Particle) (u : Real3) :
  position (with_momentum p u) = position p.
Proof. destruct u as [[u1 u2] u3]. reflexivity. Qed.

(** X10.  For a known pusher, a particle ahead of the injection plane of the
    level comes out of the tile loop of [PushP] with the momentum that the
    selected pusher computes from its old momentum, the field gathered at
    its position plus the external field, its mass and its charge -- the
    species charge, times the ionization level when field ionization is on
    -- and with its position and ionization level as before. *)
Theorem PushP_ahead_of_plane_is_pushed (self : Container) (fields : MultiFabs)
        (lev : nat) (dt : R) (ti : nat) (tile tile' : Tile) (zz : R) :
  known_pusher self ->
  zinject_plane_levels self !! lev = Some zz ->
  PushP_tile self fields lev dt ti tile = Normal tile' ->
  forall (i : nat) (p : Particle),
    tile !! i = Some p ->
    part_z p > zz ->
    exists q : Particle,
      tile' !! i = Some q /\
      position q = position p /\
      part_ion_lev q = part_ion_lev p /\
      momentum q
      = selected_pusher self (momentum p)
          (fst (fields_at fields lev ti tile i p))
          (snd (fields_at fields lev ti tile i p))
          (if do_field_ionization self
           then charge self * IZR (part_ion_lev p) else charge self)
          (mass self) dt.
Proof.
  intros Hknown Hzz Hrun i p Hp Habove.
  rewrite (PushP_tile_known _ _ _ _ _ _ Hknown) in Hrun.
  rewrite (read_Some _ _ _ Hzz) in Hrun. cbn [bind] in Hrun.
  injection Hrun as <-.
  exists (kicked self fields lev ti dt tile i p). split.
  - rewrite list_lookup_imap, Hp. cbn. unfold pushed_or_kept.
    destruct (decide (part_z p <= zz)) as [Hle | _]; [ lra | reflexivity ].
  - unfold kicked, charge_of.
    destruct (fields_at fields lev ti tile i p) as [Ep Bp]. cbn [fst snd].
    split; [ apply position_with_momentum | ].
    split; [ apply ion_lev_with_momentum | apply momentum_with_momentum ].
Qed.

Lemma PushP_tile_ion_levels (self : Container) (fields : MultiFabs)
      (lev : nat) (dt : R) (ti : nat) (tile tile' : Tile) :
  PushP_tile self fields lev dt ti tile = Normal tile' ->
  part_ion_lev <$> tile' = part_ion_lev <$> tile.
Proof.
  intros Hrun. destruct (known_pusher_dec self) as [Hknown | Hunknown].
  - rewrite (PushP_tile_known _ _ _ _ _ _ Hknown) in Hrun.
    apply bind_Normal in Hrun. destruct Hrun as (zz & _ & Heq).
    injection Heq as <-. apply list_eq. intros i.
    rewrite !list_lookup_fmap, list_lookup_imap.
    destruct (tile !! i) as [p |]; [ | reflexivity ]. cbn.
    unfold pushed_or_kept.
    destruct (decide (part_z p <= zz)); [ reflexivity | ].
    unfold kicked. destruct (fields_at fields lev ti tile i p) as [Ep Bp].
    rewrite ion_lev_with_momentum. reflexivity.
  - destruct tile as [| p rest].
    + rewrite PushP_tile_empty in Hrun. apply bind_Normal in Hrun.
      destruct Hrun as (zz & _ & Heq). injection Heq as <-. reflexivity.
    + rewrite (PushP_tile_unknown _ _ _ _ _ _ _ Hunknown) in Hrun.
      discriminate Hrun.
Qed.

(** X11.  [PushP] works on the tiles of one level and on momenta only:
    whenever it returns, the levels other than [lev] hold the particles they
    held, the number of levels is the same, and at level [lev] there are as
    many tiles as before, each with as many particles and with the
    ionization levels it had. *)
Theorem PushP_frame (self : Container) (lev : nat) (dt : R)
        (fields : MultiFabs) (particles particles' : Particles) :
  PushP self lev dt fields particles = Normal particles' ->
  length particles' = length particles /\
  (forall l : nat, l <> lev -> particles' !! l = particles !! l) /\
  (forall tiles tiles' : list Tile,
     particles !! lev = Some tiles ->
     particles' !! lev = Some tiles' ->
     Forall2 (fun tile tile' : Tile =>
                length tile' = length tile /\
                part_ion_lev <$> tile' = part_ion_lev <$> tile)
             tiles tiles').
Proof.
  unfold PushP. destruct (do_not_push self).
  - intros Heq. injection Heq as <-.
    split; [ reflexivity | ]. split; [ reflexivity | ].
    intros tiles tiles' H1 H2. assert (tiles' = tiles) as -> by congruence.
    clear H1 H2. induction tiles; constructor; auto.
  - intros Hrun. apply bind_Normal in Hrun.
    destruct Hrun as (tiles0 & Hread & Hrun). apply bind_Normal in Hrun.
    destruct Hrun as (tiles1 & Hloop & Hwrite).
    apply read_Normal in Hread. apply write_Normal in Hwrite.
    destruct Hwrite as [Hlt ->].
    split; [ apply length_insert | ].
    split; [ intros l Hl; apply list_lookup_insert_ne; congruence | ].
    intros tiles tiles' H1 H2. assert (tiles = tiles0) as -> by congruence.
    rewrite list_lookup_insert_eq in H2 by exact Hlt. injection H2 as <-.
    eapply for_each_tile_Forall2; [ | exact Hloop ].
    intros ti tile tile' Htile. split.
    + pose proof (PushP_tile_positions _ _ _ _ _ _ _ Htile) as Hpos.
      unfold tile_positions in Hpos.
      apply (f_equal length) in Hpos. rewrite !length_fmap in Hpos.
      exact Hpos.
    + eapply PushP_tile_ion_levels. exact Htile.
Qed.

(** *** [InitData] and [RemapParticles] *)

(** [WarpX::gamma_boost] and [finestLevel()] of the [AmrCore]. *)
Variable gamma_boost : R.
Variable finestLevel : nat.

(** [meanParticleVelocity], [AddParticles] and [Redistribute] of the base
    classes. *)
Variable meanParticleVelocity : Particles -> bool -> Real3.
Variable AddParticles : Container -> nat -> Particles -> outcome Particles.
Variable Redistribute : Particles -> outcome Particles.

(** [v[2]] on a [std::array<Real,3>]. *)
Definition array_2 (v : Real3) : R := let '(_, _, v2) := v in v2.

(** [v.resize(n, value)] on a vector: cut to [n] slots, or filled up to [n]
    slots with [value]. *)
Definition vector_resize (n : nat) (value : R) (v : list R) : list R :=
  take n v ++ replicate (n - length v) value.

Definition set_zinject_plane_levels (self : Container) (levels : list R)
  : Container :=
  {| zinject_plane := zinject_plane self;
     rigid_advance := rigid_advance self;
     vzbeam_ave_boosted := vzbeam_ave_boosted self;
     zinject_plane_levels := levels;
     zinject_plane_lev := zinject_plane_lev self;
     zinject_plane_lev_previous := zinject_plane_lev_previous self;
     done_injecting_lev := done_injecting_lev self;
     do_not_push := do_not_push self;
     charge := charge self;
     mass := mass self;
     do_classical_radiation_reaction := do_classical_radiation_reaction self;
     do_field_ionization := do_field_ionization self |}.

Definition set_vzbeam_ave_boosted (self : Container) (vz : R) : Container :=
  {| zinject_plane := zinject_plane self;
     rigid_advance := rigid_advance self;
     vzbeam_ave_boosted := vz;
     zinject_plane_levels := zinject_plane_levels self;
     zinject_plane_lev := zinject_plane_lev self;
     zinject_plane_lev_previous := zinject_plane_lev_previous self;
     done_injecting_lev := done_injecting_lev self;
     do_not_push := do_not_push self;
     charge := charge self;
     mass := mass self;
     do_classical_radiation_reaction := do_classical_radiation_reaction self;
     do_field_ionization := do_field_ionization self |}.

(** The kernel of [RemapParticles]. *)
Definition RemapParticles_kernel (uz_boost csqi t_lab lvzbeam_ave_boosted : R)
           (i : nat) (tile : Tile) : outcome Tile :=
  let* '(xp, yp, zp) := GetPosition tile i in
  let* uxi := get_ux tile i in
  let* uyi := get_uy tile i in
  let* uzi := get_uz tile i in
  let gammapr := sqrt (1 + (uxi * uxi + uyi * uyi + uzi * uzi) * csqi) in
  let vzpr := uzi / gammapr in
  (* Back out the value of z_lab *)
  let z_lab :=
    (zp + uz_boost * t_lab + gamma_boost * t_lab * vzpr)
    / (gamma_boost + uz_boost * vzpr * csqi) in
  (* Time of the particle in the boosted frame given its position in the lab
     frame at t=0. *)
  let tpr := gamma_boost * t_lab - uz_boost * z_lab * csqi in
  (* Adjust the position, taking away its motion from its own velocity and
     adding the motion from the average velocity *)
  let zp := zp + (tpr * vzpr - tpr * lvzbeam_ave_boosted) in
  SetPosition tile i (xp, yp, zp).

(** [for (int lev = first; lev < first + n; lev++)]. *)
Fixpoint for_each_level (body : nat -> Particles -> outcome Particles)
         (first n : nat) (particles : Particles) : outcome Particles :=
  match n with
  | O => Normal particles
  | Datatypes.S n' =>
      let* particles' := body first particles in
      for_each_level body (Datatypes.S first) n' particles'
  end.

(** The body of the loop over the levels. *)
Definition RemapParticles_level (uz_boost csqi t_lab vz : R) (lev : nat)
           (particles : Particles) : outcome Particles :=
  let* tiles := read particles lev in
  let* tiles' :=
    for_each_tile
      (fun _ tile =>
         ParallelFor (numParticles tile)
                     (RemapParticles_kernel uz_boost csqi t_lab vz) tile)
      0 tiles in
  write particles lev tiles'.

Definition RemapParticles (self : Container) (particles : Particles)
  : outcome (Container * Particles) :=
  (* For rigid_advance == false, nothing needs to be done *)
  if rigid_advance self then
    let t_lab := 0 in
    let uz_boost := gamma_boost * beta_boost * c in
    let csqi := 1 / (c * c) in
    let vz := array_2 (meanParticleVelocity particles false) in
    let self' := set_vzbeam_ave_boosted self vz in
    let* particles' :=
      for_each_level (RemapParticles_level uz_boost csqi t_lab vz)
                     0 (finestLevel + 1) particles in
    Normal (self', particles')
  else Normal (self, particles).

Definition InitData (self : Container) (particles : Particles)
  : outcome (Container * Particles) :=
  let self :=
    set_zinject_plane_levels self
      (vector_resize (finestLevel + 1) (zinject_plane self / gamma_boost)
                     (zinject_plane_levels self)) in
  let* particles := AddParticles self 0 particles in
  let* '(self, particles) := RemapParticles self particles in
  let* particles := Redistribute particles in
  Normal (self, particles).

(** What the kernel of [RemapParticles] makes of one particle, for the
    average velocity [vz]; [t_lab] is zero. *)
Definition remapped (vz : R) (p : Particle) : Particle :=
  let uz_boost := gamma_boost * beta_boost * c in
  let csqi := 1 / (c * c) in
  let gammapr :=
    sqrt (1 + (part_ux p * part_ux p + part_uy p * part_uy p
               + part_uz p * part_uz p) * csqi) in
  let vzpr := part_uz p / gammapr in
  let z_lab :=
    (part_z p + uz_boost * 0 + gamma_boost * 0 * vzpr)
    / (gamma_boost + uz_boost * vzpr * csqi) in
  let tpr := gamma_boost * 0 - uz_boost * z_lab * csqi in
  with_position p (part_x p, part_y p,
                   part_z p + (tpr * vzpr - tpr * vz)).

Lemma RemapParticles_kernel_step (vz : R) (t : Tile) (i : nat) (p : Particle) :
  t !! i = Some p ->
  RemapParticles_kernel (gamma_boost * beta_boost * c) (1 / (c * c)) 0 vz i t
  = Normal (<[i:=remapped vz p]> t).
Proof.
  intros Hp. unfold RemapParticles_kernel.
  rewrite (GetPosition_Some _ _ _ Hp). kernel_step.
  rewrite (get_ux_Some _ _ _ Hp), (get_uy_Some _ _ _ Hp),
    (get_uz_Some _ _ _ Hp). kernel_step.
  rewrite (SetPosition_Some _ _ _ _ Hp). reflexivity.
Qed.

Lemma RemapParticles_tile (vz : R) (tile : Tile) :
  ParallelFor (numParticles tile)
              (RemapParticles_kernel (gamma_boost * beta_boost * c)
                                     (1 / (c * c)) 0 vz) tile
  = Normal (remapped vz <$> tile).
Proof.
  pose (Inv := fun (k : nat) (t : Tile) =>
                 t = imap (fun _ => remapped vz) (take k tile) ++ drop k tile).
  destruct (ParallelFor_from_inv Inv
              (RemapParticles_kernel (gamma_boost * beta_boost * c)
                                     (1 / (c * c)) 0 vz)
              (numParticles tile) 0 tile) as (t & Hrun & Hend).
  - unfold Inv. rewrite take_0, drop_0. reflexivity.
  - intros k t0 Hk ->. unfold numParticles in Hk.
    destruct (lookup_lt_is_Some_2 tile k) as [p Hp]; [ lia | ].
    eexists. split.
    + apply RemapParticles_kernel_step.
      rewrite lookup_done_todo by lia. exact Hp.
    + unfold Inv.
      apply (insert_imap_step (fun _ => remapped vz) tile tile k p p Hp Hp).
  - unfold ParallelFor. rewrite Hrun. f_equal. rewrite Hend.
    unfold numParticles. rewrite Nat.add_0_l.
    rewrite take_ge, drop_ge by lia. rewrite app_nil_r.
    apply list_eq. intros i. rewrite list_lookup_imap, list_lookup_fmap.
    reflexivity.
Qed.

(** A level after the kernel has run over all its tiles. *)
Definition remapped_level (vz : R) (tiles : list Tile) : list Tile :=
  (fun tile : Tile => remapped vz <$> tile) <$> tiles.

Lemma RemapParticles_tiles (vz : R) (tiles : list Tile) :
  forall ti : nat,
    for_each_tile
      (fun _ tile =>
         ParallelFor (numParticles tile)
                     (RemapParticles_kernel (gamma_boost * beta_boost * c)
                                            (1 / (c * c)) 0 vz) tile)
      ti tiles
    = Normal (remapped_level vz tiles).
Proof.
  induction tiles as [| tile rest IH]; intros ti; [ reflexivity | ].
  cbn [for_each_tile]. rewrite RemapParticles_tile. cbn [bind].
  rewrite IH. reflexivity.
Qed.

Lemma RemapParticles_level_spec (vz : R) (lev : nat) (particles : Particles) :
  RemapParticles_level (gamma_boost * beta_boost * c) (1 / (c * c)) 0 vz
                       lev particles
  = match particles !! lev with
    | Some tiles => Normal (<[lev:=remapped_level vz tiles]> particles)
    | None => OutOfBounds
    end.
Proof.
  unfold RemapParticles_level, read.
  destruct (particles !! lev) as [tiles |] eqn:Hlev; [ | reflexivity ].
  cbn [bind]. rewrite RemapParticles_tiles. cbn [bind].
  apply write_lt. eapply lookup_lt_Some; eauto.
Qed.

(** The loop over the levels [first, first + n). *)
Lemma RemapParticles_levels (vz : R) (n : nat) :
  forall (first : nat) (particles : Particles),
    (first + n <= length particles)%nat ->
    exists particles' : Particles,
      for_each_level
        (RemapParticles_level (gamma_boost * beta_boost * c) (1 / (c * c)) 0 vz)
        first n particles = Normal particles' /\
      length particles' = length particles /\
      forall l : nat,
        particles' !! l
        = if decide (first <= l < first + n)%nat
          then remapped_level vz <$> particles !! l
          else particles !! l.
Proof.
  induction n as [| n IH]; intros first particles Hlen.
  - exists particles. split; [ reflexivity | ]. split; [ reflexivity | ].
    intros l. destruct (decide _) as [Hl | _]; [ lia | reflexivity ].
  - cbn [for_each_level]. rewrite RemapParticles_level_spec.
    destruct (lookup_lt_is_Some_2 particles first) as [tiles Htiles]; [ lia | ].
    rewrite Htiles. cbn [bind].
    destruct (IH (Datatypes.S first)
                 (<[first:=remapped_level vz tiles]> particles))
      as (particles' & Hrun & Hlen' & Hat).
    { rewrite length_insert. lia. }
    exists particles'. split; [ exact Hrun | ].
    split; [ rewrite Hlen'; apply length_insert | ].
    intros l. rewrite Hat.
    destruct (decide (Datatypes.S first <= l < Datatypes.S first + n)%nat)
      as [Hin | Hout].
    + rewrite list_lookup_insert_ne by lia.
      destruct (decide _) as [_ | Hno]; [ reflexivity | lia ].
    + destruct (Nat.eq_dec l first) as [-> | Hne].
      * rewrite list_lookup_insert_eq by lia. rewrite Htiles.
        destruct (decide _) as [_ | Hno]; [ reflexivity | lia ].
      * rewrite list_lookup_insert_ne by lia.
        destruct (decide _) as [Hyes | _]; [ lia | reflexivity ].
Qed.

Lemma RemapParticles_levels_missing (vz : R) (n : nat) :
  forall (first : nat) (particles : Particles),
    (first <= length particles < first + n)%nat ->
    for_each_level
      (RemapParticles_level (gamma_boost * beta_boost * c) (1 / (c * c)) 0 vz)
      first n particles = OutOfBounds.
Proof.
  induction n as [| n IH]; intros first particles Hlen; [ lia | ].
  cbn [for_each_level]. rewrite RemapParticles_level_spec.
  destruct (particles !! first) as [tiles |] eqn:Htiles; [ | reflexivity ].
  cbn [bind]. apply IH. rewrite length_insert.
  pose proof (lookup_lt_Some _ _ _ Htiles). lia.
Qed.

Lemma RemapParticles_rigid_short (self : Container) (particles : Particles) :
  rigid_advance self = true ->
  (length particles <= finestLevel)%nat ->
  RemapParticles self particles = OutOfBounds.
Proof.
  intros Hrigid Hshort. unfold RemapParticles. rewrite Hrigid.
  rewrite RemapParticles_levels_missing by lia. reflexivity.
Qed.

Lemma RemapParticles_rigid (self : Container) (particles : Particles) :
  rigid_advance self = true ->
  (finestLevel < length particles)%nat ->
  exists particles' : Particles,
    RemapParticles self particles
    = Normal (set_vzbeam_ave_boosted
                self (array_2 (meanParticleVelocity particles false)),
              particles') /\
    length particles' = length particles /\
    forall l : nat,
      particles' !! l
      = if decide (l <= finestLevel)%nat
        then remapped_level (array_2 (meanParticleVelocity particles false))
             <$> particles !! l
        else particles !! l.
Proof.
  intros Hrigid Hlong. unfold RemapParticles. rewrite Hrigid.
  set (vz := array_2 (meanParticleVelocity particles false)).
  destruct (RemapParticles_levels vz (finestLevel + 1) 0 particles)
    as (particles' & Hrun & Hlen & Hat); [ lia | ].
  exists particles'. rewrite Hrun. cbn [bind].
  split; [ reflexivity | ]. split; [ exact Hlen | ].
  intros l. rewrite Hat.
  destruct (decide (0 <= l < 0 + (finestLevel + 1))%nat) as [Hin | Hout];
    destruct (decide (l <= finestLevel)%nat) as [Hle | Hgt];
    first [ reflexivity | lia ].
Qed.

(** X12.  The outcomes of [RemapParticles].  Without [rigid_advance] it
    returns the container and the particles as they are.  With
    [rigid_advance] it stores the third component of the mean particle
    velocity in [vzbeam_ave_boosted] and runs the kernel over every tile of
    the levels [0 .. finestLevel]: levels above [finestLevel] keep their
    particles, and a container with fewer than [finestLevel + 1] levels of
    particles makes the loop over the levels read past the last one. *)
Theorem RemapParticles_outcomes (self : Container) (particles : Particles) :
  let vz := array_2 (meanParticleVelocity particles false) in
  (rigid_advance self = false ->
   RemapParticles self particles = Normal (self, particles)) /\
  (rigid_advance self = true ->
   (length particles <= finestLevel)%nat ->
   RemapParticles self particles = OutOfBounds) /\
  (rigid_advance self = true ->
   (finestLevel < length particles)%nat ->
   exists particles' : Particles,
     RemapParticles self particles
     = Normal (set_vzbeam_ave_boosted self vz, particles') /\
     length particles' = length particles /\
     forall l : nat,
       particles' !! l
       = if decide (l <= finestLevel)%nat
         then remapped_level vz <$> particles !! l
         else particles !! l).
Proof.
  intros vz. split; [ | split ].
  - intros Hoff. unfold RemapParticles. rewrite Hoff. reflexivity.
  - apply RemapParticles_rigid_short.
  - apply RemapParticles_rigid.
Qed.

(** Everything of a particle but its [z]. *)
Definition all_but_z (p : Particle) : R * R * Real3 * Z :=
  (part_x p, part_y p, momentum p, part_ion_lev p).

Definition all_but_z_of (particles : Particles)
  : list (list (list (R * R * Real3 * Z))) :=
  (fun tiles : list Tile =>
     (fun tile : Tile => all_but_z <$> tile) <$> tiles) <$> particles.

Lemma all_but_z_remapped (vz : R) (p : Particle) :
  all_but_z (remapped vz p) = all_but_z p.
Proof. reflexivity. Qed.

Lemma all_but_z_remapped_level (vz : R) (tiles : list Tile) :
  (fun tile : Tile => all_but_z <$> tile) <$> remapped_level vz tiles
  = (fun tile : Tile => all_but_z <$> tile) <$> tiles.
Proof.
  unfold remapped_level. induction tiles as [| tile rest IH];
    [ reflexivity | ].
  rewrite !fmap_cons, IH. f_equal.
  induction tile as [| p tile IHt]; [ reflexivity | ].
  rewrite !fmap_cons, IHt, all_but_z_remapped. reflexivity.
Qed.

Lemma RemapParticles_Normal (self self' : Container)
      (particles particles' : Particles) :
  RemapParticles self particles = Normal (self', particles') ->
  self' = (if rigid_advance self
           then set_vzbeam_ave_boosted
                  self (array_2 (meanParticleVelocity particles false))
           else self) /\
  length particles' = length particles /\
  forall l : nat,
    particles' !! l
    = if decide (rigid_advance self = true /\ (l <= finestLevel)%nat)
      then remapped_level (array_2 (meanParticleVelocity particles false))
           <$> particles !! l
      else particles !! l.
Proof.
  intros Hrun.
  destruct (rigid_advance self) eqn:Hrigid.
  - destruct (le_lt_dec (length particles) finestLevel) as [Hs | Hl].
    + rewrite (RemapParticles_rigid_short self particles Hrigid Hs) in Hrun.
      discriminate Hrun.
    + destruct (RemapParticles_rigid self particles Hrigid Hl)
        as (ps & Heq & Hlen & Hat).
      rewrite Heq in Hrun. injection Hrun as <- <-.
      split; [ reflexivity | ]. split; [ exact Hlen | ].
      intros l. rewrite Hat.
      destruct (decide (l <= finestLevel)%nat) as [Hle | Hgt];
        destruct (decide (true = true /\ (l <= finestLevel)%nat))
        as [Hy | Hn];
        first [ reflexivity
              | exfalso; apply Hn; split; [ reflexivity | exact Hle ]
              | exfalso; apply Hgt; exact (proj2 Hy) ].
  - unfold RemapParticles in Hrun. rewrite Hrigid in Hrun.
    injection Hrun as <- <-.
    split; [ reflexivity | ]. split; [ reflexivity | ].
    intros l. destruct (decide _) as [[Hf _] | _];
      [ discriminate Hf | reflexivity ].
Qed.

Lemma RemapParticles_container (self self' : Container)
      (particles particles' : Particles) :
  RemapParticles self particles = Normal (self', particles') ->
  zinject_plane_levels self' = zinject_plane_levels self /\
  zinject_plane self' = zinject_plane self /\
  rigid_advance self' = rigid_advance self /\
  done_injecting_lev self' = done_injecting_lev self.
Proof.
  intros Hrun. destruct (RemapParticles_Normal _ _ _ _ Hrun) as (Hself & _).
  destruct (rigid_advance self) eqn:Hrigid; subst self';
    cbn [set_vzbeam_ave_boosted zinject_plane_levels zinject_plane
         rigid_advance done_injecting_lev];
    rewrite ?Hrigid; repeat split; reflexivity.
Qed.

(** X13.  [RemapParticles] moves particles along [z] and does nothing else:
    whenever it returns, there are the same levels, tiles and particles as
    before, each particle with its [x], [y], momentum and ionization level,
    and the container differs at most in [vzbeam_ave_boosted]. *)
Theorem RemapParticles_moves_z_only (self self' : Container)
        (particles particles' : Particles) :
  RemapParticles self particles = Normal (self', particles') ->
  all_but_z_of particles' = all_but_z_of particles /\
  zinject_plane_levels self' = zinject_plane_levels self /\
  zinject_plane self' = zinject_plane self /\
  rigid_advance self' = rigid_advance self /\
  done_injecting_lev self' = done_injecting_lev self.
Proof.
  intros Hrun. destruct (RemapParticles_Normal _ _ _ _ Hrun)
    as (Hself & Hlen & Hat).
  split; [ | exact (RemapParticles_container _ _ _ _ Hrun) ].
  unfold all_but_z_of. apply list_eq. intros l.
  rewrite !list_lookup_fmap, Hat.
  destruct (decide _) as [_ | _]; [ | reflexivity ].
  destruct (particles !! l) as [tiles |]; [ | reflexivity ].
  cbn. rewrite all_but_z_remapped_level. reflexivity.
Qed.

Lemma remapped_unmoved (vz : R) (p : Particle) :
  beta_boost = 0
  \/ part_z p = 0
  \/ part_uz p
     / sqrt (1 + (part_ux p * part_ux p + part_uy p * part_uy p
                  + part_uz p * part_uz p) * (1 / (c * c))) = vz ->
  remapped vz p = p.
Proof.
  intros Hcase. destruct p as [x y z ux uy uz ion].
  unfold remapped, with_position. cbn [part_x part_y part_z part_ux part_uy
                                              part_uz part_ion_lev] in *.
  f_equal. destruct Hcase as [-> | [-> | <-]]; unfold Rdiv; ring.
Qed.

(** X14.  The particles that [RemapParticles] does not move.  Whenever it
    returns, a particle is where it was if [rigid_advance] is off, or it is
    at a level above [finestLevel], or the frame is not boosted
    ([beta_boost = 0]), or it sits at [z = 0], or its own velocity
    [uz / gamma] is the mean velocity that was stored in
    [vzbeam_ave_boosted]. *)
Theorem RemapParticles_unmoved (self self' : Container)
        (particles particles' : Particles) :
  RemapParticles self particles = Normal (self', particles') ->
  forall (l ti i : nat) (tiles : list Tile) (tile : Tile) (p : Particle),
    particles !! l = Some tiles ->
    tiles !! ti = Some tile ->
    tile !! i = Some p ->
    rigid_advance self = false
    \/ (finestLevel < l)%nat
    \/ beta_boost = 0
    \/ part_z p = 0
    \/ part_uz p
       / sqrt (1 + (part_ux p * part_ux p + part_uy p * part_uy p
                    + part_uz p * part_uz p) * (1 / (c * c)))
       = vzbeam_ave_boosted self' ->
    exists (tiles' : list Tile) (tile' : Tile),
      particles' !! l = Some tiles' /\
      tiles' !! ti = Some tile' /\
      tile' !! i = Some p.
Proof.
  intros Hrun l ti i tiles tile p Hl Hti Hi Hcase.
  destruct (RemapParticles_Normal _ _ _ _ Hrun) as (Hself & _ & Hat).
  specialize (Hat l). rewrite Hl in Hat.
  destruct (decide (rigid_advance self = true /\ (l <= finestLevel)%nat))
    as [[Hrigid Hle] | Hno].
  - rewrite Hrigid in Hself.
    set (vz := array_2 (meanParticleVelocity particles false)) in *.
    assert (Hvz : vzbeam_ave_boosted self' = vz) by (rewrite Hself; reflexivity).
    exists (remapped_level vz tiles), (remapped vz <$> tile).
    split; [ exact Hat | ].
    split; [ unfold remapped_level; rewrite list_lookup_fmap, Hti;
             reflexivity | ].
    rewrite list_lookup_fmap, Hi. cbn. f_equal. apply remapped_unmoved.
    destruct Hcase as [Hc | [Hc | [Hc | [Hc | Hc]]]].
    + rewrite Hrigid in Hc. discriminate Hc.
    + lia.
    + left. exact Hc.
    + right. left. exact Hc.
    + right. right. rewrite <- Hvz. exact Hc.
  - exists tiles, tile. split; [ exact Hat | ]. split; assumption.
Qed.

Lemma vector_resize_length (n : nat) (value : R) (v : list R) :
  length (vector_resize n value v) = n.
Proof.
  unfold vector_resize. rewrite length_app, length_take, length_replicate. lia.
Qed.

Lemma vector_resize_new (n : nat) (value : R) (v : list R) (i : nat) :
  (length v <= i < n)%nat -> vector_resize n value v !! i = Some value.
Proof.
  intros Hi. unfold vector_resize. rewrite take_ge by lia.
  rewrite lookup_app_r by lia. apply lookup_replicate_2. lia.
Qed.

Lemma vector_resize_old (n : nat) (value : R) (v : list R) (i : nat) :
  (i < n)%nat -> (i < length v)%nat -> vector_resize n value v !! i = v !! i.
Proof.
  intros Hn Hi. unfold vector_resize.
  rewrite lookup_app_l by (rewrite length_take; lia).
  apply lookup_take_lt. exact Hn.
Qed.

(** X15.  [InitData] sets up one injection plane per level.  Whenever it
    returns, [zinject_plane_levels] has [finestLevel + 1] entries; the
    entries it had before are kept and every new one is
    [zinject_plane / gamma_boost], so that a container built with no level
    has all its planes there; [zinject_plane] and the flag are untouched.
    The first [Evolve] of such a level then moves the plane to
    [zinject_plane / gamma_boost - dt * beta_boost * c]. *)
Theorem InitData_planes (self self' : Container)
        (particles particles' : Particles) :
  InitData self particles = Normal (self', particles') ->
  length (zinject_plane_levels self') = (finestLevel + 1)%nat /\
  zinject_plane self' = zinject_plane self /\
  done_injecting_lev self' = done_injecting_lev self /\
  (forall lev : nat,
     (lev <= finestLevel)%nat ->
     (lev < length (zinject_plane_levels self))%nat ->
     zinject_plane_levels self' !! lev = zinject_plane_levels self !! lev) /\
  (forall lev : nat,
     (length (zinject_plane_levels self) <= lev <= finestLevel)%nat ->
     zinject_plane_levels self' !! lev
     = Some (zinject_plane self / gamma_boost) /\
     forall (Geom : nat -> Geometry) (grids : MultiFabs) (t dt : R)
            (a_dt_type : DtType) (skip_deposition : bool)
            (pushed : Particles),
       let first :=
         after_plane_update self' Geom lev dt
                            (zinject_plane self / gamma_boost) in
       zinject_plane_lev first
       = zinject_plane self / gamma_boost - dt * beta_boost * c /\
       Evolve self' Geom lev grids t dt a_dt_type skip_deposition pushed
       = (let* after :=
            PhysicalParticleContainer_Evolve first lev grids t dt a_dt_type
                                             skip_deposition pushed in
          Normal (first, after))).
Proof.
  intros Hrun. unfold InitData in Hrun.
  apply bind_Normal in Hrun. destruct Hrun as (ps1 & _ & Hrun).
  apply bind_Normal in Hrun. destruct Hrun as ([self2 ps2] & Hremap & Hrun).
  apply bind_Normal in Hrun. destruct Hrun as (ps3 & _ & Heq).
  injection Heq as <- <-.
  destruct (RemapParticles_container _ _ _ _ Hremap)
    as (Hlevels & Hplane & _ & Hdone).
  cbn [set_zinject_plane_levels zinject_plane_levels zinject_plane
       done_injecting_lev] in Hlevels, Hplane, Hdone.
  rewrite Hlevels.
  split; [ apply vector_resize_length | ].
  split; [ exact Hplane | ]. split; [ exact Hdone | ].
  split.
  - intros lev Hle Hold. apply vector_resize_old; lia.
  - intros lev Hlev.
    assert (Hz : zinject_plane_levels self2 !! lev
                 = Some (zinject_plane self / gamma_boost)).
    { rewrite Hlevels. apply vector_resize_new. lia. }
    split; [ rewrite <- Hlevels; exact Hz | ].
    intros Geom grids t dt a_dt_type skip_deposition pushed first.
    split; [ reflexivity | ].
    apply Evolve_unfold. exact Hz.
Qed.

End Code.

Arguments offset {FArrayBox IntVect DtType} _.
Arguments dt {FArrayBox IntVect DtType} _.
Arguments call_Geom {DtType} _ _.
Arguments call_dt {DtType} _.
Arguments call_t {DtType} _.
Arguments call_dt_type {DtType} _.
Arguments call_skip_deposition {DtType} _.

(** *** Worked runs *)

(** The runs below fix what the section leaves open: SI units, three space
    dimensions, opaque grid data, and for the base class a push without any
    field, in which every particle drifts by [dt] times its momentum. *)

Definition c_SI : R := 299792458.

Definition drift (dt : R) (p : Particle) : Particle :=
  with_position p (part_x p + dt * part_ux p,
                   part_y p + dt * part_uy p,
                   part_z p + dt * part_uz p).

Definition drift_push (call : PushPXCall unit unit unit) (sf : ScaleFields)
           (tile : Tile) : outcome Tile :=
  Normal (drift (dt call) <$> tile).

Definition whole_tile_call (dt : R) : PushPXCall unit unit unit :=
  {| exfab := tt; eyfab := tt; ezfab := tt; bxfab := tt; byfab := tt;
     bzfab := tt; ngE := tt; e_is_nodal := 0%Z; offset := 0; np_to_push := 2;
     lev := 0; gather_lev := 0; dt := dt; a_dt_type := tt |}.

(** A container for one level with the plane at [z = 10]. *)
Definition container_at (rigid done : bool) : Container :=
  {| zinject_plane := 20; rigid_advance := rigid; vzbeam_ave_boosted := 3;
     zinject_plane_levels := [10]; zinject_plane_lev := 10;
     zinject_plane_lev_previous := 11; done_injecting_lev := done;
     do_not_push := false; charge := 1; mass := 1;
     do_classical_radiation_reaction := false;
     do_field_ionization := false |}.

(** A particle that stays behind the plane and one that is ahead of it. *)
Definition behind : Particle :=
  {| part_x := 0; part_y := 0; part_z := 0;
     part_ux := 0; part_uy := 0; part_uz := 1; part_ion_lev := 0 |}.

Definition ahead : Particle :=
  {| part_x := 0; part_y := 0; part_z := 12;
     part_ux := 0; part_uy := 0; part_uz := 1; part_ion_lev := 0 |}.

Lemma PushPX_injecting_per_particle_witness :
  exists (restored : Tile) (saves : SaveBuffers),
    PushPX c_SI (1 / 2) unit unit unit drift_push (container_at true false)
           (whole_tile_call 1) [behind; ahead] = Normal (restored, saves) /\
    length restored = 2%nat.
Proof.
  destruct (PushPX_injecting_per_particle
              c_SI (1 / 2) unit unit unit drift_push (container_at true false)
              (whole_tile_call 1) [behind; ahead]
              (drift 1 <$> [behind; ahead])
              eq_refl eq_refl eq_refl eq_refl)
    as (restored & saves & Hrun & Hlen & _).
  exists restored, saves. split; [ exact Hrun | exact Hlen ].
Defined.

(** Without [rigid_advance], a particle behind the plane does not get its
    saved [z] back: it is moved on from there by [dt] times its velocity. *)
Lemma PushPX_ballistic_z_differs_from_saved_z :
  exists (q : Particle) (saves : SaveBuffers),
    PushPX c_SI (1 / 2) unit unit unit drift_push (container_at false false)
           (whole_tile_call 1) [behind] = Normal ([q], saves) /\
    part_z (drift 1 behind) <= zinject_plane_lev (container_at false false) /\
    momentum q = momentum behind /\
    part_z q <> part_z behind.
Proof.
  exists (undo_push c_SI (container_at false false) 1 behind (drift 1 behind)),
         (saves_of [behind]).
  split.
  - apply (PushPX_injecting_whole_tile
             c_SI (1 / 2) unit unit unit drift_push (container_at false false)
             (whole_tile_call 1) [behind] [drift 1 behind]
             eq_refl eq_refl eq_refl eq_refl).
  - assert (Hle : part_z (drift 1 behind)
                  <= zinject_plane_lev (container_at false false)).
    { cbn. lra. }
    split; [ exact Hle | ].
    unfold undo_push. destruct (decide _) as [_ | Hn]; [ | contradiction ].
    split; [ reflexivity | ].
    cbn. unfold c_SI.
    assert (Hpos : 0 < sqrt (1 + (0 * 0 + 0 * 0 + 1 * 1)
                                 * (1 / (299792458 * 299792458)))).
    { apply sqrt_lt_R0. lra. }
    pose proof (Rinv_0_lt_compat _ Hpos) as Hinv.
    unfold Rdiv. lra.
Qed.

(** With an offset the save kernel still runs over all [numParticles()]
    indices, and its first write beyond the save vectors is at index
    [numParticles() - offset]: here at once. *)
Lemma PushPX_offset_leaves_save_vectors :
  PushPX c_SI (1 / 2) unit unit unit drift_push (container_at true false)
         {| exfab := tt; eyfab := tt; ezfab := tt; bxfab := tt; byfab := tt;
            bzfab := tt; ngE := tt; e_is_nodal := 0%Z; offset := 1;
            np_to_push := 0; lev := 0; gather_lev := 0; dt := 1;
            a_dt_type := tt |} [behind]
  = OutOfBounds.
Proof. reflexivity. Qed.

Lemma PushPX_done_is_base_push_witness :
  PushPX c_SI (1 / 2) unit unit unit drift_push (container_at true true)
         (whole_tile_call 1) [behind; ahead]
  = Normal (drift 1 <$> [behind; ahead], empty_saves).
Proof.
  destruct (PushPX_done_is_base_push
              c_SI (1 / 2) unit unit unit drift_push (container_at true true)
              (whole_tile_call 1) [behind; ahead] eq_refl)
    as (_ & Hrun & _).
  exact Hrun.
Defined.

(** A base class with nothing to do in [Evolve] (no particle is pushed, no
    current is deposited), and a domain that is the same in all directions. *)
Definition idle_Evolve (self : Container) (lev : nat) (grids : unit)
           (t dt : R) (a_dt_type : unit) (skip_deposition : bool)
           (particles : Particles) : outcome (Particles * unit) :=
  Normal (particles, grids).

Definition box (lo hi : R) : Geometry :=
  {| ProbLo := fun _ => lo; ProbHi := fun _ => hi |}.

Definition step_in (lo hi dt : R) : EvolveCall unit :=
  {| call_Geom := fun _ => box lo hi; call_t := 0; call_dt := dt;
     call_dt_type := tt; call_skip_deposition := false |}.

(** A container for one level whose plane starts at [z0]. *)
Definition container_with_plane (z0 : R) : Container :=
  {| zinject_plane := 2 * z0; rigid_advance := false; vzbeam_ave_boosted := 0;
     zinject_plane_levels := [z0]; zinject_plane_lev := z0;
     zinject_plane_lev_previous := z0; done_injecting_lev := false;
     do_not_push := false; charge := 1; mass := 1;
     do_classical_radiation_reaction := false;
     do_field_ionization := false |}.

(** Level 0 of a container after one call, with the idle base class. *)
Definition advance (beta_boost moving_window_v : R) (call : EvolveCall unit)
           (self : Container) : Container :=
  match zinject_plane_levels self !! 0%nat with
  | Some z =>
      after_plane_update c_SI beta_boost moving_window_v 3 self
                         (call_Geom call) 0 (call_dt call) z
  | None => self
  end.

Lemma Evolve_idle (beta_boost moving_window_v : R) (call : EvolveCall unit)
      (self : Container) (particles : Particles) (z : R) :
  zinject_plane_levels self !! 0%nat = Some z ->
  Evolve c_SI beta_boost moving_window_v 3 unit unit idle_Evolve self
         (call_Geom call) 0 tt (call_t call) (call_dt call)
         (call_dt_type call) (call_skip_deposition call) particles
  = Normal (advance beta_boost moving_window_v call self, (particles, tt)).
Proof.
  intros Hz.
  rewrite (Evolve_unfold c_SI beta_boost moving_window_v 3 unit unit
                         idle_Evolve self _ 0 tt _ _ _ _ particles z Hz).
  unfold advance. rewrite Hz. reflexivity.
Qed.

Lemma advance_plane (beta_boost moving_window_v lo hi dt : R)
      (self : Container) (z : R) :
  zinject_plane_levels self !! 0%nat = Some z ->
  zinject_plane_levels (advance beta_boost moving_window_v (step_in lo hi dt) self)
    !! 0%nat = Some (z - dt * beta_boost * c_SI) /\
  done_injecting_lev (advance beta_boost moving_window_v (step_in lo hi dt) self)
  = plane_left_domain c_SI beta_boost moving_window_v
                      (z - dt * beta_boost * c_SI) lo hi.
Proof.
  intros Hz. unfold advance. rewrite Hz. split; [ | reflexivity ].
  unfold after_plane_update, set_injection_plane. cbn [zinject_plane_levels].
  apply list_lookup_insert_eq. eapply lookup_lt_Some; eauto.
Qed.

Lemma Evolve_advances_plane_and_sets_flag_witness :
  exists self' : Container,
    Evolve c_SI 0.866 0 3 unit unit idle_Evolve (container_with_plane 0.5)
           (fun _ => box 0 0.5) 0 tt 0 1e-9 tt false []
    = Normal (self', ([], tt)) /\
    zinject_plane_lev_previous self' = 0.5 /\
    zinject_plane_lev self' = 0.5 - 1e-9 * 0.866 * c_SI /\
    done_injecting_lev self' = false.
Proof.
  destruct (Evolve_advances_plane_and_sets_flag
              c_SI 0.866 0 3 unit unit idle_Evolve (container_with_plane 0.5)
              (fun _ => box 0 0.5) 0 tt 0 1e-9 tt false [] 0.5 eq_refl)
    as (self' & Hrun & Hprev & _ & Hcur & _ & _ & Hinside).
  exists self'. split; [ exact Hrun | ].
  split; [ exact Hprev | ]. split; [ exact Hcur | ].
  apply Hinside. unfold box, c_SI. cbn [ProbLo ProbHi]. lra.
Defined.

(** Three calls with a plane that starts at [0.5] in the domain [0, 0.5],
    [beta_boost = 0.866] and a window at rest: the plane is below the domain
    after the second call. *)
Definition leaving_calls : list (EvolveCall unit) :=
  [step_in 0 0.5 1e-9; step_in 0 0.5 1e-9; step_in 0 0.5 1e-9].

Definition leaving_trace : list Container :=
  let s1 := advance 0.866 0 (step_in 0 0.5 1e-9) (container_with_plane 0.5) in
  let s2 := advance 0.866 0 (step_in 0 0.5 1e-9) s1 in
  let s3 := advance 0.866 0 (step_in 0 0.5 1e-9) s2 in
  [s1; s2; s3].

Lemma leaving_trace_run :
  Evolve_calls c_SI 0.866 0 3 unit unit idle_Evolve 0 leaving_calls
               (container_with_plane 0.5) [] tt
  = Normal leaving_trace.
Proof.
  unfold leaving_calls, leaving_trace. cbn [Evolve_calls].
  erewrite Evolve_idle by reflexivity. cbn [bind].
  erewrite Evolve_idle by reflexivity. cbn [bind].
  erewrite Evolve_idle by reflexivity. cbn [bind].
  reflexivity.
Qed.

Lemma done_injecting_stays_set_while_bounds_recede_witness :
  exists s2 s3 : Container,
    leaving_trace !! 1%nat = Some s2 /\
    leaving_trace !! 2%nat = Some s3 /\
    done_injecting_lev s2 = true /\
    done_injecting_lev s3 = true.
Proof.
  eexists. eexists.
  split; [ reflexivity | ]. split; [ reflexivity | ].
  assert (Hs2 : done_injecting_lev
                  (advance 0.866 0 (step_in 0 0.5 1e-9)
                     (advance 0.866 0 (step_in 0 0.5 1e-9)
                        (container_with_plane 0.5))) = true).
  { destruct (advance_plane 0.866 0 0 0.5 1e-9 (container_with_plane 0.5)
                            0.5 eq_refl) as [H1 _].
    destruct (advance_plane 0.866 0 0 0.5 1e-9 _ _ H1) as [_ ->].
    apply plane_left_domain_true_iff. unfold c_SI. lra. }
  split; [ exact Hs2 | ].
  refine (done_injecting_stays_set_while_bounds_recede
            c_SI 0.866 0 3 unit unit idle_Evolve 0 leaving_calls
            (container_with_plane 0.5) [] tt leaving_trace
            _ leaving_trace_run 1 2 _ _ _ eq_refl eq_refl Hs2).
  - unfold leaving_calls, recedes_throughout, recedes_after,
      exit_side_recedes, step_in, box, c_SI.
    cbn [ProbLo ProbHi call_Geom call_dt]. repeat split; intros; lra.
  - lia.
Defined.

(** With the window set to move backwards at [c] while the domain [0, 0.9]
    stays where it is, a plane that starts above the domain is found outside
    by the first call and inside by the second: the flag goes from set to
    not set. *)
Lemma done_injecting_flag_is_reset :
  exists s1 s2 : Container,
    Evolve_calls c_SI (1 / 2) (- c_SI) 3 unit unit idle_Evolve 0
                 [step_in 0 0.9 1e-9; step_in 0 0.9 1e-9]
                 (container_with_plane 1.1) [] tt
    = Normal [s1; s2] /\
    done_injecting_lev s1 = true /\
    done_injecting_lev s2 = false.
Proof.
  exists (advance (1 / 2) (- c_SI) (step_in 0 0.9 1e-9)
                  (container_with_plane 1.1)),
         (advance (1 / 2) (- c_SI) (step_in 0 0.9 1e-9)
                  (advance (1 / 2) (- c_SI) (step_in 0 0.9 1e-9)
                           (container_with_plane 1.1))).
  split.
  - cbn [Evolve_calls].
    erewrite Evolve_idle by reflexivity. cbn [bind].
    erewrite Evolve_idle by reflexivity. cbn [bind]. reflexivity.
  - destruct (advance_plane (1 / 2) (- c_SI) 0 0.9 1e-9
                            (container_with_plane 1.1) 1.1 eq_refl)
      as [H1 ->].
    destruct (advance_plane (1 / 2) (- c_SI) 0 0.9 1e-9 _ _ H1) as [_ ->].
    split.
    + apply plane_left_domain_true_iff. unfold c_SI. lra.
    + apply not_true_is_false. intros H.
      apply plane_left_domain_true_iff in H. unfold c_SI in H. lra.
Qed.

(** For [PushP]: no grid field, a uniform external [Ez = 1], and for each of
    the four pushers the electric kick [u + q E dt / m]; the enumerators of
    [ParticlePusherAlgo] are numbered from zero. *)
Definition no_gather (fields : unit) (lev ti : nat) (pos : Real3)
           (EB : Real3 * Real3) : Real3 * Real3 := EB.

Definition uniform_Ez (tile : Tile) (ip : nat) (E : Real3) : Real3 :=
  let '(Ex, Ey, Ez) := E in (Ex, Ey, Ez + 1).

Definition no_external_B (tile : Tile) (ip : nat) (B : Real3) : Real3 := B.

Definition electric_kick (u E B : Real3) (q m dt : R) : Real3 :=
  let '(ux, uy, uz) := u in
  let '(Ex, Ey, Ez) := E in
  (ux + q * Ex * dt / m, uy + q * Ey * dt / m, uz + q * Ez * dt / m).

Lemma electric_kick_zero_dt : pusher_identity_at_zero_dt electric_kick.
Proof.
  intros [[ux uy] uz] [[Ex Ey] Ez] B q m. unfold electric_kick, Rdiv.
  f_equal; [ f_equal | ]; ring.
Qed.

Lemma drift_zero_dt (p : Particle) : drift 0 p = p.
Proof.
  destruct p as [x y z ux uy uz ion]. unfold drift, with_position. cbn.
  f_equal; ring.
Qed.

Lemma drift_push_zero_dt :
  base_push_identity_at_zero_dt unit unit unit drift_push.
Proof.
  intros call sf tile Hdt. unfold drift_push. rewrite Hdt. f_equal.
  induction tile as [| p rest IH]; [ reflexivity | ].
  rewrite fmap_cons, drift_zero_dt, IH. reflexivity.
Qed.

Lemma known_Boris (self : Container) : known_pusher 0 0 1 2 self.
Proof. right. left. reflexivity. Qed.

Lemma push_with_zero_dt_changes_nothing_witness :
  (exists saves : SaveBuffers,
     PushPX c_SI (1 / 2) unit unit unit drift_push (container_at true false)
            (whole_tile_call 0) [behind; ahead]
     = Normal ([behind; ahead], saves)) /\
  PushP 0 0 1 2 unit no_gather uniform_Ez no_external_B
        electric_kick electric_kick electric_kick electric_kick
        (container_at true false) 0 0 tt [[[behind; ahead]]]
  = Normal [[[behind; ahead]]].
Proof.
  destruct (push_with_zero_dt_changes_nothing
              c_SI (1 / 2) 0 0 1 2 unit unit unit unit drift_push
              no_gather uniform_Ez no_external_B
              electric_kick electric_kick electric_kick electric_kick
              electric_kick_zero_dt electric_kick_zero_dt
              electric_kick_zero_dt electric_kick_zero_dt
              drift_push_zero_dt) as [HPX HP].
  split.
  - apply HPX; [ reflexivity | right; reflexivity ].
  - apply HP.
    + apply known_Boris.
    + exists [[behind; ahead]]. reflexivity.
    + exists 10. reflexivity.
Defined.

(** One call of [PushP] with [dt = 1]: the particle ahead of the plane gets
    the kick, the one behind it does not, and neither moves. *)
Lemma PushP_run :
  PushP 0 0 1 2 unit no_gather uniform_Ez no_external_B
        electric_kick electric_kick electric_kick electric_kick
        (container_at true false) 0 1 tt [[[behind; ahead]]]
  = Normal [[[behind;
              kicked 0 0 1 unit no_gather uniform_Ez no_external_B
                     electric_kick electric_kick electric_kick electric_kick
                     (container_at true false) tt 0 0 1 [behind; ahead]
                     1 ahead]]].
Proof.
  rewrite (PushP_known 0 0 1 2 unit no_gather uniform_Ez no_external_B
             electric_kick electric_kick electric_kick electric_kick
             (container_at true false) 0 1 tt [[[behind; ahead]]]
             [[behind; ahead]] 10 (known_Boris _) eq_refl eq_refl eq_refl).
  cbn [imap insert list_insert compose]. unfold pushed_or_kept.
  destruct (decide (part_z behind <= 10)) as [_ | Hn];
    [ | exfalso; apply Hn; cbn; lra ].
  destruct (decide (part_z ahead <= 10)) as [Hle | _];
    [ exfalso; cbn in Hle; lra | ].
  reflexivity.
Qed.

Lemma PushP_never_moves_a_particle_witness :
  exists particles' : Particles,
    PushP 0 0 1 2 unit no_gather uniform_Ez no_external_B
          electric_kick electric_kick electric_kick electric_kick
          (container_at true false) 0 1 tt [[[behind; ahead]]]
    = Normal particles' /\
    positions particles' = positions [[[behind; ahead]]].
Proof.
  eexists. split; [ exact PushP_run | ].
  destruct (PushP_never_moves_a_particle
              0 0 1 2 unit no_gather uniform_Ez no_external_B
              electric_kick electric_kick electric_kick electric_kick
              (container_at true false) 0 1 tt) as [Hpos _].
  apply Hpos. exact PushP_run.
Defined.

(** A pusher number outside the enumerators, without radiation reaction. *)
Lemma unknown_pusher_7 (self : Container) :
  do_classical_radiation_reaction self = false -> ~ known_pusher 7 0 1 2 self.
Proof.
  intros Hcrr [H | [H | [H | H]]];
    [ rewrite Hcrr in H; discriminate H | discriminate H .. ].
Qed.

Lemma unknown_pusher_is_fatal_unspecified_species_is_not_witness :
  PushP_tile 7 0 1 2 unit no_gather uniform_Ez no_external_B
             electric_kick electric_kick electric_kick electric_kick
             (container_at true false) tt 0 1 0 [behind; ahead]
  = Aborted "Unknown particle pusher".
Proof.
  destruct (unknown_pusher_is_fatal_unspecified_species_is_not
              7 0 1 2 unit no_gather uniform_Ez no_external_B
              electric_kick electric_kick electric_kick electric_kick)
    as (_ & Htile & _).
  apply Htile. apply unknown_pusher_7. reflexivity.
Defined.

(** The getters do not abort on the unspecified species: they return. *)
Lemma unspecified_species_is_not_fatal :
  species.get_charge 1.602176634e-19 species.unspecified
  = Normal species.quiet_NaN /\
  species.get_mass 9.1093837015e-31 1.67262192369e-27 species.unspecified
  = Normal species.quiet_NaN /\
  ~ (exists msg : string,
       species.get_charge 1.602176634e-19 species.unspecified = Aborted msg) /\
  ~ (exists msg : string,
       species.get_mass 9.1093837015e-31 1.67262192369e-27 species.unspecified
       = Aborted msg).
Proof.
  repeat split; try reflexivity; intros [msg H]; discriminate H.
Qed.

(** *** More worked runs *)

Definition offset_call : PushPXCall unit unit unit :=
  {| exfab := tt; eyfab := tt; ezfab := tt; bxfab := tt; byfab := tt;
     bzfab := tt; ngE := tt; e_is_nodal := 0%Z; offset := 1; np_to_push := 1;
     lev := 0; gather_lev := 0; dt := 1; a_dt_type := tt |}.

(** The same call with [dt = 0]: a push of the second of two particles that
    is asked to move nothing. *)
Definition offset_call_zero_dt : PushPXCall unit unit unit :=
  {| exfab := tt; eyfab := tt; ezfab := tt; bxfab := tt; byfab := tt;
     bzfab := tt; ngE := tt; e_is_nodal := 0%Z; offset := 1; np_to_push := 1;
     lev := 0; gather_lev := 0; dt := 0; a_dt_type := tt |}.

(** C5.  The push with [dt = 0] must leave every particle as it is.  While
    injecting, [PushPX] called with [dt = 0] on the second of the two
    particles of a tile ([offset = 1], [np_to_push = 1]) does not: the save
    vectors are resized to [numParticles() = 2], the save kernel runs over
    both indices and writes slot [offset + i], and at [i = 1] that is slot 2,
    past the end of the vectors.  This happens before the push of the base
    class is reached, so whatever that push is; the same call on the whole
    tile ([offset = 0]) returns the two particles unchanged. *)
Theorem PushPX_zero_dt_on_part_of_tile_overruns_saves :
  (forall base_push : PushPXCall unit unit unit -> ScaleFields -> Tile
                      -> outcome Tile,
     PushPX c_SI (1 / 2) unit unit unit base_push (container_at true false)
            offset_call_zero_dt [behind; ahead] = OutOfBounds) /\
  PushPX c_SI (1 / 2) unit unit unit drift_push (container_at true false)
         (whole_tile_call 0) [behind; ahead]
  = Normal ([behind; ahead], saves_of [behind; ahead]).
Proof.
  split.
  - intros base_push. reflexivity.
  - rewrite (PushPX_injecting_whole_tile
               c_SI (1 / 2) unit unit unit drift_push
               (container_at true false) (whole_tile_call 0)
               [behind; ahead] [behind; ahead] eq_refl eq_refl
               (drift_push_zero_dt (whole_tile_call 0) _ [behind; ahead]
                                   eq_refl)
               eq_refl).
    f_equal. f_equal.
    apply zip_with_diag_id. intros p.
    apply (undo_push_zero_dt c_SI).
Qed.

Lemma PushPX_injecting_save_bounds_witness :
  PushPX c_SI (1 / 2) unit unit unit drift_push (container_at true false)
         offset_call [behind; ahead] = OutOfBounds.
Proof.
  destruct (PushPX_injecting_save_bounds
              c_SI (1 / 2) unit unit unit drift_push (container_at true false)
              offset_call [behind; ahead] eq_refl) as [Hpast _].
  apply Hpast; [ cbn; lia | discriminate ].
Defined.

(** A base class that does not know the pusher. *)
Definition failing_push (call : PushPXCall unit unit unit) (sf : ScaleFields)
           (tile : Tile) : outcome Tile :=
  Aborted "Unknown particle pusher".

Lemma PushPX_passes_on_abort_witness :
  PushPX c_SI (1 / 2) unit unit unit failing_push (container_at true false)
         (whole_tile_call 1) [behind; ahead]
  = Aborted "Unknown particle pusher".
Proof.
  apply (PushPX_passes_on_abort
           c_SI (1 / 2) unit unit unit failing_push (container_at true false)
           (whole_tile_call 1) [behind; ahead] "Unknown particle pusher").
  - reflexivity.
  - right. reflexivity.
Defined.

Definition further_behind : Particle :=
  {| part_x := 1; part_y := 2; part_z := -5;
     part_ux := 0; part_uy := 0; part_uz := 2; part_ion_lev := 0 |}.

Lemma PushPX_rigid_advance_keeps_spacing_witness :
  exists qi qj : Particle,
    zip_with (undo_push c_SI (container_at true false) 1)
             [behind; further_behind] (drift 1 <$> [behind; further_behind])
      !! 0%nat = Some qi /\
    zip_with (undo_push c_SI (container_at true false) 1)
             [behind; further_behind] (drift 1 <$> [behind; further_behind])
      !! 1%nat = Some qj /\
    part_z qi = part_z behind + 1 * 3 /\
    part_z qi - part_z qj = part_z behind - part_z further_behind.
Proof.
  refine (PushPX_rigid_advance_keeps_spacing
            c_SI (1 / 2) unit unit unit drift_push (container_at true false)
            (whole_tile_call 1) [behind; further_behind]
            (drift 1 <$> [behind; further_behind]) _ (saves_of _)
            eq_refl eq_refl eq_refl eq_refl eq_refl _
            0%nat 1%nat behind further_behind
            (drift 1 behind) (drift 1 further_behind)
            eq_refl eq_refl eq_refl eq_refl _ _).
  - apply (PushPX_injecting_whole_tile
             c_SI (1 / 2) unit unit unit drift_push (container_at true false)
             (whole_tile_call 1) [behind; further_behind]
             (drift 1 <$> [behind; further_behind])
             eq_refl eq_refl eq_refl eq_refl).
  - unfold drift, behind, with_position, container_at.
    cbn [part_z part_uz zinject_plane_lev]. lra.
  - unfold drift, further_behind, with_position, container_at.
    cbn [part_z part_uz zinject_plane_lev]. lra.
Defined.

Lemma Evolve_calls_plane_position_witness :
  length leaving_trace = length leaving_calls /\
  forall cn : Container,
    leaving_trace !! 2%nat = Some cn ->
    zinject_plane_lev cn
    = 0.5 - elapsed unit (take 3 leaving_calls) * 0.866 * c_SI.
Proof.
  destruct (Evolve_calls_plane_position
              c_SI 0.866 0 3 unit unit idle_Evolve 0 leaving_calls
              (container_with_plane 0.5) [] tt leaving_trace 0.5
              eq_refl leaving_trace_run) as [Hlen Hat].
  split; [ exact Hlen | ].
  intros cn Hcn. destruct (Hat 2%nat cn Hcn) as (_ & Hcur & _). exact Hcur.
Defined.

Lemma Evolve_outcomes_witness :
  Evolve c_SI 0.866 0 3 unit unit idle_Evolve (container_with_plane 0.5)
         (fun _ => box 0 0.5) 5 tt 0 1e-9 tt false []
  = OutOfBounds.
Proof.
  destruct (Evolve_outcomes
              c_SI 0.866 0 3 unit unit idle_Evolve (container_with_plane 0.5)
              (fun _ => box 0 0.5) 5 tt 0 1e-9 tt false []) as [Hnone _].
  apply Hnone. reflexivity.
Defined.

Lemma PushP_unknown_pusher_witness :
  PushP 7 0 1 2 unit no_gather uniform_Ez no_external_B
        electric_kick electric_kick electric_kick electric_kick
        (container_at true false) 0 1 tt [[[]; [behind; ahead]]]
  = Aborted "Unknown particle pusher".
Proof.
  destruct (PushP_unknown_pusher
              7 0 1 2 unit no_gather uniform_Ez no_external_B
              electric_kick electric_kick electric_kick electric_kick
              (container_at true false) 0 1 tt [[[]; [behind; ahead]]])
    as [_ Hunknown].
  destruct (Hunknown [[]; [behind; ahead]]
                     (unknown_pusher_7 (container_at true false) eq_refl)
                     eq_refl eq_refl
                     (ex_intro _ 10 eq_refl)) as [Habort _].
  apply Habort. apply Exists_cons_tl. apply Exists_cons_hd. discriminate.
Defined.

Lemma PushP_tile_run :
  PushP_tile 0 0 1 2 unit no_gather uniform_Ez no_external_B
             electric_kick electric_kick electric_kick electric_kick
             (container_at true false) tt 0 1 0 [behind; ahead]
  = Normal (imap (pushed_or_kept 0 0 1 unit no_gather uniform_Ez no_external_B
                    electric_kick electric_kick electric_kick electric_kick
                    (container_at true false) tt 0 0 1 10 [behind; ahead])
                 [behind; ahead]).
Proof.
  rewrite (PushP_tile_known 0 0 1 2 unit no_gather uniform_Ez no_external_B
             electric_kick electric_kick electric_kick electric_kick
             (container_at true false) tt 0 1 0 [behind; ahead]
             (known_Boris _)).
  reflexivity.
Qed.

Lemma PushP_ahead_of_plane_is_pushed_witness :
  exists q : Particle,
    imap (pushed_or_kept 0 0 1 unit no_gather uniform_Ez no_external_B
            electric_kick electric_kick electric_kick electric_kick
            (container_at true false) tt 0 0 1 10 [behind; ahead])
         [behind; ahead] !! 1%nat = Some q /\
    position q = position ahead /\
    part_ion_lev q = part_ion_lev ahead /\
    momentum q = electric_kick (momentum ahead) (0, 0, 0 + 1) (0, 0, 0) 1 1 1.
Proof.
  refine (PushP_ahead_of_plane_is_pushed
            0 0 1 2 unit no_gather uniform_Ez no_external_B
            electric_kick electric_kick electric_kick electric_kick
            (container_at true false) tt 0 1 0 [behind; ahead] _ 10
            (known_Boris _) eq_refl PushP_tile_run 1%nat ahead eq_refl _).
  unfold ahead. cbn [part_z]. lra.
Defined.

Lemma PushP_frame_witness :
  length [[[behind;
            kicked 0 0 1 unit no_gather uniform_Ez no_external_B
                   electric_kick electric_kick electric_kick electric_kick
                   (container_at true false) tt 0 0 1 [behind; ahead]
                   1 ahead]]]
  = length [[[behind; ahead]]].
Proof.
  destruct (PushP_frame
              0 0 1 2 unit no_gather uniform_Ez no_external_B
              electric_kick electric_kick electric_kick electric_kick
              (container_at true false) 0 1 tt [[[behind; ahead]]] _
              PushP_run) as [Hlen _].
  exact Hlen.
Defined.

(** A beam on one level whose mean velocity along [z] is taken to be [3];
    the frame is boosted with [gamma_boost = 2]. *)
Definition mean_velocity_3 (particles : Particles) (local : bool) : Real3 :=
  (0, 0, 3).

Lemma RemapParticles_outcomes_witness :
  RemapParticles c_SI 0.866 2 1 mean_velocity_3 (container_at true false)
                 [[[behind; ahead]]] = OutOfBounds /\
  exists particles' : Particles,
    RemapParticles c_SI 0.866 2 0 mean_velocity_3 (container_at true false)
                   [[[behind; ahead]]]
    = Normal (set_vzbeam_ave_boosted (container_at true false) 3, particles').
Proof.
  destruct (RemapParticles_outcomes
              c_SI 0.866 2 1 mean_velocity_3 (container_at true false)
              [[[behind; ahead]]]) as (_ & Hshort & _).
  destruct (RemapParticles_outcomes
              c_SI 0.866 2 0 mean_velocity_3 (container_at true false)
              [[[behind; ahead]]]) as (_ & _ & Hlong).
  split.
  - apply Hshort; [ reflexivity | cbn; lia ].
  - destruct Hlong as (particles' & Hrun & _);
      [ reflexivity | cbn; lia | ].
    exists particles'. exact Hrun.
Defined.

Lemma RemapParticles_run :
  RemapParticles c_SI 0.866 2 0 mean_velocity_3 (container_at true false)
                 [[[behind; ahead]]]
  = Normal (set_vzbeam_ave_boosted (container_at true false) 3,
            [[[remapped c_SI 0.866 2 3 behind;
               remapped c_SI 0.866 2 3 ahead]]]).
Proof.
  unfold RemapParticles.
  cbn [rigid_advance container_at Nat.add for_each_level].
  rewrite RemapParticles_level_spec. reflexivity.
Qed.

Lemma RemapParticles_moves_z_only_witness :
  all_but_z_of [[[remapped c_SI 0.866 2 3 behind;
                  remapped c_SI 0.866 2 3 ahead]]]
  = all_but_z_of [[[behind; ahead]]].
Proof.
  destruct (RemapParticles_moves_z_only
              c_SI 0.866 2 0 mean_velocity_3 (container_at true false) _
              [[[behind; ahead]]] _ RemapParticles_run) as [Hsame _].
  exact Hsame.
Defined.

Lemma RemapParticles_unmoved_witness :
  exists (tiles' : list Tile) (tile' : Tile),
    [[[remapped c_SI 0.866 2 3 behind; remapped c_SI 0.866 2 3 ahead]]]
      !! 0%nat = Some tiles' /\
    tiles' !! 0%nat = Some tile' /\
    tile' !! 0%nat = Some behind.
Proof.
  refine (RemapParticles_unmoved
            c_SI 0.866 2 0 mean_velocity_3 (container_at true false) _
            [[[behind; ahead]]] _ RemapParticles_run
            0%nat 0%nat 0%nat [[behind; ahead]] [behind; ahead] behind
            eq_refl eq_refl eq_refl _).
  right. right. right. left. reflexivity.
Defined.

(** A container as the constructor leaves it: the lab-frame plane at [z = 1]
    and no level yet; the base class adds the two particles at level 0. *)
Definition constructed : Container :=
  {| zinject_plane := 1; rigid_advance := false; vzbeam_ave_boosted := 0;
     zinject_plane_levels := []; zinject_plane_lev := 0;
     zinject_plane_lev_previous := 0; done_injecting_lev := false;
     do_not_push := false; charge := 1; mass := 1;
     do_classical_radiation_reaction := false;
     do_field_ionization := false |}.

Definition add_beam (self : Container) (lev : nat) (particles : Particles)
  : outcome Particles := Normal [[[behind; ahead]]].

Definition keep_distribution (particles : Particles) : outcome Particles :=
  Normal particles.

Lemma InitData_run :
  InitData c_SI 0.866 2 0 mean_velocity_3 add_beam keep_distribution
           constructed []
  = Normal (set_zinject_plane_levels constructed [1 / 2],
            [[[behind; ahead]]]).
Proof. reflexivity. Qed.

Lemma InitData_planes_witness :
  zinject_plane_levels (set_zinject_plane_levels constructed [1 / 2]) !! 0%nat
  = Some (zinject_plane constructed / 2).
Proof.
  destruct (InitData_planes
              c_SI 0.866 0 3 unit unit idle_Evolve 2 0
              mean_velocity_3 add_beam keep_distribution
              constructed _ [] _ InitData_run)
    as (_ & _ & _ & _ & Hnew).
  destruct (Hnew 0%nat) as [Hplane _]; [ cbn; lia | ].
  exact Hplane.
Defined.

End RigidInjected.

(** ** Macroscopic media: [MacroscopicProperties.H],
       [FieldAccessorFunctors.H] *)

Module Macroscopic.

Inductive MacroparameterInitType : Type := ConstantValue | ParserFunction.

(** [struct GetMacroparameter]; [m_parser] is an [amrex::ParserExecutor<3>],
    a compiled expression in three real arguments. *)
Record GetMacroparameter : Type := {
  m_type : MacroparameterInitType;
  m_value : R;
  m_parser : R -> R -> R -> R
}.

(** [GetMacroparameter::operator()].  The last [else] of the source, which
    aborts, is behind two tests that between them accept every enumerator. *)
Definition GetMacroparameter_call (self : GetMacroparameter) (x y z : R)
  : outcome R :=
  match m_type self with
  | ConstantValue => Normal (m_value self)
  | ParserFunction => Normal (m_parser self x y z)
  end.

(** What the template parameter [T_GetMacroparameter] has to offer: a call
    operator on three coordinates. *)
Class MacroparameterFunctor (T : Type) : Type :=
  call_macroparameter : T -> R -> R -> R -> outcome R.

#[global] Instance GetMacroparameter_functor
  : MacroparameterFunctor GetMacroparameter := GetMacroparameter_call.

Section Accessor.

(** [amrex::GpuArray<int,3>] and [amrex::GpuArray<amrex::Real,AMREX_SPACEDIM>]. *)
Variables IntArray3 RealArray : Type.

(** [WarpXUtilAlgo::getCellCoordinates] of [Utils/WarpXUtil.H]: the physical
    coordinates of the point of index [(i, j, k)] for a given staggering,
    lower corner and cell size. *)
Variable getCellCoordinates :
  Z -> Z -> Z -> IntArray3 -> RealArray -> RealArray -> R * R * R.

Context {T_GetMacroparameter : Type}
        `{MacroparameterFunctor T_GetMacroparameter}.

(** [struct FieldAccessorMacroscopic]; an [amrex::Array4] is read at four
    indices. *)
Record FieldAccessorMacroscopic : Type := {
  m_field : Z -> Z -> Z -> Z -> R;
  m_getParameter : T_GetMacroparameter;
  m_field_stag : IntArray3;
  m_domain_lo : RealArray;
  m_dx : RealArray
}.

(** [FieldAccessorMacroscopic::operator()]. *)
Definition FieldAccessorMacroscopic_call (self : FieldAccessorMacroscopic)
           (i j k ncomp : Z) : outcome R :=
  let '(x, y, z) :=
    getCellCoordinates i j k (m_field_stag self) (m_domain_lo self)
                       (m_dx self) in
  let* parameter := call_macroparameter (m_getParameter self) x y z in
  Normal (m_field self i j k ncomp / parameter).

End Accessor.

Arguments FieldAccessorMacroscopic IntArray3 RealArray T_GetMacroparameter
  : clear implicits.
Arguments FieldAccessorMacroscopic_call {IntArray3 RealArray}
  getCellCoordinates {T_GetMacroparameter _} self i j k ncomp.

(** The value of a macroparameter at a point. *)
Definition macroparameter_at (g : GetMacroparameter) (xyz : R * R * R) : R :=
  let '(x, y, z) := xyz in
  match m_type g with
  | ConstantValue => m_value g
  | ParserFunction => m_parser g x y z
  end.

(** C8.  The call operator of [GetMacroparameter] returns [m_value] for the
    type [ConstantValue] and [m_parser x y z] for the type [ParserFunction];
    the call operator of [FieldAccessorMacroscopic] returns the field at
    [(i, j, k, ncomp)] divided by the macroparameter at the coordinates that
    [getCellCoordinates] gives for [(i, j, k)], the staggering, the lower
    corner and the cell size.  Both return normally and are functions of
    their arguments alone. *)
Theorem FieldAccessorMacroscopic_divides_by_macroparameter
        (IntArray3 RealArray : Type)
        (getCellCoordinates :
           Z -> Z -> Z -> IntArray3 -> RealArray -> RealArray -> R * R * R)
        (self : FieldAccessorMacroscopic IntArray3 RealArray GetMacroparameter)
        (i j k ncomp : Z) :
  (forall (g : GetMacroparameter) (x y z : R),
     (m_type g = ConstantValue ->
      GetMacroparameter_call g x y z = Normal (m_value g)) /\
     (m_type g = ParserFunction ->
      GetMacroparameter_call g x y z = Normal (m_parser g x y z))) /\
  FieldAccessorMacroscopic_call getCellCoordinates self i j k ncomp
  = Normal (m_field _ _ self i j k ncomp
            / macroparameter_at
                (m_getParameter _ _ self)
                (getCellCoordinates i j k (m_field_stag _ _ self)
                                    (m_domain_lo _ _ self) (m_dx _ _ self))).
Proof.
  split.
  - intros g x y z. unfold GetMacroparameter_call.
    split; intros ->; reflexivity.
  - unfold FieldAccessorMacroscopic_call, macroparameter_at.
    destruct (getCellCoordinates i j k _ _ _) as [[x y] z].
    unfold call_macroparameter, GetMacroparameter_functor,
      GetMacroparameter_call.
    destruct (m_type (m_getParameter _ _ self)); reflexivity.
Qed.

(** A field of value [6] everywhere over a medium of constant parameter [3],
    and over one whose parameter is [x + y + z]; node-centred coordinates
    [lo + i * dx]. *)
Definition nodal_coordinates (i j k : Z) (stag : unit) (lo dx : R * R * R)
  : R * R * R :=
  let '(lx, ly, lz) := lo in
  let '(dx0, dx1, dx2) := dx in
  (lx + IZR i * dx0, ly + IZR j * dx1, lz + IZR k * dx2).

Definition accessor_over (g : GetMacroparameter)
  : FieldAccessorMacroscopic unit (R * R * R) GetMacroparameter :=
  {| m_field := fun _ _ _ _ => 6; m_getParameter := g; m_field_stag := tt;
     m_domain_lo := (0, 0, 0); m_dx := (1, 1, 1) |}.

Definition constant_3 : GetMacroparameter :=
  {| m_type := ConstantValue; m_value := 3;
     m_parser := fun x y z => x + y + z |}.

Definition parsed_sum : GetMacroparameter :=
  {| m_type := ParserFunction; m_value := 3;
     m_parser := fun x y z => x + y + z |}.

Lemma FieldAccessorMacroscopic_divides_by_macroparameter_witness :
  GetMacroparameter_call constant_3 1 2 3 = Normal 3 /\
  GetMacroparameter_call parsed_sum 1 2 3 = Normal (1 + 2 + 3) /\
  FieldAccessorMacroscopic_call nodal_coordinates (accessor_over constant_3)
                                1 2 3 0
  = Normal (6 / 3) /\
  FieldAccessorMacroscopic_call nodal_coordinates (accessor_over parsed_sum)
                                1 2 3 0
  = Normal (6 / (0 + 1 * 1 + (0 + 2 * 1) + (0 + 3 * 1))).
Proof.
  destruct (FieldAccessorMacroscopic_divides_by_macroparameter
              unit (R * R * R) nodal_coordinates (accessor_over constant_3)
              1 2 3 0) as [Hget Hconst].
  destruct (FieldAccessorMacroscopic_divides_by_macroparameter
              unit (R * R * R) nodal_coordinates (accessor_over parsed_sum)
              1 2 3 0) as [_ Hparsed].
  split; [ apply (Hget constant_3 1 2 3); reflexivity | ].
  split; [ apply (Hget parsed_sum 1 2 3); reflexivity | ].
  split; [ exact Hconst | exact Hparsed ].
Defined.

(** *** The coefficients of the E-update: [LaxWendroffAlgo],
        [BackwardEulerAlgo] *)

Module LaxWendroffAlgo.

Definition alpha (sigma epsilon dt : R) : R :=
  let fac1 := 0.5 * sigma * dt / epsilon in
  let alpha := (1 - fac1) / (1 + fac1) in
  alpha.

Definition beta (sigma epsilon dt : R) : R :=
  let fac1 := 0.5 * sigma * dt / epsilon in
  let beta := dt / (epsilon * (1 + fac1)) in
  beta.

End LaxWendroffAlgo.

Module BackwardEulerAlgo.

Definition alpha (sigma epsilon dt : R) : R :=
  let fac1 := sigma * dt / epsilon in
  let alpha := 1 / (1 + fac1) in
  alpha.

Definition beta (sigma epsilon dt : R) : R :=
  let fac1 := sigma * dt / epsilon in
  let beta := dt / (epsilon * (1 + fac1)) in
  beta.

End BackwardEulerAlgo.

(** [sigma * dt / epsilon] for a passive medium and a forward step. *)
Lemma damping_factor_nonneg (sigma epsilon dt : R) :
  0 <= sigma -> 0 < epsilon -> 0 <= dt -> 0 <= sigma * dt / epsilon.
Proof.
  intros Hs He Hd. unfold Rdiv.
  apply Rmult_le_pos; [ apply Rmult_le_pos; assumption | ].
  left. apply Rinv_0_lt_compat. exact He.
Qed.

Lemma inverse_of_shifted (f : R) :
  0 <= f -> 0 < / (1 + f) <= 1 /\ / (1 + f) * (1 + f) = 1.
Proof.
  intros Hf.
  assert (Hpos : 0 < / (1 + f)) by (apply Rinv_0_lt_compat; lra).
  assert (Hinv : / (1 + f) * (1 + f) = 1) by (apply Rinv_l; lra).
  split; [ | exact Hinv ]. split; [ exact Hpos | nra ].
Qed.

(** X16.  Lax-Wendroff coefficients of a medium of conductivity
    [sigma >= 0] and permittivity [epsilon > 0] for a step [dt >= 0]:
    [alpha] lies in [(-1, 1]], [beta] lies in [[0, dt / epsilon]],
    [alpha + sigma * beta = 1], and [alpha] is negative exactly when
    [sigma * dt > 2 * epsilon]. *)
Theorem LaxWendroffAlgo_coefficients (sigma epsilon dt : R) :
  0 <= sigma -> 0 < epsilon -> 0 <= dt ->
  -1 < LaxWendroffAlgo.alpha sigma epsilon dt <= 1 /\
  0 <= LaxWendroffAlgo.beta sigma epsilon dt <= dt / epsilon /\
  LaxWendroffAlgo.alpha sigma epsilon dt
  + sigma * LaxWendroffAlgo.beta sigma epsilon dt = 1 /\
  (LaxWendroffAlgo.alpha sigma epsilon dt < 0 <-> 2 * epsilon < sigma * dt).
Proof.
  intros Hs He Hd.
  pose proof (damping_factor_nonneg sigma epsilon dt Hs He Hd) as Hf.
  unfold LaxWendroffAlgo.alpha, LaxWendroffAlgo.beta.
  assert (Hfac : 0.5 * sigma * dt / epsilon = 0.5 * (sigma * dt / epsilon))
    by (unfold Rdiv; ring).
  rewrite Hfac.
  set (f := sigma * dt / epsilon) in *.
  destruct (inverse_of_shifted (0.5 * f)) as [[Hq0 Hq1] Hq]; [ lra | ].
  assert (Hdt : 0 <= dt / epsilon).
  { unfold Rdiv. apply Rmult_le_pos; [ exact Hd | ].
    left. apply Rinv_0_lt_compat. exact He. }
  assert (Hbeta : dt / (epsilon * (1 + 0.5 * f))
                  = dt / epsilon * / (1 + 0.5 * f)).
  { unfold Rdiv. rewrite Rinv_mult. ring. }
  assert (Hsb : sigma * (dt / epsilon) = f) by (unfold f, Rdiv; ring).
  assert (Hscaled : f * epsilon = sigma * dt).
  { unfold f. field. lra. }
  rewrite Hbeta.
  set (d := dt / epsilon) in *.
  assert (Halpha : (1 - 0.5 * f) / (1 + 0.5 * f) = 2 * / (1 + 0.5 * f) - 1).
  { unfold Rdiv. lra. }
  rewrite Halpha.
  set (q := / (1 + 0.5 * f)) in *.
  assert (Hfq : f * q = 2 - 2 * q) by lra.
  assert (Hdq : 0 <= d * q) by (apply Rmult_le_pos; lra).
  assert (Hdq' : 0 <= d * (1 - q)) by (apply Rmult_le_pos; lra).
  split; [ lra | ].
  split; [ lra | ].
  split.
  - replace (sigma * (d * q)) with (f * q) by (rewrite <- Hsb; ring).
    lra.
  - assert (Hsign : 2 * q - 1 < 0 <-> 2 < f).
    { split; intros H.
      + destruct (Rle_or_lt f 2) as [Hle | Hgt]; [ | exact Hgt ].
        assert (0 <= (2 - f) * q) by (apply Rmult_le_pos; lra). lra.
      + assert (0 < (f - 2) * q) by (apply Rmult_lt_0_compat; lra). lra. }
    rewrite Hsign, <- Hscaled. split; intros H.
    + apply Rmult_lt_compat_r; assumption.
    + apply Rmult_lt_reg_r with epsilon; assumption.
Qed.

(** X17.  Backward-Euler coefficients under the same conditions: [alpha]
    lies in [(0, 1]], [beta] lies in [[0, dt / epsilon]],
    [alpha + sigma * beta = 1] and [beta = alpha * dt / epsilon]. *)
Theorem BackwardEulerAlgo_coefficients (sigma epsilon dt : R) :
  0 <= sigma -> 0 < epsilon -> 0 <= dt ->
  0 < BackwardEulerAlgo.alpha sigma epsilon dt <= 1 /\
  0 <= BackwardEulerAlgo.beta sigma epsilon dt <= dt / epsilon /\
  BackwardEulerAlgo.alpha sigma epsilon dt
  + sigma * BackwardEulerAlgo.beta sigma epsilon dt = 1 /\
  BackwardEulerAlgo.beta sigma epsilon dt
  = BackwardEulerAlgo.alpha sigma epsilon dt * dt / epsilon.
Proof.
  intros Hs He Hd.
  pose proof (damping_factor_nonneg sigma epsilon dt Hs He Hd) as Hf.
  unfold BackwardEulerAlgo.alpha, BackwardEulerAlgo.beta.
  set (f := sigma * dt / epsilon) in *.
  destruct (inverse_of_shifted f Hf) as [[Hq0 Hq1] Hq].
  assert (Hdt : 0 <= dt / epsilon).
  { unfold Rdiv. apply Rmult_le_pos; [ exact Hd | ].
    left. apply Rinv_0_lt_compat. exact He. }
  assert (Hbeta : dt / (epsilon * (1 + f)) = dt / epsilon * / (1 + f)).
  { unfold Rdiv. rewrite Rinv_mult. ring. }
  assert (Hsb : sigma * (dt / epsilon) = f) by (unfold f, Rdiv; ring).
  rewrite Hbeta.
  set (d := dt / epsilon) in *.
  assert (Halpha : 1 / (1 + f) = / (1 + f)) by (unfold Rdiv; ring).
  rewrite Halpha.
  set (q := / (1 + f)) in *.
  assert (Hfq : f * q = 1 - q) by lra.
  assert (Hdq : 0 <= d * q) by (apply Rmult_le_pos; lra).
  assert (Hdq' : 0 <= d * (1 - q)) by (apply Rmult_le_pos; lra).
  split; [ lra | ].
  split; [ lra | ].
  split.
  - replace (sigma * (d * q)) with (f * q) by (rewrite <- Hsb; ring).
    lra.
  - unfold d, Rdiv. ring.
Qed.

(** X18.  The two schemes side by side, under the same conditions: the
    Lax-Wendroff [alpha] is never above the backward-Euler one, the
    Lax-Wendroff [beta] is never below the backward-Euler one, and in a medium
    without conductivity both give [alpha = 1] and [beta = dt / epsilon]. *)
Theorem LaxWendroff_and_BackwardEuler (sigma epsilon dt : R) :
  0 <= sigma -> 0 < epsilon -> 0 <= dt ->
  LaxWendroffAlgo.alpha sigma epsilon dt
  <= BackwardEulerAlgo.alpha sigma epsilon dt /\
  BackwardEulerAlgo.beta sigma epsilon dt
  <= LaxWendroffAlgo.beta sigma epsilon dt /\
  (sigma = 0 ->
   LaxWendroffAlgo.alpha sigma epsilon dt = 1 /\
   BackwardEulerAlgo.alpha sigma epsilon dt = 1 /\
   LaxWendroffAlgo.beta sigma epsilon dt = dt / epsilon /\
   BackwardEulerAlgo.beta sigma epsilon dt = dt / epsilon).
Proof.
  intros Hs He Hd.
  pose proof (damping_factor_nonneg sigma epsilon dt Hs He Hd) as Hf.
  unfold LaxWendroffAlgo.alpha, LaxWendroffAlgo.beta,
    BackwardEulerAlgo.alpha, BackwardEulerAlgo.beta.
  assert (Hfac : 0.5 * sigma * dt / epsilon = 0.5 * (sigma * dt / epsilon))
    by (unfold Rdiv; ring).
  rewrite Hfac.
  set (f := sigma * dt / epsilon) in *.
  destruct (inverse_of_shifted (0.5 * f)) as [[Hh0 Hh1] Hh]; [ lra | ].
  destruct (inverse_of_shifted f Hf) as [[Hq0 Hq1] Hq].
  assert (Hdt : 0 <= dt / epsilon).
  { unfold Rdiv. apply Rmult_le_pos; [ exact Hd | ].
    left. apply Rinv_0_lt_compat. exact He. }
  assert (HbetaLW : dt / (epsilon * (1 + 0.5 * f))
                    = dt / epsilon * / (1 + 0.5 * f)).
  { unfold Rdiv. rewrite Rinv_mult. ring. }
  assert (HbetaBE : dt / (epsilon * (1 + f)) = dt / epsilon * / (1 + f)).
  { unfold Rdiv. rewrite Rinv_mult. ring. }
  rewrite HbetaLW, HbetaBE.
  assert (Horder : / (1 + f) <= / (1 + 0.5 * f)).
  { apply Rinv_le_contravar; lra. }
  assert (Hzero : sigma = 0 -> f = 0).
  { intros ->. unfold f, Rdiv. ring. }
  replace ((1 - 0.5 * f) / (1 + 0.5 * f)) with ((1 - 0.5 * f) * / (1 + 0.5 * f))
    by reflexivity.
  replace (1 / (1 + f)) with (/ (1 + f)) by (unfold Rdiv; ring).
  set (h := / (1 + 0.5 * f)) in *.
  set (q := / (1 + f)) in *.
  split; [ | split ].
  - assert (Hh' : (1 - 0.5 * f) * h = 2 * h - 1) by nra.
    assert (Hq' : f * q = 1 - q) by nra.
    rewrite Hh'.
    assert (Hhq : (2 * h - 1 - q) * ((1 + 0.5 * f) * (1 + f))
                  = - (0.5 * f * f)).
    { replace ((2 * h - 1 - q) * ((1 + 0.5 * f) * (1 + f)))
        with (2 * (h * (1 + 0.5 * f)) * (1 + f)
              - (1 + 0.5 * f) * (1 + f)
              - (q * (1 + f)) * (1 + 0.5 * f)) by ring.
      rewrite Hh, Hq. lra. }
    assert (Hden : 0 < (1 + 0.5 * f) * (1 + f))
      by (apply Rmult_lt_0_compat; lra).
    assert (Hle : (2 * h - 1 - q) * ((1 + 0.5 * f) * (1 + f)) <= 0).
    { rewrite Hhq. pose proof (Rle_0_sqr f) as Hsq. unfold Rsqr in Hsq. lra. }
    destruct (Rle_or_lt (2 * h - 1 - q) 0) as [Hok | Hbad]; [ lra | ].
    pose proof (Rmult_lt_0_compat _ _ Hbad Hden). lra.
  - apply Rmult_le_compat_l; assumption.
  - intros H0. pose proof (Hzero H0) as Hf0.
    rewrite Hf0 in Hh, Hq.
    assert (Hh1' : h = 1) by lra.
    assert (Hq1' : q = 1) by lra.
    rewrite Hh1', Hq1', Hf0. repeat split; lra.
Qed.

Lemma LaxWendroffAlgo_coefficients_witness :
  LaxWendroffAlgo.alpha 1 2 8 < 0 /\
  LaxWendroffAlgo.alpha 1 2 8 + 1 * LaxWendroffAlgo.beta 1 2 8 = 1.
Proof.
  destruct (LaxWendroffAlgo_coefficients 1 2 8) as (_ & _ & Hsum & Hneg);
    [ lra | lra | lra | ].
  split; [ apply Hneg; lra | exact Hsum ].
Defined.

Lemma BackwardEulerAlgo_coefficients_witness :
  0 < BackwardEulerAlgo.alpha 1 2 8 <= 1 /\
  BackwardEulerAlgo.alpha 1 2 8 + 1 * BackwardEulerAlgo.beta 1 2 8 = 1.
Proof.
  destruct (BackwardEulerAlgo_coefficients 1 2 8) as (Hrange & _ & Hsum & _);
    [ lra | lra | lra | ].
  split; [ exact Hrange | exact Hsum ].
Defined.

Lemma LaxWendroff_and_BackwardEuler_witness :
  LaxWendroffAlgo.alpha 1 2 8 <= BackwardEulerAlgo.alpha 1 2 8 /\
  LaxWendroffAlgo.beta 0 2 8 = 8 / 2.
Proof.
  destruct (LaxWendroff_and_BackwardEuler 1 2 8) as (Halpha & _);
    [ lra | lra | lra | ].
  destruct (LaxWendroff_and_BackwardEuler 0 2 8) as (_ & _ & Hvacuum);
    [ lra | lra | lra | ].
  destruct (Hvacuum eq_refl) as (_ & _ & Hbeta & _).
  split; [ exact Halpha | exact Hbeta ].
Defined.

End Macroscopic.

(** ** Proton-boron fusion: [ProtonBoronFusionCrossSection.H] *)

Module Fusion.

(** A value together with the divisors of the divisions that were executed to
    obtain it, in the order of execution. *)
Definition Traced (A : Type) : Type := (A * list R)%type.

Definition ret {A : Type} (a : A) : Traced A := (a, []).

Definition then_ {A B : Type} (m : Traced A) (k : A -> Traced B) : Traced B :=
  let '(a, divisors1) := m in
  let '(b, divisors2) := k a in
  (b, divisors1 ++ divisors2).

(** [x / y]. *)
Definition div (x y : R) : Traced R := (x / y, [y]).

Definition value {A : Type} (m : Traced A) : A := fst m.
Definition divisors {A : Type} (m : Traced A) : list R := snd m.

Declare Scope traced_scope.
Delimit Scope traced_scope with traced.
Notation "'let/' x ':=' m 'in' k" := (then_ m (fun x => k))
  (at level 10, x name, m at level 100, k at level 200) : traced_scope.
Local Open Scope traced_scope.

Section CrossSection.

(** [PhysConst::q_e], [PhysConst::m_p], [PhysConst::ep0], [PhysConst::hbar]
    of [Utils/WarpXConst.H]. *)
Variables q_e m_p ep0 hbar : R.

(** The [constexpr] quantities are evaluated where the source declares them,
    after the test on the energy. *)
Definition ProtonBoronFusionCrossSection (E_kin_star : R) : Traced R :=
  (* If kinetic energy is 0, return a 0 cross section and avoid later
     division by 0. *)
  if decide (E_kin_star = 0) then ret 0
  else
    (* Fits use energy in keV and MeV *)
    let/ joule_to_kev := div 1e-3 q_e in
    let/ joule_to_mev := div 1e-6 q_e in
    let E_kev := E_kin_star * joule_to_kev in
    let E_mev := E_kin_star * joule_to_mev in
    (* Compute Gamow factor, in MeV *)
    let one_pr := 1 in
    let Z_boron := 5 in
    let m_boron := 10.7319 * m_p in
    let/ mass_ratio := div m_boron m_p in
    let/ m_reduced := div m_boron (one_pr + mass_ratio) in
    let/ half_m_reduced := div m_reduced 2 in
    let/ coupling1 := div (q_e * q_e * Z_boron) (2 * ep0 * hbar) in
    let/ coupling2 := div (q_e * q_e * Z_boron) (2 * ep0 * hbar) in
    let gamow_factor :=
      half_m_reduced * coupling1 * coupling2 * joule_to_mev in
    (* Compute astrophysical factor, in MeV barn, using the fits *)
    let E_lim1 := 400 in
    let E_lim2 := 642 in
    let/ astrophysical_factor :=
      if decide (E_kev < E_lim1) then
        let C0 := 197 in
        let C1 := 0.24 in
        let C2 := 2.31e-4 in
        let AL := 1.82e4 in
        let EL := 148 in
        let dEL_sq := 2.35 * 2.35 in
        let/ resonance := div AL ((E_kev - EL) * (E_kev - EL) + dEL_sq) in
        ret (C0 + C1 * E_kev + C2 * E_kev * E_kev + resonance)
      else if decide (E_kev < E_lim2) then
        let D0 := 330 in
        let D1 := 66.1 in
        let D2 := -20.3 in
        let D5 := -1.58 in
        let E_norm := (E_kev - 400) * 1e-2 in
        ret (D0 + D1 * E_norm + D2 * E_norm * E_norm + D5 * E_norm ^ 5)
      else
        let A0 := 2.57e6 in
        let A1 := 5.67e5 in
        let A2 := 1.34e5 in
        let A3 := 5.68e5 in
        let E0 := 581.3 in
        let E1 := 1083 in
        let E2 := 2405 in
        let E3 := 3344 in
        let dE0_sq := 85.7 * 85.7 in
        let dE1_sq := 234 * 234 in
        let dE2_sq := 138 * 138 in
        let dE3_sq := 309 * 309 in
        let B := 4.38 in
        let/ peak0 := div A0 ((E_kev - E0) * (E_kev - E0) + dE0_sq) in
        let/ peak1 := div A1 ((E_kev - E1) * (E_kev - E1) + dE1_sq) in
        let/ peak2 := div A2 ((E_kev - E2) * (E_kev - E2) + dE2_sq) in
        let/ peak3 := div A3 ((E_kev - E3) * (E_kev - E3) + dE3_sq) in
        ret (peak0 + peak1 + peak2 + peak3 + B) in
    (* Compute cross section, in barn *)
    let/ s_over_e := div astrophysical_factor E_mev in
    let/ gamow_over_e := div gamow_factor E_mev in
    let cross_section_b := s_over_e * exp (- sqrt gamow_over_e) in
    (* Convert cross section to SI units: barn to square meter *)
    let barn_to_sqm := 1e-28 in
    ret (cross_section_b * barn_to_sqm).

End CrossSection.

(** *** The divisors *)

Lemma mass_ratio_divisor (m_p : R) :
  m_p <> 0 -> 1 + 10.7319 * m_p / m_p <> 0.
Proof.
  intros Hm. replace (10.7319 * m_p / m_p) with 10.7319 by (field; exact Hm).
  lra.
Qed.

Lemma coupling_divisor (ep0 hbar : R) :
  ep0 <> 0 -> hbar <> 0 -> 2 * ep0 * hbar <> 0.
Proof.
  intros He Hh. repeat apply Rmult_integral_contrapositive_currified;
    [ lra | exact He | exact Hh ].
Qed.

Lemma fit_divisor (x centre width_sq : R) :
  0 < width_sq -> (x - centre) * (x - centre) + width_sq <> 0.
Proof. intros Hw. pose proof (Rle_0_sqr (x - centre)) as Hsq. unfold Rsqr in Hsq. lra. Qed.

Lemma energy_divisor (E unit_factor q_e : R) :
  E <> 0 -> unit_factor <> 0 -> q_e <> 0 -> E * (unit_factor / q_e) <> 0.
Proof.
  intros HE Hu Hq. apply Rmult_integral_contrapositive_currified;
    [ exact HE | ].
  unfold Rdiv. apply Rmult_integral_contrapositive_currified;
    [ exact Hu | apply Rinv_neq_0_compat; exact Hq ].
Qed.

Ltac divisor_is_nonzero :=
  first [ assumption
        | apply mass_ratio_divisor; assumption
        | apply coupling_divisor; assumption
        | apply fit_divisor; lra
        | apply energy_divisor; [ assumption | lra | assumption ]
        | lra ].

Ltac run_traced :=
  cbv beta iota zeta delta [then_ div ret divisors value fst snd app].

Lemma ProtonBoronFusionCrossSection_zero (q_e m_p ep0 hbar : R) :
  ProtonBoronFusionCrossSection q_e m_p ep0 hbar 0 = (0, []).
Proof.
  unfold ProtonBoronFusionCrossSection.
  destruct (decide (0 = 0)) as [_ | Hn]; [ reflexivity | contradiction ].
Qed.

Lemma ProtonBoronFusionCrossSection_divisors (q_e m_p ep0 hbar E : R) :
  q_e <> 0 -> m_p <> 0 -> ep0 <> 0 -> hbar <> 0 -> E <> 0 ->
  Forall (fun d => d <> 0)
         (divisors (ProtonBoronFusionCrossSection q_e m_p ep0 hbar E)).
Proof.
  intros Hq Hm He Hh HE. unfold ProtonBoronFusionCrossSection.
  destruct (decide (E = 0)) as [H0 | _]; [ contradiction | ].
  run_traced.
  destruct (decide (_ < 400)) as [Hlow | Hnotlow];
    [ | destruct (decide (_ < 642)) as [Hmid | Hhigh] ];
    run_traced; repeat constructor; divisor_is_nonzero.
Qed.

Lemma ProtonBoronFusionCrossSection_divides_by_energy
      (q_e m_p ep0 hbar E : R) :
  E <> 0 ->
  In (E * (1e-6 / q_e))
     (divisors (ProtonBoronFusionCrossSection q_e m_p ep0 hbar E)).
Proof.
  intros HE. unfold ProtonBoronFusionCrossSection.
  destruct (decide (E = 0)) as [H0 | _]; [ contradiction | ].
  run_traced.
  destruct (decide (_ < 400)) as [Hlow | Hnotlow];
    [ | destruct (decide (_ < 642)) as [Hmid | Hhigh] ];
    run_traced; cbn [In]; auto 20.
Qed.

(** C7.  With physical constants that are not zero: for a kinetic energy of
    zero the function returns [0] at once and no division is executed; for
    every other energy each division that is executed -- by the energy in
    MeV, by the denominators of the fits, and in the constants -- has a
    divisor that is not zero. *)
Theorem ProtonBoronFusionCrossSection_never_divides_by_zero
        (q_e m_p ep0 hbar : R) :
  q_e <> 0 -> m_p <> 0 -> ep0 <> 0 -> hbar <> 0 ->
  value (ProtonBoronFusionCrossSection q_e m_p ep0 hbar 0) = 0 /\
  divisors (ProtonBoronFusionCrossSection q_e m_p ep0 hbar 0) = [] /\
  forall E : R,
    E <> 0 ->
    In (E * (1e-6 / q_e))
       (divisors (ProtonBoronFusionCrossSection q_e m_p ep0 hbar E)) /\
    Forall (fun d => d <> 0)
           (divisors (ProtonBoronFusionCrossSection q_e m_p ep0 hbar E)).
Proof.
  intros Hq Hm He Hh.
  rewrite ProtonBoronFusionCrossSection_zero.
  split; [ reflexivity | ]. split; [ reflexivity | ].
  intros E HE. split.
  - apply ProtonBoronFusionCrossSection_divides_by_energy. exact HE.
  - apply ProtonBoronFusionCrossSection_divisors; assumption.
Qed.

(** The constants in SI units, and a kinetic energy of 100 keV. *)
Definition q_e_SI : R := 1.602176634e-19.
Definition m_p_SI : R := 1.67262192369e-27.
Definition ep0_SI : R := 8.8541878128e-12.
Definition hbar_SI : R := 1.054571817e-34.

Lemma ProtonBoronFusionCrossSection_never_divides_by_zero_witness :
  divisors (ProtonBoronFusionCrossSection q_e_SI m_p_SI ep0_SI hbar_SI 0) = []
  /\ Forall (fun d => d <> 0)
            (divisors (ProtonBoronFusionCrossSection q_e_SI m_p_SI ep0_SI
                                                     hbar_SI 1.602176634e-14)).
Proof.
  assert (Hq : q_e_SI <> 0) by (unfold q_e_SI; lra).
  assert (Hm : m_p_SI <> 0) by (unfold m_p_SI; lra).
  assert (He : ep0_SI <> 0) by (unfold ep0_SI; lra).
  assert (Hh : hbar_SI <> 0) by (unfold hbar_SI; lra).
  destruct (ProtonBoronFusionCrossSection_never_divides_by_zero
              q_e_SI m_p_SI ep0_SI hbar_SI Hq Hm He Hh)
    as (_ & Hnone & Hall).
  split; [ exact Hnone | ].
  apply Hall. lra.
Defined.

(** *** The sign of the cross section *)

Lemma low_fit_positive (x : R) :
  0 < x ->
  0 < 197 + 0.24 * x + 2.31e-4 * x * x
      + 1.82e4 / ((x - 148) * (x - 148) + 2.35 * 2.35).
Proof.
  intros Hx.
  assert (Hres : 0 < 1.82e4 / ((x - 148) * (x - 148) + 2.35 * 2.35)).
  { apply Rdiv_lt_0_compat; [ lra | ].
    pose proof (Rle_0_sqr (x - 148)) as Hsq. unfold Rsqr in Hsq. lra. }
  assert (Hxx : 0 < x * x) by (apply Rmult_lt_0_compat; assumption).
  lra.
Qed.

Lemma mid_fit_positive (n : R) :
  0 <= n < 2.42 ->
  0 < 330 + 66.1 * n + -20.3 * n * n + -1.58 * n ^ 5.
Proof.
  intros [H0 H1].
  assert (H2 : n * n <= 2.42 * 2.42) by (apply Rmult_le_compat; lra).
  assert (H2' : 0 <= n * n) by (apply Rmult_le_pos; assumption).
  assert (H4 : (n * n) * (n * n) <= (2.42 * 2.42) * (2.42 * 2.42))
    by (apply Rmult_le_compat; lra).
  assert (H4' : 0 <= (n * n) * (n * n)) by (apply Rmult_le_pos; assumption).
  assert (H5 : (n * n) * (n * n) * n
               <= (2.42 * 2.42) * (2.42 * 2.42) * 2.42)
    by (apply Rmult_le_compat; lra).
  replace (n ^ 5) with ((n * n) * (n * n) * n) by ring.
  lra.
Qed.

Lemma peak_positive (a x centre width_sq : R) :
  0 < a -> 0 < width_sq ->
  0 < a / ((x - centre) * (x - centre) + width_sq).
Proof.
  intros Ha Hw. apply Rdiv_lt_0_compat; [ exact Ha | ].
  pose proof (Rle_0_sqr (x - centre)) as Hsq. unfold Rsqr in Hsq. lra.
Qed.

Lemma barn_factor_positive (s e_mev g : R) :
  0 < s -> 0 < e_mev -> 0 < s / e_mev * exp (- sqrt g) * 1e-28.
Proof.
  intros Hs He.
  apply Rmult_lt_0_compat; [ | lra ].
  apply Rmult_lt_0_compat; [ | apply exp_pos ].
  apply Rdiv_lt_0_compat; assumption.
Qed.

(** X19.  With positive elementary charge and proton mass and non-zero
    [ep0] and [hbar] (so that the Gamow factor under the square root is
    positive) the cross section of a positive kinetic energy is positive, in
    each of the three ranges of the fit. *)
Theorem ProtonBoronFusionCrossSection_positive (q_e m_p ep0 hbar E : R) :
  0 < q_e -> 0 < m_p -> ep0 <> 0 -> hbar <> 0 -> 0 < E ->
  0 < value (ProtonBoronFusionCrossSection q_e m_p ep0 hbar E).
Proof.
  intros Hq Hm He Hh HE. unfold ProtonBoronFusionCrossSection.
  destruct (decide (E = 0)) as [H0 | _]; [ lra | ].
  assert (Hkev : 0 < E * (1e-3 / q_e)).
  { apply Rmult_lt_0_compat; [ exact HE | ].
    apply Rdiv_lt_0_compat; [ lra | exact Hq ]. }
  assert (Hmev : 0 < E * (1e-6 / q_e)).
  { apply Rmult_lt_0_compat; [ exact HE | ].
    apply Rdiv_lt_0_compat; [ lra | exact Hq ]. }
  run_traced.
  destruct (decide (_ < 400)) as [Hlow | Hnotlow];
    [ | destruct (decide (_ < 642)) as [Hmid | Hhigh] ];
    run_traced; apply barn_factor_positive; try exact Hmev.
  - apply low_fit_positive. exact Hkev.
  - apply mid_fit_positive. lra.
  - pose proof (peak_positive 2.57e6 (E * (1e-3 / q_e)) 581.3 (85.7 * 85.7)).
    pose proof (peak_positive 5.67e5 (E * (1e-3 / q_e)) 1083 (234 * 234)).
    pose proof (peak_positive 1.34e5 (E * (1e-3 / q_e)) 2405 (138 * 138)).
    pose proof (peak_positive 5.68e5 (E * (1e-3 / q_e)) 3344 (309 * 309)).
    lra.
Qed.

Lemma ProtonBoronFusionCrossSection_positive_witness :
  0 < value (ProtonBoronFusionCrossSection q_e_SI m_p_SI ep0_SI hbar_SI
                                           1.602176634e-14).
Proof.
  apply ProtonBoronFusionCrossSection_positive.
  - unfold q_e_SI; lra.
  - unfold m_p_SI; lra.
  - unfold ep0_SI; lra.
  - unfold hbar_SI; lra.
  - lra.
Defined.

(** *** The momenta of the products:
        [ProtonBoronFusionInitializeMomentum.H] *)

(** The data of a particle tile in structure-of-arrays form: [m_rdata] holds
    one array per real component.  The object is passed by value and the
    arrays by pointer: a write goes to the tile. *)
Record SoaData_type : Type := { m_rdata : list (list R) }.

(** [soa.m_rdata[comp][i] = v]. *)
Definition set_rdata (soa : SoaData_type) (comp i : nat) (v : R)
  : outcome SoaData_type :=
  let* component := read (m_rdata soa) comp in
  let* component' := write component i v in
  let* rdata' := write (m_rdata soa) comp component' in
  Normal {| m_rdata := rdata' |}.

(** [soa.m_rdata[comp][i]], where there is one. *)
Definition rdata_at (soa : SoaData_type) (comp i : nat) : option R :=
  match m_rdata soa !! comp with
  | Some component => component !! i
  | None => None
  end.

Section InitializeMomentum.

(** The enumerators [PIdx::ux], [PIdx::uy], [PIdx::uz] of
    [Particles/WarpXParticleContainer.H]. *)
Variables PIdx_ux PIdx_uy PIdx_uz : nat.

Definition ProtonBoronFusionInitializeMomentum
           (soa_1 soa_2 soa_alpha : SoaData_type)
           (idx_1 idx_2 idx_alpha_start : nat) (m1 m2 : R)
  : outcome SoaData_type :=
  let* soa_alpha := set_rdata soa_alpha PIdx_ux idx_alpha_start 0 in
  let* soa_alpha := set_rdata soa_alpha PIdx_uy idx_alpha_start 0 in
  let* soa_alpha := set_rdata soa_alpha PIdx_uz idx_alpha_start 0 in
  let* soa_alpha := set_rdata soa_alpha PIdx_ux (idx_alpha_start + 1) 0 in
  let* soa_alpha := set_rdata soa_alpha PIdx_uy (idx_alpha_start + 1) 0 in
  let* soa_alpha := set_rdata soa_alpha PIdx_uz (idx_alpha_start + 1) 0 in
  let* soa_alpha := set_rdata soa_alpha PIdx_ux (idx_alpha_start + 2) 0 in
  let* soa_alpha := set_rdata soa_alpha PIdx_uy (idx_alpha_start + 2) 0 in
  let* soa_alpha := set_rdata soa_alpha PIdx_uz (idx_alpha_start + 2) 0 in
  let* soa_alpha := set_rdata soa_alpha PIdx_ux (idx_alpha_start + 3) 0 in
  let* soa_alpha := set_rdata soa_alpha PIdx_uy (idx_alpha_start + 3) 0 in
  let* soa_alpha := set_rdata soa_alpha PIdx_uz (idx_alpha_start + 3) 0 in
  let* soa_alpha := set_rdata soa_alpha PIdx_ux (idx_alpha_start + 4) 0 in
  let* soa_alpha := set_rdata soa_alpha PIdx_uy (idx_alpha_start + 4) 0 in
  let* soa_alpha := set_rdata soa_alpha PIdx_uz (idx_alpha_start + 4) 0 in
  let* soa_alpha := set_rdata soa_alpha PIdx_ux (idx_alpha_start + 5) 0 in
  let* soa_alpha := set_rdata soa_alpha PIdx_uy (idx_alpha_start + 5) 0 in
  let* soa_alpha := set_rdata soa_alpha PIdx_uz (idx_alpha_start + 5) 0 in
  Normal soa_alpha.

(** The slots the function assigns, in the order of the source. *)
Definition assigned_slots (idx_alpha_start : nat) : list (nat * nat) :=
  [ (PIdx_ux, idx_alpha_start); (PIdx_uy, idx_alpha_start);
    (PIdx_uz, idx_alpha_start);
    (PIdx_ux, idx_alpha_start + 1); (PIdx_uy, idx_alpha_start + 1);
    (PIdx_uz, idx_alpha_start + 1);
    (PIdx_ux, idx_alpha_start + 2); (PIdx_uy, idx_alpha_start + 2);
    (PIdx_uz, idx_alpha_start + 2);
    (PIdx_ux, idx_alpha_start + 3); (PIdx_uy, idx_alpha_start + 3);
    (PIdx_uz, idx_alpha_start + 3);
    (PIdx_ux, idx_alpha_start + 4); (PIdx_uy, idx_alpha_start + 4);
    (PIdx_uz, idx_alpha_start + 4);
    (PIdx_ux, idx_alpha_start + 5); (PIdx_uy, idx_alpha_start + 5);
    (PIdx_uz, idx_alpha_start + 5) ]%nat.

(** One of the three momentum components, at one of the six consecutive
    indices from [idx_alpha_start]. *)
Definition product_slot (idx_alpha_start comp i : nat) : Prop :=
  (comp = PIdx_ux \/ comp = PIdx_uy \/ comp = PIdx_uz) /\
  (idx_alpha_start <= i < idx_alpha_start + 6)%nat.

End InitializeMomentum.

(** A sequence of assignments of one value. *)
Fixpoint set_rdata_all (slots : list (nat * nat)) (v : R) (soa : SoaData_type)
  : outcome SoaData_type :=
  match slots with
  | [] => Normal soa
  | (comp, i) :: rest =>
      let* soa' := set_rdata soa comp i v in set_rdata_all rest v soa'
  end.

Lemma ProtonBoronFusionInitializeMomentum_unfold
      (ux uy uz : nat) (soa_1 soa_2 soa_alpha : SoaData_type)
      (idx_1 idx_2 idx_alpha_start : nat) (m1 m2 : R) :
  ProtonBoronFusionInitializeMomentum ux uy uz soa_1 soa_2 soa_alpha
                                      idx_1 idx_2 idx_alpha_start m1 m2
  = set_rdata_all (assigned_slots ux uy uz idx_alpha_start) 0 soa_alpha.
Proof. reflexivity. Qed.

Lemma assigned_slots_product (ux uy uz idx comp i : nat) :
  (comp, i) ∈ assigned_slots ux uy uz idx <-> product_slot ux uy uz idx comp i.
Proof.
  unfold assigned_slots, product_slot. rewrite !elem_of_cons, elem_of_nil.
  split.
  - intros H.
    repeat (destruct H as [H | H];
            [ injection H as -> ->; split; [ tauto | lia ] | ]).
    contradiction.
  - intros [Hcomp Hi].
    assert (Hcases : (i = idx \/ i = idx + 1 \/ i = idx + 2 \/ i = idx + 3
                      \/ i = idx + 4 \/ i = idx + 5)%nat) by lia.
    destruct Hcomp as [-> | [-> | ->]];
      destruct Hcases as [-> | [-> | [-> | [-> | [-> | ->]]]]]; tauto.
Qed.

Lemma set_rdata_fails (soa : SoaData_type) (comp i : nat) (v : R) :
  rdata_at soa comp i = None -> set_rdata soa comp i v = OutOfBounds.
Proof.
  unfold rdata_at, set_rdata, read, write. intros H.
  destruct (m_rdata soa !! comp) as [component | ] eqn:Hc; [ | reflexivity ].
  cbn [bind]. apply lookup_ge_None in H.
  destruct (Nat.ltb_spec i (length component)) as [Hlt | Hge];
    [ lia | reflexivity ].
Qed.

Lemma set_rdata_succeeds (soa : SoaData_type) (comp i : nat) (v : R) :
  is_Some (rdata_at soa comp i) ->
  exists soa' : SoaData_type,
    set_rdata soa comp i v = Normal soa' /\
    length (m_rdata soa') = length (m_rdata soa) /\
    forall comp' i' : nat,
      rdata_at soa' comp' i'
      = if decide ((comp', i') = (comp, i)) then Some v
        else rdata_at soa comp' i'.
Proof.
  unfold rdata_at, set_rdata, read, write. intros [old Hold].
  destruct (m_rdata soa !! comp) as [component | ] eqn:Hc;
    [ | discriminate Hold ].
  cbn [bind].
  pose proof (lookup_lt_Some _ _ _ Hold) as Hi.
  pose proof (lookup_lt_Some _ _ _ Hc) as Hcomp.
  destruct (Nat.ltb_spec i (length component)) as [_ | Hge]; [ | lia ].
  cbn [bind].
  destruct (Nat.ltb_spec comp (length (m_rdata soa))) as [_ | Hge]; [ | lia ].
  cbn [bind]. eexists. split; [ reflexivity | ].
  cbn [m_rdata]. split; [ apply length_insert | ].
  intros comp' i'.
  destruct (decide (comp' = comp)) as [-> | Hne].
  - rewrite list_lookup_insert_eq by exact Hcomp.
    destruct (decide (i' = i)) as [-> | Hnei].
    + rewrite list_lookup_insert_eq by exact Hi.
      destruct (decide ((comp, i) = (comp, i))) as [_ | Hn];
        [ reflexivity | contradiction ].
    + rewrite list_lookup_insert_ne by (intros Heq; apply Hnei; symmetry; exact Heq).
      destruct (decide ((comp, i') = (comp, i))) as [Heq | _];
        [ injection Heq as Heq; contradiction | ].
      rewrite Hc. reflexivity.
  - rewrite list_lookup_insert_ne by (intros Heq; apply Hne; symmetry; exact Heq).
    destruct (decide ((comp', i') = (comp, i))) as [Heq | _];
      [ injection Heq as Heq _; contradiction | reflexivity ].
Qed.

Lemma set_rdata_all_succeeds (v : R) (slots : list (nat * nat)) :
  forall soa : SoaData_type,
    (forall comp i, (comp, i) ∈ slots -> is_Some (rdata_at soa comp i)) ->
    exists soa' : SoaData_type,
      set_rdata_all slots v soa = Normal soa' /\
      length (m_rdata soa') = length (m_rdata soa) /\
      forall comp i : nat,
        rdata_at soa' comp i
        = if decide ((comp, i) ∈ slots) then Some v else rdata_at soa comp i.
Proof.
  induction slots as [ | [comp0 i0] rest IH]; intros soa Hall.
  - exists soa. split; [ reflexivity | ]. split; [ reflexivity | ].
    intros comp i.
    destruct (decide ((comp, i) ∈ [])) as [Hin | _]; [ | reflexivity ].
    apply elem_of_nil in Hin. contradiction.
  - destruct (set_rdata_succeeds soa comp0 i0 v) as (soa1 & Hrun & Hlen & Hat).
    { apply Hall. apply list_elem_of_here. }
    destruct (IH soa1) as (soa' & Hrest & Hlen' & Hat').
    { intros comp i Hin. rewrite Hat.
      destruct (decide ((comp, i) = (comp0, i0))) as [_ | _];
        [ eexists; reflexivity | ].
      apply Hall. apply list_elem_of_further. exact Hin. }
    exists soa'. cbn [set_rdata_all]. rewrite Hrun. cbn [bind].
    split; [ exact Hrest | ]. split; [ rewrite Hlen'; exact Hlen | ].
    intros comp i. rewrite Hat', Hat.
    destruct (decide ((comp, i) ∈ rest)) as [Hin | Hnin].
    + destruct (decide ((comp, i) ∈ (comp0, i0) :: rest)) as [_ | Hn];
        [ reflexivity | ].
      exfalso. apply Hn. apply list_elem_of_further. exact Hin.
    + destruct (decide ((comp, i) = (comp0, i0))) as [Heq | Hne].
      * destruct (decide ((comp, i) ∈ (comp0, i0) :: rest)) as [_ | Hn];
          [ reflexivity | ].
        exfalso. apply Hn. rewrite Heq. apply list_elem_of_here.
      * destruct (decide ((comp, i) ∈ (comp0, i0) :: rest)) as [Hin | _];
          [ | reflexivity ].
        apply elem_of_cons in Hin. destruct Hin as [Heq | Hin];
          contradiction.
Qed.

Lemma set_rdata_all_fails (v : R) (slots : list (nat * nat)) :
  forall (soa : SoaData_type) (comp i : nat),
    (comp, i) ∈ slots -> rdata_at soa comp i = None ->
    set_rdata_all slots v soa = OutOfBounds.
Proof.
  induction slots as [ | [comp0 i0] rest IH]; intros soa comp i Hin Hnone.
  - apply elem_of_nil in Hin. contradiction.
  - cbn [set_rdata_all].
    destruct (rdata_at soa comp0 i0) as [old | ] eqn:Hhead.
    + destruct (set_rdata_succeeds soa comp0 i0 v) as (soa1 & Hrun & _ & Hat).
      { eexists. exact Hhead. }
      rewrite Hrun. cbn [bind].
      apply elem_of_cons in Hin. destruct Hin as [Heq | Hin].
      * injection Heq as -> ->. rewrite Hhead in Hnone. discriminate Hnone.
      * apply (IH soa1 comp i Hin). rewrite Hat.
        destruct (decide ((comp, i) = (comp0, i0))) as [Heq | _];
          [ | exact Hnone ].
        injection Heq as -> ->. rewrite Hhead in Hnone. discriminate Hnone.
    + rewrite (set_rdata_fails soa comp0 i0 v Hhead). reflexivity.
Qed.

(** X20.  [ProtonBoronFusionInitializeMomentum] on the tile of the products.
    If the three momentum components have the six slots from
    [idx_alpha_start] on, the call returns, these eighteen values are [0],
    every other value of every component is as before, and no component is
    added or removed.  If one of the eighteen slots does not exist, the call
    writes outside the allocation. *)
Theorem ProtonBoronFusionInitializeMomentum_zeroes_six_products
        (PIdx_ux PIdx_uy PIdx_uz : nat)
        (soa_1 soa_2 soa_alpha : SoaData_type)
        (idx_1 idx_2 idx_alpha_start : nat) (m1 m2 : R) :
  ((forall comp i,
      product_slot PIdx_ux PIdx_uy PIdx_uz idx_alpha_start comp i ->
      is_Some (rdata_at soa_alpha comp i)) ->
   exists soa' : SoaData_type,
     ProtonBoronFusionInitializeMomentum
       PIdx_ux PIdx_uy PIdx_uz soa_1 soa_2 soa_alpha
       idx_1 idx_2 idx_alpha_start m1 m2 = Normal soa' /\
     length (m_rdata soa') = length (m_rdata soa_alpha) /\
     forall comp i : nat,
       (product_slot PIdx_ux PIdx_uy PIdx_uz idx_alpha_start comp i ->
        rdata_at soa' comp i = Some 0) /\
       (~ product_slot PIdx_ux PIdx_uy PIdx_uz idx_alpha_start comp i ->
        rdata_at soa' comp i = rdata_at soa_alpha comp i)) /\
  ((exists comp i,
      product_slot PIdx_ux PIdx_uy PIdx_uz idx_alpha_start comp i /\
      rdata_at soa_alpha comp i = None) ->
   ProtonBoronFusionInitializeMomentum
     PIdx_ux PIdx_uy PIdx_uz soa_1 soa_2 soa_alpha
     idx_1 idx_2 idx_alpha_start m1 m2 = OutOfBounds).
Proof.
  rewrite ProtonBoronFusionInitializeMomentum_unfold. split.
  - intros Hall.
    destruct (set_rdata_all_succeeds
                0 (assigned_slots PIdx_ux PIdx_uy PIdx_uz idx_alpha_start)
                soa_alpha) as (soa' & Hrun & Hlen & Hat).
    { intros comp i Hin. apply Hall. apply assigned_slots_product. exact Hin. }
    exists soa'. split; [ exact Hrun | ]. split; [ exact Hlen | ].
    intros comp i. rewrite Hat. split; intros Hslot.
    + destruct (decide (_ ∈ _)) as [_ | Hn]; [ reflexivity | ].
      exfalso. apply Hn. apply assigned_slots_product. exact Hslot.
    + destruct (decide (_ ∈ _)) as [Hin | _]; [ | reflexivity ].
      exfalso. apply Hslot. apply assigned_slots_product. exact Hin.
  - intros (comp & i & Hslot & Hnone).
    apply (set_rdata_all_fails 0 _ soa_alpha comp i);
      [ apply assigned_slots_product; exact Hslot | exact Hnone ].
Qed.

(** A tile of products with the components [w], [ux], [uy], [uz] and seven
    particles; six products from index 1 on, and from index 2 on. *)
Definition products : SoaData_type :=
  {| m_rdata := [ [1; 1; 1; 1; 1; 1; 1]; [2; 2; 2; 2; 2; 2; 2];
                  [3; 3; 3; 3; 3; 3; 3]; [4; 4; 4; 4; 4; 4; 4] ] |}.

Lemma ProtonBoronFusionInitializeMomentum_zeroes_six_products_witness :
  ProtonBoronFusionInitializeMomentum 1 2 3 products products products
                                      0 0 1 1 1
  = Normal {| m_rdata := [ [1; 1; 1; 1; 1; 1; 1]; [2; 0; 0; 0; 0; 0; 0];
                           [3; 0; 0; 0; 0; 0; 0]; [4; 0; 0; 0; 0; 0; 0] ] |}
  /\
  ProtonBoronFusionInitializeMomentum 1 2 3 products products products
                                      0 0 2 1 1
  = OutOfBounds.
Proof.
  destruct (ProtonBoronFusionInitializeMomentum_zeroes_six_products
              1 2 3 products products products 0 0 2 1 1) as [_ Hpast].
  split; [ reflexivity | ].
  apply Hpast. exists 3%nat, 7%nat. split; [ | reflexivity ].
  split; [ tauto | lia ].
Defined.

End Fusion.
